(** * DevBridge web crawler ([devbridge/utils/http_crawler.py])

    A shallow embedding of the crawler of the DevBridge command line tool
    and the properties its specification states about it.

    Definitions
    - [PyStr]      the Python [str] methods the crawler uses.
    - [UrlLib]     [urllib.parse]: [urlsplit], [urlparse], [urlunparse].
    - [Fetcher]    [fetch_url_content]: one GET with retries and backoff.
    - [Crawler]    [CrawlResult], [crawl] and [process_single_url] as a
                   transition system over the state the coordinator loop
                   and its tasks share.  A step is what runs between two
                   suspension points of the asyncio event loop.
    - [Lab]        a small concrete site to run the crawler on.
    - [Terms], [Invariants]  the vocabulary of the properties.
    - [Ledger]     further invariants of the crawl and the work it has
                   left; [Trials], more crawls of the lab site.
    - [DeepwikiHelpers]  [construct_deepwiki_url], which builds the root
                   URL of the crawl of [learn_command_async].

    Properties
    - [UrlFacts]     a normalized link parses again, without fragment.
    - [FetcherFacts] retries, backoff and the value returned.
    - [CrawlerFacts] the invariant of the crawl and what follows.
    - [LedgerFacts]  concurrency, the host, the result, robots.txt and
                     the clock.
    - [TerminationFacts]  every crawl with a task slot comes to an end.
    - [BackoffFacts] a fetch that succeeds after retries; the total
                     backoff.
    - [DeepwikiFacts]  the URL built for a crawl is a valid root.
    - [ProvenanceFacts], [ProgressFacts]  where queue entries come from;
                     one progress event per stored page.
    - [RoundTripFacts], [NormalFacts]  a normalized link parses back to
                     its parts; the extension check at the queue. *)

From Stdlib Require Import Ascii String ZArith QArith Lia Lqa.
From stdpp Require Import base gmap strings list fin_maps pretty.

Local Open Scope Z_scope.

(** ** Python strings *)

Module PyStr.

Definition code (c : ascii) : N := N_of_ascii c.

Definition is_upper (c : ascii) : bool :=
  ((65 <=? code c) && (code c <=? 90))%N.
Definition is_lower (c : ascii) : bool :=
  ((97 <=? code c) && (code c <=? 122))%N.
Definition is_digit (c : ascii) : bool :=
  ((48 <=? code c) && (code c <=? 57))%N.
Definition is_alpha (c : ascii) : bool := is_upper c || is_lower c.

Definition lower_char (c : ascii) : ascii :=
  if is_upper c then ascii_of_N (code c + 32) else c.

(** [s.lower()] on the ASCII range. *)
Fixpoint lower (s : string) : string :=
  match s with
  | EmptyString => EmptyString
  | String c s' => String (lower_char c) (lower s')
  end.

(** [s.startswith(p)]. *)
Definition startswith (p s : string) : bool := String.prefix p s.

(** [s.endswith(suf)]: some suffix of [s] is [suf]. *)
Fixpoint endswith (suf s : string) : bool :=
  String.eqb s suf ||
  match s with
  | EmptyString => false
  | String _ s' => endswith suf s'
  end.

(** [needle in s]. *)
Fixpoint contains (needle s : string) : bool :=
  String.prefix needle s ||
  match s with
  | EmptyString => false
  | String _ s' => contains needle s'
  end.

(** [c in s] for a single character. *)
Fixpoint has_char (c : ascii) (s : string) : bool :=
  match s with
  | EmptyString => false
  | String d s' => Ascii.eqb d c || has_char c s'
  end.

(** The longest prefix of [s] with no character satisfying [p], and the
    rest of [s], which is empty or starts with such a character. *)
Fixpoint break_on (p : ascii -> bool) (s : string) : string * string :=
  match s with
  | EmptyString => (EmptyString, EmptyString)
  | String c s' =>
      if p c then (EmptyString, s)
      else let '(a, b) := break_on p s' in (String c a, b)
  end.

Fixpoint all_chars (p : ascii -> bool) (s : string) : bool :=
  match s with
  | EmptyString => true
  | String c s' => p c && all_chars p s'
  end.

Fixpoint filter_chars (p : ascii -> bool) (s : string) : string :=
  match s with
  | EmptyString => EmptyString
  | String c s' => if p c then String c (filter_chars p s')
                   else filter_chars p s'
  end.

(** [s[:n]]. *)
Definition take (n : nat) (s : string) : string := String.substring 0 n s.

(** [s.split(c, 1)] when [c in s]; [None] when it is not. *)
Definition split1 (c : ascii) (s : string) : option (string * string) :=
  match break_on (Ascii.eqb c) s with
  | (a, String _ b) => Some (a, b)
  | (_, EmptyString) => None
  end.

End PyStr.

(** ** urllib.parse

    The crawler parses URLs with [urlparse], rebuilds them with
    [urlunparse] and resolves links with [urljoin].  [urlparse] and
    [urlunparse] are modelled on their library code for [str] arguments;
    [urljoin] and the host validation of [urlsplit] that goes beyond
    balanced brackets ([_check_bracketed_netloc], [_checknetloc]) are
    parameters of the world the crawler runs in. *)

Module UrlLib.
Import PyStr.

(** [ParseResult]. *)
Record ParseResult := mkParse {
  scheme : string;
  netloc : string;
  path : string;
  params : string;
  query : string;
  fragment : string
}.

(** [p._replace(fragment=f)] and [p._replace(path=.., query=.., fragment=..)]. *)
Definition replace_fragment (f : string) (p : ParseResult) : ParseResult :=
  mkParse (scheme p) (netloc p) (path p) (params p) (query p) f.
Definition replace_path_query_fragment (pa q f : string) (p : ParseResult)
  : ParseResult :=
  mkParse (scheme p) (netloc p) pa (params p) q f.

(** A raised Python exception: [type(e).__name__] and [str(e)]. *)
Record PyExc := mkExc { exc_type : string; exc_msg : string }.

Definition ValueError (msg : string) : PyExc := mkExc "ValueError" msg.

Definition uses_params : list string :=
  [""; "ftp"; "hdl"; "prospero"; "http"; "imap"; "https"; "shttp"; "rtsp";
   "rtspu"; "sip"; "sips"; "mms"; "sftp"; "tel"].

Definition uses_netloc : list string :=
  [""; "ftp"; "http"; "gopher"; "nntp"; "telnet"; "imap"; "wais"; "file";
   "mms"; "https"; "shttp"; "snews"; "prospero"; "rtsp"; "rtspu"; "rsync";
   "svn"; "svn+ssh"; "sftp"; "nfs"; "git"; "git+ssh"; "ws"; "wss";
   "itms-services"].

Definition in_list (s : string) (l : list string) : bool :=
  existsb (String.eqb s) l.

(** [_WHATWG_C0_CONTROL_OR_SPACE]. *)
Definition is_c0_or_space (c : ascii) : bool := (code c <=? 32)%N.
(** [_UNSAFE_URL_BYTES_TO_REMOVE]: tab, carriage return, newline. *)
Definition is_unsafe (c : ascii) : bool :=
  ((code c =? 9) || (code c =? 10) || (code c =? 13))%N.
(** [scheme_chars]. *)
Definition is_scheme_char (c : ascii) : bool :=
  is_alpha c || is_digit c ||
  Ascii.eqb c "+" || Ascii.eqb c "-" || Ascii.eqb c ".".
(** The delimiters of [_splitnetloc]. *)
Definition is_netloc_delim (c : ascii) : bool :=
  Ascii.eqb c "/" || Ascii.eqb c "?" || Ascii.eqb c "#".

Fixpoint lstrip (p : ascii -> bool) (s : string) : string :=
  match s with
  | EmptyString => EmptyString
  | String c s' => if p c then lstrip p s' else s
  end.

(** The scheme prefix of [urlsplit]: [url.find(':') > 0], a letter first
    and only scheme characters before the colon. *)
Definition split_scheme (url : string) : string * string :=
  match break_on (Ascii.eqb ":") url with
  | (String c pre, String _ rest) =>
      if is_alpha c && all_chars is_scheme_char (String c pre)
      then (lower (String c pre), rest)
      else (EmptyString, url)
  | _ => (EmptyString, url)
  end.

(** [url.split('#', 1)] and [url.split('?', 1)] when the character
    occurs. *)
Definition split_opt (c : ascii) (url : string) : string * string :=
  match split1 c url with
  | Some (a, b) => (a, b)
  | None => (url, EmptyString)
  end.

(** [if url[:2] == '//': netloc, url = _splitnetloc(url, 2)]. *)
Definition splitnetloc (url : string) : string * string :=
  match url with
  | String c1 (String c2 rest) =>
      if Ascii.eqb c1 "/" && Ascii.eqb c2 "/"
      then break_on is_netloc_delim rest
      else (EmptyString, url)
  | _ => (EmptyString, url)
  end.

Definition brackets_balanced (nl : string) : bool :=
  Bool.eqb (has_char "[" nl) (has_char "]" nl).

Section WithHostCheck.
(** [_check_bracketed_netloc] and [_checknetloc]: the message of the
    [ValueError] they raise on a host, [None] when they accept it. *)
Variable netloc_check : string -> option string.

(** [urlsplit(url)] as [urlparse] calls it (no default scheme,
    fragments allowed); the result is the 5-tuple with an empty
    [params]. *)
Definition urlsplit (url0 : string) : PyExc + ParseResult :=
  let url := filter_chars (fun c => negb (is_unsafe c))
               (lstrip is_c0_or_space url0) in
  let '(sch, url) := split_scheme url in
  let '(nl, url) := splitnetloc url in
  if negb (brackets_balanced nl) then inl (ValueError "Invalid IPv6 URL")
  else match netloc_check nl with
  | Some msg => inl (ValueError msg)
  | None =>
    let '(url, frag) := split_opt "#" url in
    let '(url, q) := split_opt "?" url in
    inr (mkParse sch nl url EmptyString q frag)
  end.

(** The part of [s] before its last ['/'] and the part from it on. *)
Fixpoint last_segment (s : string) : string * string :=
  match s with
  | EmptyString => (EmptyString, EmptyString)
  | String c s' =>
      if has_char "/" s'
      then let '(a, b) := last_segment s' in (String c a, b)
      else (EmptyString, s)
  end.

(** [_splitparams]. *)
Definition splitparams (url : string) : string * string :=
  let '(dir, seg) := last_segment url in
  match split1 ";" seg with
  | Some (a, b) => (dir +:+ a, b)
  | None => (url, EmptyString)
  end.

(** [urlparse(url)]. *)
Definition urlparse (url : string) : PyExc + ParseResult :=
  match urlsplit url with
  | inl e => inl e
  | inr r =>
      if in_list (scheme r) uses_params && has_char ";" (path r)
      then let '(u, pa) := splitparams (path r) in
           inr (mkParse (scheme r) (netloc r) u pa (query r) (fragment r))
      else inr r
  end.
End WithHostCheck.

(** [urlunsplit]. *)
Definition urlunsplit (sch nl url q frag : string) : string :=
  let url :=
    if negb (String.eqb nl "") ||
       (negb (String.eqb sch "") && in_list sch uses_netloc &&
        negb (startswith "//" url))
    then
      let url := if negb (String.eqb url "") && negb (startswith "/" url)
                 then "/" +:+ url else url in
      "//" +:+ nl +:+ url
    else url in
  let url := if negb (String.eqb sch "") then sch +:+ ":" +:+ url else url in
  let url := if negb (String.eqb q "") then url +:+ "?" +:+ q else url in
  if negb (String.eqb frag "") then url +:+ "#" +:+ frag else url.

(** [urlunparse]. *)
Definition urlunparse (p : ParseResult) : string :=
  let url := if negb (String.eqb (params p) "")
             then path p +:+ ";" +:+ params p else path p in
  urlunsplit (scheme p) (netloc p) url (query p) (fragment p).

End UrlLib.

(** ** The Fetcher: [fetch_url_content] *)

Module Fetcher.

(** The exception one attempt ([session.get], [response.text]) ends
    with, by the first [except] clause of [fetch_url_content] that
    matches its class: [asyncio.TimeoutError],
    [aiohttp.ClientResponseError], [aiohttp.ClientConnectionError],
    another [aiohttp.ClientError], any other [Exception]; the string is
    [type(e).__name__]. *)
Inductive FetchExc :=
| TimeoutError
| ClientResponseError (status : Z) (message : string)
| ClientConnectionError (cls : string)
| ClientError (cls : string)
| OtherException (cls : string).

(** What the network does on one attempt: a response arrives and its
    text is read, or an exception is raised. *)
Inductive Attempt :=
| Responds (status : Z) (reason : string) (content : string)
           (headers : gmap string string)
| Raises (e : FetchExc).

(** [response.raise_for_status()]: raises when [400 <= status]. *)
Definition raise_for_status (status : Z) (reason : string)
  : option FetchExc :=
  if 400 <=? status then Some (ClientResponseError status reason) else None.

(** The body of the [try]: the value returned, or the exception the
    [except] clauses see. *)
Definition try_get (a : Attempt)
  : FetchExc + (Z * string * gmap string string) :=
  match a with
  | Raises e => inl e
  | Responds status reason content headers =>
      match raise_for_status status reason with
      | Some e => inl e
      | None => inr (status, content, headers)
      end
  end.

(** The locals the [except] clauses assign. *)
Record Locals := mkLocals {
  status_code_for_error : Z;
  error_message : string
}.

(** The [except] clauses: the new locals, and whether the clause ends
    in [break]. *)
Definition handle (e : FetchExc) : Locals * bool :=
  match e with
  | TimeoutError => (mkLocals 408 "Request Timeout", false)
  | ClientResponseError status message =>
      (mkLocals status ("HTTP Error: " +:+ pretty status +:+ " " +:+ message),
       (400 <=? status) && (status <? 500) &&
       negb (status =? 408) && negb (status =? 429))
  | ClientConnectionError cls =>
      (mkLocals 503 ("Client Connection Error: " +:+ cls), false)
  | ClientError cls => (mkLocals 503 ("Client Error: " +:+ cls), false)
  | OtherException cls =>
      (mkLocals 500 ("Generic Fetch Error: " +:+ cls), false)
  end.

(** One run of [fetch_url_content]: the triple it returns, the number
    of attempts it made and the durations, in seconds, it slept. *)
Record FetchRun := mkRun {
  returned : Z * string * gmap string string;
  attempts_made : nat;
  sleeps : list Q
}.

(** [(backoff_base_ms / 1000) * (2 ** attempt)]. *)
Definition sleep_duration (backoff_base_ms : Z) (attempt : nat) : Q :=
  ((inject_Z backoff_base_ms / 1000) * inject_Z (2 ^ Z.of_nat attempt))%Q.

Section Fetch.
(** [net url request_headers attempt]: what the [attempt]-th GET of
    [url] with these request headers does. *)
Variable net : string -> gmap string string -> nat -> Attempt.
Variables (url user_agent : string) (retry_limit backoff_base_ms : Z).

Definition request_headers : gmap string string :=
  <["User-Agent" := user_agent]>
    (<["Accept" := "text/html,*/*;q=0.8"]> ∅).

(** The [return] after the loop was left, by [break] or by the end
    of an empty range. *)
Definition return_after_loop (l : Locals) (made : nat) (sl : list Q)
  : FetchRun :=
  mkRun (status_code_for_error l,
         error_message l +:+ " (for " +:+ url +:+ ")", ∅) made sl.

(** The [return] in the [else] of the last attempt. *)
Definition return_exhausted (l : Locals) (made : nat) (sl : list Q)
  : FetchRun :=
  mkRun (status_code_for_error l,
         error_message l +:+ " (after " +:+ pretty (retry_limit + 1) +:+
         " attempts for " +:+ url +:+ ")", ∅) made sl.

(** The [for attempt in range(retry_limit + 1)] loop, [n] iterations
    from [attempt] on. *)
Fixpoint fetch_loop (n attempt : nat) (l : Locals) (sl : list Q)
  : FetchRun :=
  match n with
  | O => return_after_loop l attempt sl
  | S n' =>
      match try_get (net url request_headers attempt) with
      | inr triple => mkRun triple (S attempt) sl
      | inl e =>
          let '(l', brk) := handle e in
          if brk then return_after_loop l' (S attempt) sl
          else if Z.of_nat attempt <? retry_limit
          then fetch_loop n' (S attempt) l'
                 (sl ++ [sleep_duration backoff_base_ms attempt])
          else return_exhausted l' (S attempt) sl
      end
  end.

Definition fetch_run : FetchRun :=
  fetch_loop (Z.to_nat (retry_limit + 1)) 0
    (mkLocals 500 "Unknown fetch error") [].

(** [fetch_url_content(session, url, user_agent, retry_limit,
    backoff_base_ms)]. *)
Definition fetch_url_content : Z * string * gmap string string :=
  returned fetch_run.
End Fetch.

End Fetcher.

(** ** The crawler: [CrawlResult], [crawl], [process_single_url] *)

Module Crawler.
Import PyStr UrlLib Fetcher.

Definition NON_HTML_EXTENSIONS : list string :=
  [".css"; ".js"; ".mjs"; ".json"; ".ts"; ".jsx"; ".tsx";
   ".png"; ".jpg"; ".jpeg"; ".gif"; ".svg"; ".webp"; ".ico"; ".bmp";
   ".tiff";
   ".woff"; ".woff2"; ".ttf"; ".eot"; ".otf";
   ".pdf"; ".doc"; ".docx"; ".xls"; ".xlsx"; ".ppt"; ".pptx";
   ".xml"; ".rss"; ".atom"; ".csv"; ".txt"; ".rtf"; ".md";
   ".yaml"; ".yml"; ".ini"; ".cfg"; ".log";
   ".zip"; ".tar"; ".gz"; ".rar"; ".7z";
   ".mp4"; ".mp3"; ".avi"; ".mov"; ".wmv"; ".flv"; ".m4a"; ".ogg"; ".wav";
   ".exe"; ".dmg"; ".apk"; ".bin"; ".iso"; ".img";
   ".map"; ".webmanifest"; ".appcache"; ".webarchive"; ".bak";
   ".sql"; ".db"; ".sqlite";
   ".php"; ".asp"; ".aspx"; ".jsp"; ".cgi"].

(** [any(path_lower.endswith(ext) for ext in NON_HTML_EXTENSIONS)]. *)
Definition has_non_html_extension (path_lower : string) : bool :=
  existsb (fun ext => endswith ext path_lower) NON_HTML_EXTENSIONS.

(** *** CrawlResult *)

Record CrawlResult := mkResult {
  html_contents : gmap string string;
  errors : gmap string string;
  total_bytes : Z;
  start_time : Q;
  end_time : Q
}.

Definition truthy (t : Q) : bool := negb (Qeq_bool t 0).

Definition elapsed_ms (r : CrawlResult) : Q :=
  if truthy (start_time r) && truthy (end_time r)
  then ((end_time r - start_time r) * 1000)%Q
  else 0%Q.

(** [CrawlResult.__init__]. *)
Definition new_result : CrawlResult := mkResult ∅ ∅ 0 0 0.

(** *** The world one crawl runs in *)

Record World := mkWorld {
(** the network, see [Fetcher] *)
net : string -> gmap string string -> nat -> Attempt;
(** [[t['href'] for t in BeautifulSoup(html, 'lxml').find_all('a',
    href=True)]], or the exception building the soup raises *)
soup_hrefs : string -> PyExc + list string;
(** [urljoin(base, href)], or the exception it raises *)
urljoin : string -> string -> PyExc + string;
(** the host validation of [urlsplit], see [UrlLib] *)
netloc_check : string -> option string;
(** [RobotFileParser]: [can_fetch(user_agent, url)] after
    [parse(body.splitlines())] *)
robots_can_fetch : string -> string -> string -> bool;
(** the two readings of [loop.time()] *)
time_at_start : Q;
time_at_end : Q
}.

(** The arguments of [crawl]; [emit_progress] says whether an observer
    was passed.  The observer is taken to return normally. *)
Record Config := mkConfig {
  root_url : string;
  max_depth : Z;
  emit_progress : bool;
  user_agent : string;
  respect_robots_txt : bool;
  max_concurrent_tasks : Z;
  retry_limit : Z;
  backoff_base_ms : Z
}.

(** The dictionaries passed to the observer. *)
Inductive Event :=
| EvInfo (url : option string) (message : string)
| EvProgress (url : string) (bytes status fetched_count queue_size : Z)
| EvError (url : option string) (status : option Z) (message : string).

(** A call of [fetch_url_content]. *)
Inductive FetchCall :=
| RobotsFetch (url : string)
| PageFetch (url : string).

(** A running [process_single_url], by the point it has reached:
    before its fetch, after it stored the page, inside the loop over
    the links of the page. *)
Inductive Task :=
| Fetching (url : string) (depth : Z)
| Stored (url : string) (depth : Z) (html_content : string)
| Expanding (url : string) (depth : Z) (hrefs : list string).

Definition task_url (t : Task) : string :=
  match t with
  | Fetching u _ | Stored u _ _ | Expanding u _ _ => u
  end.
Definition task_depth (t : Task) : Z :=
  match t with
  | Fetching _ d | Stored _ d _ | Expanding _ d _ => d
  end.

(** The state shared by the coordinator loop of [crawl] and its tasks.
    [holding] is the item [get_nowait] returned and the loop has not
    decided on yet.  The last five fields are history: what was
    raised out of [crawl], every [queue.put], every task created,
    every item rejected when dequeued, every call of the Fetcher. *)
Record State := mkState {
  queue : list (string * Z);
  crawled_urls : gset string;
  result : CrawlResult;
  holding : option (string * Z);
  active_processing_tasks : list Task;
  events : list Event;
  raised : option PyExc;
  enqueued : list (string * Z);
  dispatched : list string;
  skipped : list string;
  fetch_log : list FetchCall
}.

Definition set_queue q s :=
  mkState q (crawled_urls s) (result s) (holding s)
    (active_processing_tasks s) (events s) (raised s) (enqueued s)
    (dispatched s) (skipped s) (fetch_log s).
Definition set_holding h s :=
  mkState (queue s) (crawled_urls s) (result s) h
    (active_processing_tasks s) (events s) (raised s) (enqueued s)
    (dispatched s) (skipped s) (fetch_log s).
Definition set_result r s :=
  mkState (queue s) (crawled_urls s) r (holding s)
    (active_processing_tasks s) (events s) (raised s) (enqueued s)
    (dispatched s) (skipped s) (fetch_log s).
Definition set_tasks ts s :=
  mkState (queue s) (crawled_urls s) (result s) (holding s)
    ts (events s) (raised s) (enqueued s)
    (dispatched s) (skipped s) (fetch_log s).
Definition set_raised e s :=
  mkState (queue s) (crawled_urls s) (result s) (holding s)
    (active_processing_tasks s) (events s) (Some e) (enqueued s)
    (dispatched s) (skipped s) (fetch_log s).
Definition add_events evs s :=
  mkState (queue s) (crawled_urls s) (result s) (holding s)
    (active_processing_tasks s) (events s ++ evs) (raised s) (enqueued s)
    (dispatched s) (skipped s) (fetch_log s).
Definition log_dispatch u s :=
  mkState (queue s) (crawled_urls s) (result s) (holding s)
    (active_processing_tasks s) (events s) (raised s) (enqueued s)
    (dispatched s ++ [u]) (skipped s) (fetch_log s).
Definition log_skip u s :=
  mkState (queue s) (crawled_urls s) (result s) (holding s)
    (active_processing_tasks s) (events s) (raised s) (enqueued s)
    (dispatched s) (skipped s ++ [u]) (fetch_log s).
Definition log_fetch c s :=
  mkState (queue s) (crawled_urls s) (result s) (holding s)
    (active_processing_tasks s) (events s) (raised s) (enqueued s)
    (dispatched s) (skipped s) (fetch_log s ++ [c]).

(** [crawled_urls.add(u); await queue.put((u, d))]. *)
Definition visit_and_put (u : string) (d : Z) (s : State) : State :=
  mkState (queue s ++ [(u, d)]) ({[u]} ∪ crawled_urls s) (result s)
    (holding s) (active_processing_tasks s) (events s) (raised s)
    (enqueued s ++ [(u, d)]) (dispatched s) (skipped s) (fetch_log s).

(** [result.errors[u] = msg]. *)
Definition set_error (u msg : string) (s : State) : State :=
  let r := result s in
  set_result (mkResult (html_contents r) (<[u := msg]> (errors r))
                (total_bytes r) (start_time r) (end_time r)) s.

(** [result.html_contents[u] = html; result.total_bytes += len(...)],
    the length in bytes of the page. *)
Definition store_page (u html : string) (s : State) : State :=
  let r := result s in
  set_result (mkResult (<[u := html]> (html_contents r)) (errors r)
                (total_bytes r + Z.of_nat (String.length html))
                (start_time r) (end_time r)) s.

Definition stamp_end (t : Q) (s : State) : State :=
  let r := result s in
  set_result (mkResult (html_contents r) (errors r) (total_bytes r)
                (start_time r) t) s.

(** *** The coordinator loop and the tasks *)

(** What the loop over the links of a page does with one [href]. *)
Inductive LinkAction :=
| LSkip
| LRaise (e : PyExc)
| LExtension (absolute_link link_path : string)
| LForeign
| LCandidate (normalized_link : string).

(** A scheduling choice: the coordinator takes an item from the queue,
    the coordinator decides on the item it holds, or the [i]-th active
    task runs up to its next suspension point. *)
Inductive Choice :=
| Dequeue
| Decide
| RunTask (i : nat).

(** How [crawl] ends. *)
Inductive Outcome :=
| Raised (e : PyExc)
| Returned (s : State).

(** How [crawl] begins: [urlparse(root_url)] raises, the root is not
    absolute, or the loop starts with these locals. *)
Inductive Start :=
| StartRaised (e : PyExc)
| StartInvalid (s : State)
| StartRunning (base_netloc : string) (robots_parser : option string)
               (s : State).

Section Run.
Variable w : World.
Variable cfg : Config.

Definition parse (u : string) : PyExc + ParseResult :=
  urlparse (netloc_check w) u.

(** [if emit_progress: await emit_progress(ev)]. *)
Definition emit (ev : Event) (s : State) : State :=
  add_events (if emit_progress cfg then [ev] else []) s.

Definition robots_url (parsed_root_url : ParseResult) : string :=
  urlunparse (replace_path_query_fragment "/robots.txt" "" ""
                parsed_root_url).

(** The [if respect_robots_txt:] block: the body of the robots.txt
    that was parsed, if one was.  [RobotFileParser.parse] is taken to
    return normally. *)
Definition load_robots (parsed_root_url : ParseResult) (s : State)
  : option string * State :=
  if respect_robots_txt cfg then
    let ru := robots_url parsed_root_url in
    let '(r_status, r_content, _) :=
      fetch_url_content (net w) ru (user_agent cfg) 0 300 in
    let s := log_fetch (RobotsFetch ru) s in
    if (r_status =? 200) && negb (String.eqb r_content "")
    then (Some r_content,
          emit (EvInfo None
                  ("Successfully parsed robots.txt from " +:+ ru)) s)
    else (None,
          emit (EvInfo None
                  ("Could not fetch robots.txt (status " +:+
                   pretty r_status +:+ ") from " +:+ ru)) s)
  else (None, s).

(** [result = CrawlResult(); result.start_time = loop.time()], the
    empty queue and the empty visited set. *)
Definition initial_state : State :=
  mkState [] ∅
    (mkResult (html_contents new_result) (errors new_result)
       (total_bytes new_result) (time_at_start w) (end_time new_result))
    None [] [] None [] [] [] [].

Definition crawl_start : Start :=
  match parse (root_url cfg) with
  | inl e => StartRaised e
  | inr parsed_root_url =>
      if String.eqb (scheme parsed_root_url) "" ||
         String.eqb (netloc parsed_root_url) ""
      then
        StartInvalid
          (stamp_end (time_at_end w)
             (set_error (root_url cfg)
                "Invalid root_url: Must be absolute."
                (emit (EvError None None
                         ("Invalid root_url: " +:+ root_url cfg +:+
                          ". Must be absolute."))
                   initial_state)))
      else
        let '(robots_parser, s) :=
          load_robots parsed_root_url initial_state in
        StartRunning (netloc parsed_root_url) robots_parser
          (visit_and_put (root_url cfg) 0 s)
  end.

Section Loop.
Variable base_netloc : string.
Variable robots_parser : option string.

(** [robots_parser and not robots_parser.can_fetch(user_agent, u)]. *)
Definition blocked (u : string) : bool :=
  match robots_parser with
  | Some body => negb (robots_can_fetch w body (user_agent cfg) u)
  | None => false
  end.

(** [queue.get_nowait()] under the guard of the inner [while]. *)
Definition step_dequeue (s : State) : option State :=
  match holding s, queue s with
  | None, item :: q =>
      if Z.of_nat (length (active_processing_tasks s))
         <? max_concurrent_tasks cfg
      then Some (set_holding (Some item) (set_queue q s))
      else None
  | _, _ => None
  end.

(** The rest of one round of the inner [while]: the robots check,
    the extension check, or the creation of the task. *)
Definition step_decide (s : State) : option State :=
  match holding s with
  | None => None
  | Some (current_url, current_depth) =>
      let s1 := set_holding None s in
      if blocked current_url then
        Some (log_skip current_url
                (set_error current_url "Skipped by robots.txt"
                   (emit (EvInfo (Some current_url)
                            "Skipped by robots.txt (at queue processing)")
                      s1)))
      else
        match parse current_url with
        | inl e => Some (set_raised e s)
        | inr p =>
            if has_non_html_extension (lower (path p)) then
              Some (log_skip current_url
                      (set_error current_url
                         ("Skipped due to file extension: " +:+ path p)
                         (emit (EvInfo (Some current_url)
                                  ("Skipped due to file extension (at queue processing): "
                                   +:+ path p)) s1)))
            else
              Some (log_dispatch current_url
                      (set_tasks (active_processing_tasks s1 ++
                                  [Fetching current_url current_depth])
                         s1))
        end
  end.

(** The body of the [for link_tag in ...] loop up to the robots
    check. *)
Definition examine_link (url_to_process href : string) : LinkAction :=
  if String.eqb href "" || startswith "mailto:" href ||
     startswith "tel:" href || startswith "javascript:" href
  then LSkip
  else
    match urljoin w url_to_process href with
    | inl e => LRaise e
    | inr absolute_link =>
        match parse absolute_link with
        | inl e => LRaise e
        | inr parsed_link =>
            if has_non_html_extension (lower (path parsed_link))
            then LExtension absolute_link (path parsed_link)
            else if String.eqb (netloc parsed_link) base_netloc &&
                    in_list (scheme parsed_link) ["http"; "https"]
            then LCandidate
                   (urlunparse (replace_fragment "" parsed_link))
            else LForeign
        end
    end.

(** The task leaves [active_processing_tasks] ([finally]). *)
Definition finish (i : nat) (s : State) : State :=
  set_tasks (delete i (active_processing_tasks s)) s.
(** The task suspends and will resume as [t]. *)
Definition suspend (i : nat) (t : Task) (s : State) : State :=
  set_tasks (<[i := t]> (active_processing_tasks s)) s.

Definition processing_error_message (e : PyExc) : string :=
  "Processing Error: " +:+ exc_type e +:+ " - " +:+ exc_msg e.

(** The [except Exception as e:] clause of [process_single_url]. *)
Definition processing_error (u : string) (e : PyExc) (i : nat)
    (s : State) : State :=
  finish i
    (emit (EvError (Some u) None (processing_error_message e))
       (set_error u (processing_error_message e) s)).

Definition not_html_message (content_type : string) : string :=
  "Skipped: Not HTML (Content-Type: " +:+ content_type +:+ ")".
Definition http_error_message (status : Z) (html_content : string)
  : string :=
  "HTTP Error: " +:+ pretty status +:+ " - " +:+
  (if String.eqb html_content ""
   then "(No content returned for error)" else html_content).

(** [process_single_url] from its start to the end of the fetch
    and the record of its outcome. *)
Definition step_fetch (i : nat) (u : string) (d : Z) (s : State)
  : State :=
  let s := emit (EvInfo (Some u)
                   ("Fetching at depth " +:+ pretty d)) s in
  let s := log_fetch (PageFetch u) s in
  let '(status, html_content, response_headers) :=
    fetch_url_content (net w) u (user_agent cfg) (retry_limit cfg)
      (backoff_base_ms cfg) in
  let content_type :=
    lower (default "" (response_headers !! "Content-Type")) in
  if negb (contains "text/html" content_type) then
    finish i
      (set_error u (not_html_message content_type)
         (emit (EvInfo (Some u) (not_html_message content_type)) s))
  else if status =? 200 then
    let s := store_page u html_content s in
    suspend i (Stored u d html_content)
      (emit (EvProgress u (Z.of_nat (String.length html_content))
               status
               (Z.of_nat (size (html_contents (result s))))
               (Z.of_nat (length (queue s)))) s)
  else
    finish i
      (emit (EvError (Some u) (Some status) (take 100 html_content))
         (set_error u (http_error_message status html_content) s)).

(** [if depth_of_url < max_depth: soup = BeautifulSoup(...)]. *)
Definition step_parse (i : nat) (u : string) (d : Z)
    (html_content : string) (s : State) : State :=
  if d <? max_depth cfg then
    match soup_hrefs w html_content with
    | inl e => processing_error u e i s
    | inr hrefs => suspend i (Expanding u d hrefs) s
    end
  else finish i s.

(** One round of the loop over the links. *)
Definition step_link (i : nat) (u : string) (d : Z)
    (href : string) (rest : list string) (s : State) : State :=
  match examine_link u href with
  | LSkip | LForeign => suspend i (Expanding u d rest) s
  | LRaise e => processing_error u e i s
  | LExtension absolute_link link_path =>
      suspend i (Expanding u d rest)
        (emit (EvInfo (Some absolute_link)
                 ("Skipped due to file extension: " +:+ link_path)) s)
  | LCandidate normalized_link =>
      if blocked normalized_link then
        suspend i (Expanding u d rest)
          (set_error normalized_link
             "Skipped by robots.txt (discovered link)"
             (emit (EvInfo (Some normalized_link)
                      "Skipped by robots.txt (discovered link)") s))
      else if decide (normalized_link ∈ crawled_urls s) then
        suspend i (Expanding u d rest) s
      else
        suspend i (Expanding u d rest)
          (visit_and_put normalized_link (d + 1) s)
  end.

(** [process_single_url], one slice of it per step. *)
Definition process_single_url (i : nat) (s : State) : option State :=
  match active_processing_tasks s !! i with
  | None => None
  | Some (Fetching u d) => Some (step_fetch i u d s)
  | Some (Stored u d html_content) =>
      Some (step_parse i u d html_content s)
  | Some (Expanding u d []) => Some (finish i s)
  | Some (Expanding u d (href :: rest)) =>
      Some (step_link i u d href rest s)
  end.

(** One step of the crawl; nothing runs once [crawl] has raised. *)
Definition step (c : Choice) (s : State) : option State :=
  match raised s with
  | Some _ => None
  | None =>
      match c with
      | Dequeue => step_dequeue s
      | Decide => step_decide s
      | RunTask i => process_single_url i s
      end
  end.

Fixpoint run (sched : list Choice) (s : State) : option State :=
  match sched with
  | [] => Some s
  | c :: sched' =>
      match step c s with
      | Some s' => run sched' s'
      | None => None
      end
  end.

(** [not active_processing_tasks and queue.empty()] at the head of
    the outer loop. *)
Definition finished (s : State) : bool :=
  match holding s, queue s, active_processing_tasks s with
  | None, [], [] => true
  | _, _, _ => false
  end.
End Loop.

(** [crawl(root_url, max_depth, emit_progress, ...)] under a
    schedule: [None] when the schedule is not one of a whole run. *)
Definition crawl (sched : list Choice) : option Outcome :=
  match crawl_start with
  | StartRaised e => Some (Raised e)
  | StartInvalid s => Some (Returned s)
  | StartRunning base_netloc robots_parser s0 =>
      match run base_netloc robots_parser sched s0 with
      | None => None
      | Some s =>
          match raised s with
          | Some e => Some (Raised e)
          | None =>
              if finished s
              then Some (Returned (stamp_end (time_at_end w) s))
              else None
          end
      end
  end.
End Run.

End Crawler.

(** ** A small site to run the crawler on

    The host [a.com] serves a home page, a page [/b] that links back to
    it, a page [/bad] with a link that [urljoin] rejects, a page
    [/slow] that answers 408 once, and a robots.txt that disallows
    [/private/]. *)

Module Lab.
Import PyStr UrlLib Fetcher Crawler.

Definition robots_txt : string := "User-agent: *
Disallow: /private/".

Definition html_home : string :=
  "<a href='/b'>b</a><a href='/logo.png'>logo</a>" +:+
  "<a href='/private/x'>x</a><a href='/private/logo.png'>p</a>" +:+
  "<a href='http://other.com/'>other</a>".
Definition html_b : string := "<a href='/'>home</a>".
Definition html_bad : string := "<a href='http://['>broken</a>".
Definition html_slow : string := "<p>late</p>".

Definition html_headers : gmap string string :=
  {[ "Content-Type" := "text/html; charset=utf-8" ]}.
Definition text_headers : gmap string string :=
  {[ "Content-Type" := "text/plain" ]}.

Definition net (url : string) (request_headers : gmap string string)
    (attempt : nat) : Attempt :=
  if String.eqb url "http://a.com/robots.txt"
  then Responds 200 "OK" robots_txt text_headers
  else if String.eqb url "http://a.com/" ||
          String.eqb url "http://a.com/#top"
  then Responds 200 "OK" html_home html_headers
  else if String.eqb url "http://a.com/b"
  then Responds 200 "OK" html_b html_headers
  else if String.eqb url "http://a.com/bad"
  then Responds 200 "OK" html_bad html_headers
  else if String.eqb url "http://a.com/slow"
  then match attempt with
       | O => Responds 408 "Request Timeout" "" html_headers
       | S _ => Responds 200 "OK" html_slow html_headers
       end
  else if String.eqb url "http://a.com/down"
  then Raises TimeoutError
  else Responds 404 "Not Found" "" html_headers.

Fixpoint drop (n : nat) (s : string) : string :=
  match n, s with
  | S n', String _ s' => drop n' s'
  | _, _ => s
  end.

(** The [href] values of the anchors of a lab page. *)
Fixpoint hrefs_of (s : string) : list string :=
  match s with
  | EmptyString => []
  | String _ s' =>
      if String.prefix "href='" s
      then fst (break_on (Ascii.eqb "'") (drop 6 s)) :: hrefs_of s'
      else hrefs_of s'
  end.

Definition soup_hrefs (html : string) : PyExc + list string :=
  inr (hrefs_of html).

Definition netloc_check (nl : string) : option string := None.

(** [urljoin] on the references the lab pages use: a reference that
    does not parse raises, one with a scheme stands for itself, one
    that starts with a slash replaces the path of the base. *)
Definition urljoin (base href : string) : PyExc + string :=
  match urlparse netloc_check href, urlparse netloc_check base with
  | inl e, _ => inl e
  | _, inl e => inl e
  | inr r, inr b =>
      if negb (String.eqb (scheme r) "") then inr href
      else inr (scheme b +:+ "://" +:+ netloc b +:+ href)
  end.

(** The rules of [robots_txt]; any other body allows everything. *)
Definition robots_can_fetch (body user_agent url : string) : bool :=
  if String.eqb body robots_txt then
    match urlparse netloc_check url with
    | inr p => negb (startswith "/private/" (path p))
    | inl _ => true
    end
  else true.

Definition world : World :=
  mkWorld net soup_hrefs urljoin netloc_check robots_can_fetch
    (10 # 1) (12 # 1).

Definition config (root : string) (depth : Z) : Config :=
  mkConfig root depth true "DevBridgeBot/0.1" true 10 2 500.

(** One task at a time: take the item, decide, run the task [n] times. *)
Definition visit (n : nat) : list Choice :=
  Dequeue :: Decide :: replicate n (RunTask 0).

(** The state [crawl] enters its loop with, and the state after a
    schedule. *)
Definition start_state (cfg : Config) : State :=
  match crawl_start world cfg with
  | StartRunning _ _ s0 => s0
  | StartInvalid s => s
  | StartRaised _ => initial_state world
  end.
Definition state_after (cfg : Config) (sched : list Choice) : State :=
  default (initial_state world)
    (run world cfg "a.com" (Some robots_txt) sched (start_state cfg)).

(** The state a completed crawl returns. *)
Definition returned_state (cfg : Config) (sched : list Choice) : State :=
  match crawl world cfg sched with
  | Some (Returned s) => s
  | _ => initial_state world
  end.

(** The crawl of the page with the link that does not parse. *)
Definition bad_config : Config := config "http://a.com/bad" 1.
Definition bad_schedule : list Choice := visit 3.

(** The crawl of a page that times out, up to the creation of its
    task. *)
Definition down_config : Config := config "http://a.com/down" 1.
Definition down_schedule : list Choice := [Dequeue; Decide].

(** The crawl of a root URL with a fragment, root only. *)
Definition top_config : Config := config "http://a.com/#top" 0.
Definition top_schedule : list Choice := visit 2.

(** The crawl of the home page, one level deep. *)
Definition home_config : Config := config "http://a.com/" 1.
Definition home_schedule : list Choice := visit 8 ++ visit 2.

End Lab.

(** ** The vocabulary of the properties *)

Module Terms.
Import PyStr UrlLib Fetcher Crawler.

(** The exception an attempt ends with, if it ends with one. *)
Definition failure (a : Attempt) : option FetchExc :=
  match try_get a with
  | inl e => Some e
  | inr _ => None
  end.

(** The failures after which [fetch_url_content] goes on to another
    attempt: every exception but an HTTP error status from 400 to 499
    other than 408 and 429. *)
Definition retries_on (a : Attempt) : bool :=
  match failure a with
  | None => false
  | Some (ClientResponseError st _) =>
      negb ((400 <=? st) && (st <? 500)) || (st =? 408) || (st =? 429)
  | Some _ => true
  end.

(** The failures the specification lists as retried: timeout,
    connection failure, 5xx, 429. *)
Definition listed_as_retried (a : Attempt) : bool :=
  match failure a with
  | Some TimeoutError | Some (ClientConnectionError _) => true
  | Some (ClientResponseError st _) =>
      ((500 <=? st) && (st <? 600)) || (st =? 429)
  | _ => false
  end.

(** An HTTP error status from 400 to 499 other than [other]. *)
Definition client_error_other_than (other : list Z) (a : Attempt) : bool :=
  match failure a with
  | Some (ClientResponseError st _) =>
      (400 <=? st) && (st <? 500) && negb (existsb (Z.eqb st) other)
  | _ => false
  end.

(** The fetch ended in failure: it made no attempt, or its last
    attempt ended with an exception. *)
Definition fetch_failed (net : string -> gmap string string -> nat -> Attempt)
    (url user_agent : string) (retry_limit backoff_base_ms : Z) : bool :=
  match attempts_made
          (fetch_run net url user_agent retry_limit backoff_base_ms) with
  | O => true
  | S k =>
      match failure (net url (request_headers user_agent) k) with
      | Some _ => true
      | None => false
      end
  end.

(** The text [fetch_url_content] appends to the message of the last
    failure when the attempts are used up. *)
Definition after_attempts (url : string) (retry_limit : Z) : string :=
  " (after " +:+ pretty (retry_limit + 1) +:+ " attempts for " +:+ url +:+ ")".

(** [href] is a link of a page the crawl stored and whose links it
    walks: the page was put on the queue above [max_depth]. *)
Definition discovered (w : World) (cfg : Config) (s : State)
    (u href : string) : Prop :=
  exists d html hrefs,
    (u, d) ∈ enqueued s /\ d < max_depth cfg /\
    html_contents (result s) !! u = Some html /\
    soup_hrefs w html = inr hrefs /\ href ∈ hrefs.

End Terms.

(** ** What holds of every state of a crawl *)

Module Invariants.
Import PyStr UrlLib Fetcher Crawler.

(** The item the coordinator holds, as a list. *)
Definition held (s : State) : list (string * Z) :=
  match holding s with
  | Some item => [item]
  | None => []
  end.

Definition task_urls (s : State) : list string :=
  task_url <$> active_processing_tasks s.

Definition page_of (c : FetchCall) : option string :=
  match c with
  | PageFetch u => Some u
  | RobotsFetch _ => None
  end.

(** The URLs [process_single_url] has passed to the Fetcher. *)
Definition page_fetches (s : State) : list string :=
  omap page_of (fetch_log s).

(** The messages the robots checks record. *)
Definition robots_message (msg : string) : Prop :=
  msg = "Skipped by robots.txt" \/
  msg = "Skipped by robots.txt (discovered link)".

(** The message the [except Exception] clause records. *)
Definition processing_message (msg : string) : Prop :=
  exists e, msg = processing_error_message e.

(** A character [urlsplit] keeps. *)
Definition safe (c : ascii) : bool := negb (is_unsafe c).
(** A character that can stand in a path, its parameters or a query. *)
Definition clean (c : ascii) : bool := safe c && negb (Ascii.eqb "#" c).
(** A character that can stand in a host. *)
Definition hostly (c : ascii) : bool := safe c && negb (is_netloc_delim c).

(** The string is empty or starts with a character satisfying [p]. *)
Definition starts_with (p : ascii -> bool) (s : string) : Prop :=
  match s with
  | EmptyString => True
  | String c _ => p c = true
  end.

(** A URL with an absolute scheme and host and no fragment. *)
Definition normalized_absolute (check : string -> option string)
    (u : string) : bool :=
  match urlparse check u with
  | inr p => negb (String.eqb (scheme p) "") &&
             negb (String.eqb (netloc p) "") &&
             String.eqb (fragment p) ""
  | inl _ => false
  end.

Section Crawl.
Variable w : World.
Variable cfg : Config.
Variable base_netloc : string.
Variable robots_parser : option string.

(** What the link loop enqueues or records: the [urlunparse] of a
    parsed link on the crawled host, http or https, fragment set to
    the empty string. *)
Definition link_shaped (u : string) : Prop :=
  exists a p, parse w a = inr p /\
    netloc p = base_netloc /\
    in_list (scheme p) ["http"; "https"] = true /\
    u = urlunparse (replace_fragment "" p).

(** The frontier: every URL put on the queue is waiting, held,
    dispatched or skipped, and was put once. *)
Record frontier_ok (s : State) : Prop := {
  fr_perm : (enqueued s).*1 ≡ₚ
            dispatched s ++ skipped s ++ (held s).*1 ++ (queue s).*1;
  fr_nodup : NoDup (enqueued s).*1;
  fr_visited : forall u, u ∈ crawled_urls s <-> u ∈ (enqueued s).*1;
  fr_items : forall item, item ∈ held s ++ queue s -> item ∈ enqueued s
}.

(** The tasks: one per dispatched URL, one fetch per task, and a
    page is stored only by the task that fetched it. *)
Record tasks_ok (s : State) : Prop := {
  tk_nodup : NoDup (task_urls s);
  tk_dispatched : forall t, t ∈ active_processing_tasks s ->
    task_url t ∈ dispatched s /\ (task_url t, task_depth t) ∈ enqueued s;
  tk_fetch_nodup : NoDup (page_fetches s);
  tk_fetched : forall u, u ∈ page_fetches s ->
    u ∈ dispatched s /\ forall d, Fetching u d ∉ active_processing_tasks s;
  tk_html : forall u, u ∈ dom (html_contents (result s)) ->
    u ∈ page_fetches s
}.

(** The checks every dispatched URL has passed. *)
Record policy_ok (s : State) : Prop := {
  po_allowed : forall u, u ∈ dispatched s ->
    blocked w cfg robots_parser u = false;
  po_extension : forall u, u ∈ dispatched s ->
    exists p, parse w u = inr p /\
              has_non_html_extension (lower (path p)) = false
}.

(** Where each entry of [errors] comes from. *)
Definition error_origin (s : State) (u msg : string) : Prop :=
  (blocked w cfg robots_parser u = true /\ robots_message msg) \/
  (blocked w cfg robots_parser u = false /\ u ∈ skipped s /\
   exists p, parse w u = inr p /\
             has_non_html_extension (lower (path p)) = true /\
             msg = "Skipped due to file extension: " +:+ path p) \/
  (u ∈ dispatched s /\ (u ∉ task_urls s) /\
   (u ∈ dom (html_contents (result s)) -> processing_message msg)).

Definition errors_ok (s : State) : Prop :=
  forall u msg, errors (result s) !! u = Some msg -> error_origin s u msg.

(** Depths and shapes: the root is put first at depth 0, everything
    else is a normalized link one level below a page that is above
    [max_depth]. *)
Record shape_ok (s : State) : Prop := {
  sh_root : exists rest, enqueued s = (root_url cfg, 0) :: rest;
  sh_enqueued : forall u d, (u, d) ∈ enqueued s ->
    (u = root_url cfg /\ d = 0) \/
    (link_shaped u /\ 0 < d <= max_depth cfg);
  sh_errors : forall u, u ∈ dom (errors (result s)) ->
    u ∈ (enqueued s).*1 \/ (link_shaped u /\ 0 < max_depth cfg);
  sh_expanding : forall u d hrefs,
    Expanding u d hrefs ∈ active_processing_tasks s -> d < max_depth cfg
}.

Record invariant (s : State) : Prop := {
  inv_frontier : frontier_ok s;
  inv_tasks : tasks_ok s;
  inv_policy : policy_ok s;
  inv_errors : errors_ok s;
  inv_shape : shape_ok s
}.

(** [s] is a state the loop of [crawl] passes through, under some
    schedule, with these locals. *)
Definition passes (s : State) : Prop :=
  exists s0 sched,
    crawl_start w cfg = StartRunning base_netloc robots_parser s0 /\
    run w cfg base_netloc robots_parser sched s0 = Some s.
End Crawl.

End Invariants.

(** ** More of what holds of every state of a crawl *)

Module Ledger.
Import PyStr UrlLib Fetcher Crawler Invariants.

(** The tasks running plus the item the coordinator holds. *)
Definition in_flight (s : State) : nat :=
  length (active_processing_tasks s) + length (held s).

(** [sum(len(body.encode('utf-8')) for body in html_contents.values())]. *)
Definition stored_bytes (m : gmap string string) : Z :=
  map_fold (fun _ body acc => acc + Z.of_nat (String.length body)) 0 m.

(** The messages the crawler writes into [errors]. *)
Definition known_message (msg : string) : Prop :=
  msg = "Invalid root_url: Must be absolute." \/
  robots_message msg \/
  (exists link_path, msg = "Skipped due to file extension: " +:+ link_path) \/
  (exists content_type, msg = not_html_message content_type) \/
  (exists status body, msg = http_error_message status body) \/
  processing_message msg.

(** The progress events: URL, bytes, status and fetched count. *)
Definition progress_of (ev : Event) : option (string * Z * Z * Z) :=
  match ev with
  | EvProgress url bytes status fetched_count _ =>
      Some (url, bytes, status, fetched_count)
  | _ => None
  end.
Definition progress_events (s : State) : list (string * Z * Z * Z) :=
  omap progress_of (events s).

(** One progress event per stored page, in the order of storing: the
    event number [k], counted from 0, reports status 200, the length
    of the page and the count [k + 1]. *)
Record progress_ok (s : State) : Prop := {
  pg_length : length (progress_events s) = size (html_contents (result s));
  pg_event : forall k u bytes status fetched_count,
    progress_events s !! k = Some (u, bytes, status, fetched_count) ->
    status = 200 /\ fetched_count = Z.of_nat (S k) /\
    exists body, html_contents (result s) !! u = Some body /\
                 bytes = Z.of_nat (String.length body)
}.

(** A path that is empty or starts with a slash. *)
Definition rooted (s : string) : Prop := s = "" \/ startswith "/" s = true.

(** The sum of a list of durations. *)
Definition total (l : list Q) : Q := fold_right Qplus 0%Q l.

Section Crawl.
Variable w : World.
Variable cfg : Config.

(** The response [fetch_url_content] gives for [u] is a page: status
    200, a Content-Type that contains [text/html], and this body. *)
Definition html_response (u body : string) : Prop :=
  let '(status, content, headers) :=
    fetch_url_content (net w) u (user_agent cfg) (retry_limit cfg)
      (backoff_base_ms cfg) in
  status = 200 /\ content = body /\
  contains "text/html" (lower (default "" (headers !! "Content-Type")))
    = true.

(** Every stored page is the body of such a response. *)
Definition stored_ok (s : State) : Prop :=
  forall u body, html_contents (result s) !! u = Some body ->
                 html_response u body.

(** Every URL taken from the queue is accounted for: a skipped URL has
    an entry in [errors]; a dispatched URL has a task, a stored page or
    an entry in [errors]; a task past its fetch has stored its page. *)
Record accounted (s : State) : Prop := {
  ac_skipped : forall u, u ∈ skipped s -> u ∈ dom (errors (result s));
  ac_dispatched : forall u, u ∈ dispatched s ->
    u ∈ task_urls s \/ u ∈ dom (html_contents (result s)) \/
    u ∈ dom (errors (result s));
  ac_stored : forall t, t ∈ active_processing_tasks s ->
    (exists d, t = Fetching (task_url t) d) \/
    task_url t ∈ dom (html_contents (result s))
}.

(** Every value of [errors] is one of the crawler's messages. *)
Definition messages_ok (s : State) : Prop :=
  forall u msg, errors (result s) !! u = Some msg -> known_message msg.

(** The calls of the Fetcher before the first page: the one for
    robots.txt, when [respect_robots_txt] is set. *)
Definition robots_calls (parsed_root_url : ParseResult) : list FetchCall :=
  if respect_robots_txt cfg
  then [RobotsFetch (robots_url parsed_root_url)]
  else [].

(** An item is rejected when dequeued for one of two reasons. *)
Definition skipped_ok (robots_parser : option string) (s : State) : Prop :=
  forall u, u ∈ skipped s ->
    blocked w cfg robots_parser u = true \/
    exists p, parse w u = inr p /\
              has_non_html_extension (lower (path p)) = true.

(** A message about a file extension is recorded only for an item
    rejected when dequeued, whose path has a skipped extension. *)
Definition extension_entries_ok (s : State) : Prop :=
  forall u msg, errors (result s) !! u = Some msg ->
    startswith "Skipped due to file extension: " msg = true ->
    u ∈ skipped s /\
    exists p, parse w u = inr p /\
              has_non_html_extension (lower (path p)) = true.

(** A robots message is recorded only for a URL that the robots.txt
    in force disallows. *)
Definition robots_entries_ok (robots_parser : option string) (s : State)
  : Prop :=
  forall u msg, errors (result s) !! u = Some msg -> robots_message msg ->
                blocked w cfg robots_parser u = true.
End Crawl.

(** *** The work a crawl has left

    A bound on the number of steps a crawl can still take, read off
    the site: an item on the queue costs the two rounds of the
    coordinator, the fetch, the parse and the end of its task, and,
    when it lies above [max_depth] and its page is stored, one round
    per link of the page plus the cost of every link that may be put
    on the queue. *)

Section Work.
Variable w : World.
Variable cfg : Config.
Variable base_netloc : string.

(** The normalized link the loop over the links would put on the
    queue for [href], robots.txt and the visited set permitting. *)
Definition candidate (u href : string) : option string :=
  match examine_link w base_netloc u href with
  | LCandidate normalized_link => Some normalized_link
  | _ => None
  end.

Definition hrefs_of_page (html : string) : list string :=
  match soup_hrefs w html with
  | inr hrefs => hrefs
  | inl _ => []
  end.

(** The page a task stores for [u], if it stores one. *)
Definition fetched_page (u : string) : option string :=
  let '(status, html_content, headers) :=
    fetch_url_content (net w) u (user_agent cfg) (retry_limit cfg)
      (backoff_base_ms cfg) in
  if contains "text/html" (lower (default "" (headers !! "Content-Type")))
     && (status =? 200)
  then Some html_content else None.

(** The levels left below depth [d]. *)
Definition levels (d : Z) : nat := Z.to_nat (max_depth cfg - d).

Section Below.
(** The work of an item one level further down. *)
Variable work_below : string -> nat.

Definition work_hrefs (u : string) (hrefs : list string) : nat :=
  sum_list_with
    (fun href => S (from_option work_below 0%nat (candidate u href)))
    hrefs.
End Below.

Fixpoint work_url (r : nat) (u : string) : nat :=
  5 + match r with
      | O => 0
      | S r' =>
          match fetched_page u with
          | Some html => work_hrefs (work_url r') u (hrefs_of_page html)
          | None => 0
          end
      end.

Definition work_item (item : string * Z) : nat :=
  work_url (levels item.2) item.1.

Definition work_task (t : Task) : nat :=
  match t with
  | Fetching u d => work_url (levels d) u - 2
  | Stored u d html =>
      2 + match levels d with
          | O => 0
          | S r' => work_hrefs (work_url r') u (hrefs_of_page html)
          end
  | Expanding u d hrefs =>
      1 + work_hrefs (work_url (pred (levels d))) u hrefs
  end.

Definition work (s : State) : nat :=
  sum_list_with work_item (queue s) +
  match holding s with
  | Some item => work_item item - 1
  | None => 0
  end +
  sum_list_with work_task (active_processing_tasks s).
End Work.

(** *** Where the queue entries come from *)

Section Provenance.
Variable w : World.
Variable cfg : Config.
Variable base_netloc : string.

(** [l] is the normalized link of an [href] of the page stored for
    [u], a page put on the queue at depth [d], above [max_depth]. *)
Definition found_on (s : State) (l : string) (d : Z) (u : string) : Prop :=
  exists html hrefs href,
    (u, d) ∈ enqueued s /\ d < max_depth cfg /\
    html_contents (result s) !! u = Some html /\
    soup_hrefs w html = inr hrefs /\ href ∈ hrefs /\
    candidate w base_netloc u href = Some l.

(** Every entry but the root was found on a stored page one level
    up; a task past its fetch works on the page stored for its URL,
    and the links it still has to walk are the last links of that
    page. *)
Record provenance (s : State) : Prop := {
  pv_enqueued : forall l d, (l, d) ∈ enqueued s ->
    (l, d) = (root_url cfg, 0) \/ exists u, found_on s l (d - 1) u;
  pv_stored : forall u d html,
    Stored u d html ∈ active_processing_tasks s ->
    html_contents (result s) !! u = Some html;
  pv_expanding : forall u d hrefs,
    Expanding u d hrefs ∈ active_processing_tasks s ->
    exists html done,
      html_contents (result s) !! u = Some html /\
      soup_hrefs w html = inr (done ++ hrefs)
}.
End Provenance.

End Ledger.

(** ** More crawls of the lab site *)

Module Trials.
Import PyStr UrlLib Fetcher Crawler.

(** The home page with no task slot. *)
Definition idle_config : Config :=
  mkConfig "http://a.com/" 1 true "DevBridgeBot/0.1" true 0 2 500.

(** The home page, one level deep, robots.txt ignored. *)
Definition open_config : Config :=
  mkConfig "http://a.com/" 1 true "DevBridgeBot/0.1" false 10 2 500.
Definition open_schedule : list Choice :=
  Lab.visit 8 ++ Lab.visit 2 ++ Lab.visit 1.
Definition open_state : State :=
  default (initial_state Lab.world)
    (run Lab.world open_config "a.com" None open_schedule
       (Lab.start_state open_config)).

(** The home page with two tasks at a time: the root is expanded,
    then [/b] is dispatched while the root task still runs. *)
Definition pair_schedule : list Choice :=
  Lab.visit 7 ++ [Dequeue; Decide].

(** The home page with a negative [retry_limit]. *)
Definition hasty_config : Config :=
  mkConfig "http://a.com/" 1 true "DevBridgeBot/0.1" true 10 (-1) 500.

(** A network that fails [k] times with a 503, then answers. *)
Definition flaky (k : nat) (url : string)
    (request_headers : gmap string string) (attempt : nat) : Attempt :=
  if (attempt <? k)%nat
  then Responds 503 "Service Unavailable" "" ∅
  else Responds 200 "OK" Lab.html_b Lab.html_headers.

End Trials.

(** ** Deepwiki URLs ([devbridge/utils/deepwiki_helpers.py])

    [learn_command_async] builds the root URL of its crawl with
    [construct_deepwiki_url]. *)

Module DeepwikiHelpers.
Import PyStr UrlLib.

Definition is_slash (c : ascii) : bool := Ascii.eqb c "/".

(** [s.rstrip(chars)]. *)
Fixpoint rstrip (p : ascii -> bool) (s : string) : string :=
  match s with
  | EmptyString => EmptyString
  | String c s' =>
      match rstrip p s' with
      | EmptyString => if p c then EmptyString else String c EmptyString
      | rest => String c rest
      end
  end.

(** [s.strip(chars)]. *)
Definition strip (p : ascii -> bool) (s : string) : string :=
  rstrip p (lstrip p s).

(** The default of [base_deepwiki_url]. *)
Definition default_base : string := "https://deepwiki.com".

Section WithHostCheck.
Variable netloc_check : string -> option string.

(** [construct_deepwiki_url(repo_identifier, base_deepwiki_url)]: the
    URL or [None], or the [ValueError] of [urlparse]. *)
Definition construct_deepwiki_url (repo_identifier base_deepwiki_url : string)
  : PyExc + option string :=
  if String.eqb repo_identifier "" then inr None
  else if String.eqb base_deepwiki_url "" then inr None
  else
    match urlparse netloc_check repo_identifier with
    | inl e => inl e
    | inr parsed_id =>
        if negb (String.eqb (scheme parsed_id) "") &&
           negb (String.eqb (netloc parsed_id) "")
        then
          if contains "deepwiki" (lower (netloc parsed_id))
          then inr (Some repo_identifier)
          else inr None
        else
          let path_part := strip is_slash repo_identifier in
          inr (Some (rstrip is_slash base_deepwiki_url +:+ "/" +:+
                     path_part))
    end.
End WithHostCheck.

End DeepwikiHelpers.

(** ** urllib.parse: what a parsed URL is made of *)

Module UrlFacts.
Import PyStr UrlLib Invariants.

Lemma app_cons c a b : String c a +:+ b = String c (a +:+ b).
Proof. reflexivity. Qed.

Lemma app_nil b : "" +:+ b = b.
Proof. reflexivity. Qed.

Lemma app_assoc_s (a b c : string) : (a +:+ b) +:+ c = a +:+ (b +:+ c).
Proof.
  induction a as [|x a IH]; [reflexivity|].
  rewrite !app_cons, IH. reflexivity.
Qed.

Lemma all_chars_app q a b :
  all_chars q (a +:+ b) = all_chars q a && all_chars q b.
Proof.
  induction a as [|x a IH]; [reflexivity|].
  rewrite app_cons. cbn. rewrite IH, andb_assoc. reflexivity.
Qed.

Lemma all_chars_weaken (q r : ascii -> bool) s :
  (forall c, q c = true -> r c = true) ->
  all_chars q s = true -> all_chars r s = true.
Proof.
  intros H. induction s as [|x s IH]; [reflexivity|]. cbn.
  intros [Hx Hs]%andb_prop. rewrite (H x Hx), (IH Hs). reflexivity.
Qed.

Lemma all_chars_and (q r : ascii -> bool) s :
  all_chars q s = true -> all_chars r s = true ->
  all_chars (fun c => q c && r c) s = true.
Proof.
  induction s as [|x s IH]; [reflexivity|]. cbn [all_chars].
  intros [Hx Hs]%andb_prop [Hy Hr]%andb_prop.
  rewrite Hx, Hy, (IH Hs Hr). reflexivity.
Qed.

Lemma filter_chars_all q s : all_chars q (filter_chars q s) = true.
Proof.
  induction s as [|x s IH]; [reflexivity|]. cbn.
  destruct (q x) eqn:E; [cbn; rewrite E|]; exact IH.
Qed.

Lemma filter_chars_id q s : all_chars q s = true -> filter_chars q s = s.
Proof.
  induction s as [|x s IH]; [reflexivity|]. cbn.
  intros [Hx Hs]%andb_prop. rewrite Hx, (IH Hs). reflexivity.
Qed.

Lemma break_on_spec p s :
  s = fst (break_on p s) +:+ snd (break_on p s) /\
  all_chars (fun c => negb (p c)) (fst (break_on p s)) = true /\
  starts_with p (snd (break_on p s)).
Proof.
  induction s as [|x s IH]; [cbn; auto|]. cbn.
  destruct (p x) eqn:E; [cbn; auto|].
  destruct (break_on p s) as [a b]. cbn in *.
  destruct IH as (-> & Ha & Hb). rewrite E. auto.
Qed.

Lemma break_on_app p a b :
  all_chars (fun c => negb (p c)) a = true -> starts_with p b ->
  break_on p (a +:+ b) = (a, b).
Proof.
  intros Ha Hb. induction a as [|x a IH].
  - rewrite app_nil. destruct b as [|y b]; [reflexivity|]. cbn in *.
    rewrite Hb. reflexivity.
  - cbn in Ha. apply andb_prop in Ha as [Hx Ha]. rewrite app_cons. cbn.
    apply negb_true_iff in Hx. rewrite Hx, (IH Ha). reflexivity.
Qed.

Lemma break_on_parts p q s :
  all_chars q s = true ->
  all_chars q (fst (break_on p s)) = true /\
  all_chars q (snd (break_on p s)) = true.
Proof.
  intros H. destruct (break_on_spec p s) as (Hs & _).
  rewrite Hs, all_chars_app in H. apply andb_prop in H. exact H.
Qed.

Lemma split_scheme_rest q url :
  all_chars q url = true -> all_chars q (snd (split_scheme url)) = true.
Proof.
  intros H. unfold split_scheme.
  destruct (break_on_parts (Ascii.eqb ":") q url H) as [_ Hb].
  destruct (break_on (Ascii.eqb ":") url) as [[|c pre] [|x rest]]; cbn in *;
    try exact H.
  destruct (is_alpha c && (is_scheme_char c && all_chars is_scheme_char pre));
    cbn; [|exact H].
  apply andb_prop in Hb as [_ Hb]. exact Hb.
Qed.

Lemma split_opt_parts c q url :
  all_chars q url = true ->
  all_chars q (fst (split_opt c url)) = true /\
  all_chars q (snd (split_opt c url)) = true /\
  all_chars (fun d => negb (Ascii.eqb c d)) (fst (split_opt c url)) = true.
Proof.
  intros H. unfold split_opt, split1.
  destruct (break_on_parts (Ascii.eqb c) q url H) as [Ha Hb].
  destruct (break_on_spec (Ascii.eqb c) url) as (Hs & Hn & _).
  destruct (break_on (Ascii.eqb c) url) as [a [|x b]]; cbn in *.
  - assert (E : a +:+ "" = a).
    { clear. induction a as [|y a IH]; [reflexivity|].
      rewrite app_cons, IH. reflexivity. }
    rewrite E in Hs. subst url. auto.
  - apply andb_prop in Hb as [_ Hb]. auto.
Qed.

Lemma split_opt_none c url :
  all_chars (fun d => negb (Ascii.eqb c d)) url = true ->
  split_opt c url = (url, "").
Proof.
  intros H. unfold split_opt, split1.
  assert (E : break_on (Ascii.eqb c) url = (url, "")).
  { induction url as [|x url IH]; [reflexivity|]. cbn in *.
    apply andb_prop in H as [Hx H]. apply negb_true_iff in Hx.
    rewrite Hx, (IH H). reflexivity. }
  rewrite E. reflexivity.
Qed.

Lemma last_segment_spec s :
  s = fst (last_segment s) +:+ snd (last_segment s).
Proof.
  induction s as [|x s IH]; [reflexivity|]. cbn.
  destruct (has_char "/" s); [|reflexivity].
  destruct (last_segment s) as [a b]. cbn in *. rewrite IH at 1. reflexivity.
Qed.

Lemma splitparams_parts q url :
  all_chars q url = true ->
  all_chars q (fst (splitparams url)) = true /\
  all_chars q (snd (splitparams url)) = true.
Proof.
  intros H. unfold splitparams.
  pose proof (last_segment_spec url) as Hs.
  destruct (last_segment url) as [dir seg]. cbn in Hs.
  rewrite Hs, all_chars_app in H. apply andb_prop in H as [Hd Hg].
  unfold split1.
  destruct (break_on_parts (Ascii.eqb ";") q seg Hg) as [Ha Hb].
  destruct (break_on (Ascii.eqb ";") seg) as [a [|x b]]; cbn in *.
  - rewrite Hs, all_chars_app, Hd, Hg. auto.
  - apply andb_prop in Hb as [_ Hb]. rewrite all_chars_app, Hd, Ha. auto.
Qed.

Section Parsed.
Variable check : string -> option string.

(** What [urlsplit] returns is made of kept characters; the host has no
    delimiter and passed the checks; path and query have no ['#']. *)
Lemma urlsplit_parts url r :
  urlsplit check url = inr r ->
  all_chars hostly (netloc r) = true /\
  brackets_balanced (netloc r) = true /\ check (netloc r) = None /\
  all_chars clean (path r) = true /\ all_chars clean (query r) = true /\
  params r = "".
Proof.
  unfold urlsplit.
  set (url0 := filter_chars (fun c => negb (is_unsafe c))
                 (lstrip is_c0_or_space url)).
  assert (H0 : all_chars safe url0 = true) by apply filter_chars_all.
  pose proof (split_scheme_rest safe url0 H0) as H1.
  destruct (split_scheme url0) as [sch url1]. cbn in H1.
  assert (Hnl : all_chars hostly (fst (splitnetloc url1)) = true /\
                all_chars safe (snd (splitnetloc url1)) = true).
  { unfold splitnetloc.
    destruct url1 as [|c1 [|c2 rest]]; try (split; [reflexivity|exact H1]).
    destruct (Ascii.eqb c1 "/" && Ascii.eqb c2 "/");
      [|split; [reflexivity|exact H1]].
    cbn [all_chars] in H1.
    apply andb_prop in H1 as [_ H1]. apply andb_prop in H1 as [_ H1].
    destruct (break_on_parts is_netloc_delim safe rest H1) as [Ha Hb].
    destruct (break_on_spec is_netloc_delim rest) as (_ & Hn & _).
    split; [|exact Hb]. exact (all_chars_and safe _ _ Ha Hn). }
  destruct (splitnetloc url1) as [nl url2]. cbn [fst snd] in Hnl.
  destruct Hnl as [Hhost H2].
  destruct (brackets_balanced nl) eqn:Hbr; cbn; [|discriminate].
  destruct (check nl) eqn:Hck; [discriminate|].
  destruct (split_opt_parts "#" safe url2 H2) as (H3 & _ & Hnh).
  destruct (split_opt "#" url2) as [url3 frag]. cbn [fst snd] in *.
  pose proof (all_chars_and safe _ url3 H3 Hnh) as Hc3.
  destruct (split_opt_parts "?" clean url3 Hc3) as (Hp & Hq & _).
  destruct (split_opt "?" url3) as [pa q]. cbn [fst snd] in *.
  intros [= <-]. cbn [netloc path query params]. repeat split; assumption.
Qed.

Lemma urlparse_parts url p :
  urlparse check url = inr p ->
  all_chars hostly (netloc p) = true /\
  brackets_balanced (netloc p) = true /\ check (netloc p) = None /\
  all_chars clean (path p) = true /\ all_chars clean (params p) = true /\
  all_chars clean (query p) = true.
Proof.
  unfold urlparse. destruct (urlsplit check url) as [e|r] eqn:E; [discriminate|].
  destruct (urlsplit_parts _ _ E) as (Hn & Hb & Hc & Hp & Hq & Hpa).
  destruct (in_list (scheme r) uses_params && has_char ";" (path r)).
  - destruct (splitparams_parts clean (path r) Hp) as [Hu Hs].
    destruct (splitparams (path r)) as [u pa]. intros [= <-].
    cbn [fst snd netloc path query params] in *. repeat split; assumption.
  - intros [= <-]. rewrite Hpa. repeat split; assumption.
Qed.

Lemma urlsplit_rebuilt sch nl tail :
  sch = "http" \/ sch = "https" ->
  nl <> "" -> all_chars hostly nl = true ->
  brackets_balanced nl = true -> check nl = None ->
  all_chars clean tail = true -> starts_with is_netloc_delim tail ->
  exists r,
    urlsplit check (sch +:+ ":" +:+ "//" +:+ nl +:+ tail) = inr r /\
    scheme r = sch /\ netloc r = nl /\ fragment r = "".
Proof.
  intros Hsch Hne Hnl Hbr Hck Htail Hstart.
  assert (Hsafe : all_chars (fun c => negb (is_unsafe c)) (nl +:+ tail) = true).
  { rewrite all_chars_app.
    rewrite (all_chars_weaken hostly _ nl), (all_chars_weaken clean _ tail);
      auto; intros c [H _]%andb_prop; exact H. }
  assert (Hnd : all_chars (fun c => negb (is_netloc_delim c)) nl = true).
  { apply (all_chars_weaken hostly); [|exact Hnl].
    intros c [_ H]%andb_prop. exact H. }
  assert (Hnh : all_chars (fun d => negb (Ascii.eqb "#" d)) tail = true).
  { apply (all_chars_weaken clean); [|exact Htail].
    intros c [_ H]%andb_prop. exact H. }
  assert (Hhead : forall x,
            split_scheme
              (filter_chars (fun c => negb (is_unsafe c))
                 (lstrip is_c0_or_space (sch +:+ ":" +:+ "//" +:+ x)))
            = (sch, "//" +:+ filter_chars (fun c => negb (is_unsafe c)) x)).
  { intros x. destruct Hsch as [-> | ->]; reflexivity. }
  unfold urlsplit. rewrite Hhead, (filter_chars_id _ _ Hsafe).
  change (splitnetloc ("//" +:+ nl +:+ tail))
    with (break_on is_netloc_delim (nl +:+ tail)).
  rewrite (break_on_app _ _ _ Hnd Hstart), Hbr, Hck. cbn [negb].
  rewrite (split_opt_none _ _ Hnh).
  destruct (split_opt "?" tail) as [pa q].
  eexists. split; [reflexivity|]. cbn. auto.
Qed.

Lemma urlparse_rebuilt sch nl tail :
  sch = "http" \/ sch = "https" ->
  nl <> "" -> all_chars hostly nl = true ->
  brackets_balanced nl = true -> check nl = None ->
  all_chars clean tail = true -> starts_with is_netloc_delim tail ->
  exists r,
    urlparse check (sch +:+ ":" +:+ "//" +:+ nl +:+ tail) = inr r /\
    scheme r = sch /\ netloc r = nl /\ fragment r = "".
Proof.
  intros Hsch Hne Hnl Hbr Hck Htail Hstart.
  destruct (urlsplit_rebuilt sch nl tail Hsch Hne Hnl Hbr Hck Htail Hstart)
    as (r & Hr & Hs & Hn & Hf).
  unfold urlparse. rewrite Hr.
  destruct (in_list (scheme r) uses_params && has_char ";" (path r)).
  - destruct (splitparams (path r)) as [u pa]. eexists. split; [reflexivity|].
    cbn. auto.
  - exists r. auto.
Qed.

Lemma startswith_slash url :
  startswith "/" url = true -> starts_with is_netloc_delim url.
Proof.
  unfold startswith. intros H. destruct url as [|c url]; [discriminate|].
  cbn [String.prefix] in H.
  destruct (ascii_dec "/" c) as [<-|]; [reflexivity|discriminate].
Qed.

(** [urlunparse] of an http(s) URL with a host and no fragment: scheme,
    ["://"], host, and a rest that is empty or starts with a delimiter. *)
Lemma urlunparse_shape p :
  scheme p = "http" \/ scheme p = "https" ->
  netloc p <> "" -> fragment p = "" ->
  all_chars clean (path p) = true -> all_chars clean (params p) = true ->
  all_chars clean (query p) = true ->
  exists tail,
    urlunparse p = scheme p +:+ ":" +:+ "//" +:+ netloc p +:+ tail /\
    all_chars clean tail = true /\ starts_with is_netloc_delim tail.
Proof.
  destruct p as [sch nl pa pr q fr]. cbn [scheme netloc path params query fragment].
  intros Hsch Hne -> Hpa Hpr Hq.
  unfold urlunparse, urlunsplit.
  cbn [scheme netloc path params query fragment].
  apply String.eqb_neq in Hne. rewrite Hne. cbn [negb orb].
  assert (Hs : String.eqb sch "" = false) by (destruct Hsch as [-> | ->]; reflexivity).
  rewrite Hs. cbn [negb String.eqb].
  set (url0 := if negb (String.eqb pr "") then pa +:+ ";" +:+ pr else pa).
  assert (H0 : all_chars clean url0 = true).
  { subst url0. destruct (negb (String.eqb pr "")); [|exact Hpa].
    rewrite !all_chars_app, Hpa, Hpr. reflexivity. }
  set (url1 := if negb (String.eqb url0 "") && negb (startswith "/" url0)
               then "/" +:+ url0 else url0).
  assert (H1 : all_chars clean url1 = true /\ starts_with is_netloc_delim url1).
  { subst url1. destruct (String.eqb url0 "") eqn:E0; cbn [negb andb].
    - apply String.eqb_eq in E0. rewrite E0. split; reflexivity.
    - destruct (startswith "/" url0) eqn:E1; cbn [negb].
      + split; [exact H0|apply startswith_slash, E1].
      + split; [rewrite all_chars_app, H0; reflexivity|reflexivity]. }
  destruct H1 as [H1 Hst].
  destruct (String.eqb q "") eqn:Eq; cbn [negb].
  - exists url1. split; [reflexivity|auto].
  - exists (url1 +:+ "?" +:+ q). split; [|split].
    + rewrite !app_assoc_s. reflexivity.
    + rewrite !all_chars_app, H1, Hq. reflexivity.
    + destruct url1; [reflexivity|exact Hst].
Qed.

Lemma in_http_https sch :
  in_list sch ["http"; "https"] = true -> sch = "http" \/ sch = "https".
Proof.
  unfold in_list. cbn [existsb]. rewrite orb_false_r.
  intros [H|H]%orb_prop; apply String.eqb_eq in H; auto.
Qed.

(** The normalized link that [process_single_url] builds from a parsed
    http(s) link with a host parses again, to a URL with that scheme
    and host and with no fragment. *)
Lemma normalized_link_parses a p :
  urlparse check a = inr p ->
  netloc p <> "" -> in_list (scheme p) ["http"; "https"] = true ->
  exists r,
    urlparse check (urlunparse (replace_fragment "" p)) = inr r /\
    scheme r = scheme p /\ netloc r = netloc p /\ fragment r = "".
Proof.
  intros Hp Hne Hs%in_http_https.
  destruct (urlparse_parts _ _ Hp) as (Hn & Hb & Hc & Hpa & Hpr & Hq).
  destruct (urlunparse_shape (replace_fragment "" p))
    as (tail & -> & Ht & Hst); try assumption; [reflexivity|].
  cbn [replace_fragment scheme netloc].
  apply urlparse_rebuilt; assumption.
Qed.

Lemma normalized_link a p :
  urlparse check a = inr p ->
  netloc p <> "" -> in_list (scheme p) ["http"; "https"] = true ->
  normalized_absolute check (urlunparse (replace_fragment "" p))
    = true.
Proof.
  intros Hp Hne Hs.
  destruct (normalized_link_parses a p Hp Hne Hs) as (r & Hr & Hsr & Hnr & Hfr).
  unfold normalized_absolute. rewrite Hr, Hsr, Hnr, Hfr.
  apply String.eqb_neq in Hne. rewrite Hne.
  destruct (in_http_https _ Hs) as [-> | ->]; reflexivity.
Qed.
End Parsed.

End UrlFacts.

(** ** The Fetcher *)

Module FetcherFacts.
Import Fetcher Terms.

Section Loop.
Variable net : string -> gmap string string -> nat -> Attempt.
Variables (url user_agent : string) (retry_limit backoff_base_ms : Z).

Local Abbreviation hdrs := (request_headers user_agent).
Local Abbreviation loop := (fetch_loop net url user_agent retry_limit backoff_base_ms).

(** What the loop does from [attempt] on, with [n] rounds left: it
    ends at some attempt [k], every attempt before [k] failed without
    [break], it slept after each of them, and the value it returns
    is decided by attempt [k]. *)
Lemma fetch_loop_spec n attempt l sl :
  (n = 0%nat \/ Z.of_nat (attempt + n) = retry_limit + 1) ->
  (n = 0%nat /\ loop n attempt l sl = return_after_loop url l attempt sl) \/
  (exists k, attempts_made (loop n attempt l sl) = S k /\
     (attempt <= k < attempt + n)%nat /\
     sleeps (loop n attempt l sl) =
       sl ++ map (sleep_duration backoff_base_ms) (seq attempt (k - attempt)) /\
     (forall j, (attempt <= j < k)%nat ->
        exists e, try_get (net url hdrs j) = inl e /\ snd (handle e) = false) /\
     match try_get (net url hdrs k) with
     | inr t => returned (loop n attempt l sl) = t
     | inl e =>
         if snd (handle e)
         then returned (loop n attempt l sl) =
                returned (return_after_loop url (fst (handle e)) 0 [])
         else Z.of_nat k = retry_limit /\
              returned (loop n attempt l sl) =
                returned (return_exhausted url retry_limit (fst (handle e)) 0 [])
     end).
Proof.
  revert attempt l sl.
  induction n as [|n IH]; intros attempt l sl Hn.
  - left. split; reflexivity.
  - right. destruct Hn as [Hn|Hn]; [discriminate|].
    simpl. destruct (try_get (net url hdrs attempt)) as [e|t] eqn:Hget.
    + destruct (handle e) as [l' brk] eqn:Hh. destruct brk.
      * exists attempt. simpl. rewrite Nat.sub_diag, app_nil_r.
        split; [reflexivity|]. split; [lia|]. split; [reflexivity|].
        split; [intros j Hj; lia|].
        rewrite Hget, Hh. reflexivity.
      * destruct (Z.ltb_spec (Z.of_nat attempt) retry_limit) as [Hlt|Hge].
        -- destruct (IH (S attempt) l'
                       (sl ++ [sleep_duration backoff_base_ms attempt]))
             as [[Hz _]|(k & Hm & Hk & Hs & Hb & Hr)].
           { right. lia. }
           { lia. }
           exists k. split; [exact Hm|]. split; [lia|]. split.
           { rewrite Hs, <- app_assoc. f_equal.
             replace (k - attempt)%nat with (S (k - S attempt)) by lia.
             reflexivity. }
           split; [|exact Hr].
           intros j Hj. destruct (decide (j = attempt)) as [->|Hne].
           ++ exists e. rewrite Hh. auto.
           ++ apply Hb. lia.
        -- exists attempt. simpl. rewrite Nat.sub_diag, app_nil_r.
           split; [reflexivity|]. split; [lia|]. split; [reflexivity|].
           split; [intros j Hj; lia|].
           rewrite Hget, Hh. simpl. split; [lia|reflexivity].
    + exists attempt. simpl. rewrite Nat.sub_diag, app_nil_r.
      split; [reflexivity|]. split; [lia|]. split; [reflexivity|].
      split; [intros j Hj; lia|].
      rewrite Hget. reflexivity.
Qed.

Lemma fetch_run_spec :
  let r := fetch_run net url user_agent retry_limit backoff_base_ms in
  (retry_limit < 0 /\
   r = return_after_loop url (mkLocals 500 "Unknown fetch error") 0 []) \/
  (exists k, attempts_made r = S k /\
     (k < Z.to_nat (retry_limit + 1))%nat /\
     sleeps r = map (sleep_duration backoff_base_ms) (seq 0 k) /\
     (forall j, (j < k)%nat ->
        exists e, try_get (net url hdrs j) = inl e /\ snd (handle e) = false) /\
     match try_get (net url hdrs k) with
     | inr t => returned r = t
     | inl e =>
         if snd (handle e)
         then returned r =
                returned (return_after_loop url (fst (handle e)) 0 [])
         else Z.of_nat k = retry_limit /\
              returned r =
                returned (return_exhausted url retry_limit (fst (handle e)) 0 [])
     end).
Proof.
  intros r. subst r. unfold fetch_run.
  destruct (fetch_loop_spec (Z.to_nat (retry_limit + 1)) 0
              (mkLocals 500 "Unknown fetch error") [])
    as [[Hz Hr]|(k & Hm & Hk & Hs & Hb & Hr)].
  - destruct (Z.to_nat (retry_limit + 1)) eqn:E; [left; reflexivity|right; lia].
  - left. split; [lia|exact Hr].
  - right. exists k. split; [exact Hm|]. split; [lia|].
    rewrite Nat.sub_0_r in Hs. split; [exact Hs|]. split; [|exact Hr].
    intros j Hj. apply Hb. lia.
Qed.
End Loop.

Lemma failed_fetch_has_no_headers
    (net : string -> gmap string string -> nat -> Attempt)
    (url user_agent : string) (retry_limit backoff_base_ms : Z) :
  fetch_failed net url user_agent retry_limit backoff_base_ms = true ->
  snd (fetch_url_content net url user_agent retry_limit backoff_base_ms) = ∅.
Proof.
  unfold fetch_failed, fetch_url_content, failure.
  destruct (fetch_run_spec net url user_agent retry_limit backoff_base_ms)
    as [[Hneg Hr]|(k & Hm & Hk & Hs & Hb & Hr)].
  - rewrite Hr. reflexivity.
  - rewrite Hm.
    destruct (try_get (net url (request_headers user_agent) k)) as [e|t];
      [|discriminate].
    intros _. destruct (snd (handle e));
      [rewrite Hr|destruct Hr as [_ ->]]; reflexivity.
Qed.


Lemma retries_on_handle a e :
  try_get a = inl e -> retries_on a = negb (snd (handle e)).
Proof.
  intros H. unfold retries_on, failure. rewrite H.
  destruct e as [|st msg|cls|cls|cls]; simpl; try reflexivity.
  destruct (400 <=? st), (st <? 500), (st =? 408), (st =? 429); reflexivity.
Qed.

Lemma client_error_handle a :
  client_error_other_than [408; 429] a = true ->
  exists e, try_get a = inl e /\ snd (handle e) = true.
Proof.
  unfold client_error_other_than, failure.
  destruct (try_get a) as [e|t]; [|discriminate].
  destruct e as [|st msg|cls|cls|cls]; try discriminate.
  intros H. eexists. split; [reflexivity|]. simpl in *.
  destruct (400 <=? st), (st <? 500), (st =? 408), (st =? 429);
    simpl in *; congruence.
Qed.

Lemma sleep_duration_ms backoff_base_ms i :
  (sleep_duration backoff_base_ms i * 1000 ==
   inject_Z (backoff_base_ms * 2 ^ Z.of_nat i))%Q.
Proof.
  unfold sleep_duration. rewrite inject_Z_mult. field.
Qed.



End FetcherFacts.

(** ** The crawler *)

Module CrawlerFacts.
Import PyStr UrlLib Fetcher Crawler Terms Invariants.

(* [set_solver] clears hypotheses it has already used up. *)
#[local] Set Warnings "-clear-no-such-hyp".

(** Splits a hypothesis [step ... c s = Some s'] into one goal per
    path through the coordinator round or the task slice. *)
Ltac split_step H :=
  unfold step in H;
  match type of H with
  | context [raised ?s] => destruct (raised s) eqn:?; [discriminate|]
  end;
  match type of H with
  | context [match ?c with Dequeue => _ | _ => _ end] => destruct c
  end;
  unfold step_dequeue, step_decide, process_single_url,
    step_fetch, step_parse, step_link in H;
  repeat match type of H with
  | context [match ?x with _ => _ end] => destruct x eqn:?
  end;
  try discriminate;
  injection H as <-.

(** *** Lists of tasks *)

Lemma insert_Permutation {A} (l : list A) i x y :
  l !! i = Some x -> <[i:=y]> l ≡ₚ y :: delete i l.
Proof.
  intros H. rewrite insert_take_drop by (eapply lookup_lt_Some; eauto).
  rewrite delete_take_drop. solve_Permutation.
Qed.

Lemma tasks_split (ts : list Task) i t :
  ts !! i = Some t ->
  ts ≡ₚ t :: delete i ts /\
  (forall t', <[i:=t']> ts ≡ₚ t' :: delete i ts).
Proof.
  intros H. split; [apply delete_Permutation, H|].
  intros t'. eapply insert_Permutation, H.
Qed.

Lemma task_urls_delete (ts : list Task) i u :
  u ∈ task_url <$> delete i ts -> u ∈ task_url <$> ts.
Proof.
  intros (t & -> & Ht)%list_elem_of_fmap. apply list_elem_of_fmap_2.
  eapply list_elem_of_delete_inv, Ht.
Qed.

Lemma task_urls_insert (ts : list Task) i t t' :
  ts !! i = Some t -> task_url t' = task_url t ->
  task_url <$> <[i:=t']> ts = task_url <$> ts.
Proof.
  intros H Hu. rewrite list_fmap_insert. apply list_insert_id.
  rewrite list_lookup_fmap, H, Hu. reflexivity.
Qed.

Lemma task_urls_finished (ts : list Task) i t :
  NoDup (task_url <$> ts) -> ts !! i = Some t ->
  task_url t ∉ task_url <$> delete i ts.
Proof.
  intros Hn H. rewrite (delete_Permutation _ _ _ H) in Hn. cbn in Hn.
  apply NoDup_cons in Hn as [Hn _]. exact Hn.
Qed.

Lemma elem_of_insert_inv {A} (l : list A) i x y :
  y ∈ <[i:=x]> l -> y = x \/ y ∈ l.
Proof.
  intros [j Hj]%list_elem_of_lookup_1.
  apply list_lookup_insert_Some in Hj as [(_ & -> & _)|(_ & Hj)].
  - left. reflexivity.
  - right. eapply list_elem_of_lookup_2, Hj.
Qed.

Section Preservation.
Variable w : World.
Variable cfg : Config.
Variable base_netloc : string.
Variable robots_parser : option string.

Local Abbreviation step := (step w cfg base_netloc robots_parser).
Local Abbreviation invariant := (invariant w cfg base_netloc robots_parser).
Local Abbreviation policy_inv := (policy_ok w cfg robots_parser).
Local Abbreviation errors_inv := (errors_ok w cfg robots_parser).
Local Abbreviation origin := (error_origin w cfg robots_parser).
Local Abbreviation shape_inv := (shape_ok w cfg base_netloc).

(** *** The frontier *)

Lemma frontier_frame s s' :
  enqueued s' = enqueued s -> dispatched s' = dispatched s ->
  skipped s' = skipped s -> holding s' = holding s ->
  queue s' = queue s -> crawled_urls s' = crawled_urls s ->
  frontier_ok s -> frontier_ok s'.
Proof.
  intros He Hd Hk Hh Hq Hc [Hp Hn Hv Hi].
  split; unfold held in *; rewrite ?He, ?Hd, ?Hk, ?Hh, ?Hq, ?Hc; assumption.
Qed.

Lemma frontier_step c s s' :
  frontier_ok s -> step c s = Some s' -> frontier_ok s'.
Proof.
  intros Hf Hstep. split_step Hstep.
  all: try (apply (frontier_frame s); [reflexivity..|assumption]).
  - (* the coordinator takes an item *)
    destruct Hf as [Hp Hn Hv Hi]. unfold held in *.
    rewrite Heqo0, Heql in *.
    split; cbn; assumption.
  - (* skipped by robots.txt *)
    destruct Hf as [Hp Hn Hv Hi]. unfold held in *. rewrite Heqo0 in *.
    split; cbn in *; try assumption.
    + rewrite Hp. solve_Permutation.
    + intros item Hitem. apply Hi. set_solver.
  - (* skipped by extension *)
    destruct Hf as [Hp Hn Hv Hi]. unfold held in *. rewrite Heqo0 in *.
    split; cbn in *; try assumption.
    + rewrite Hp. solve_Permutation.
    + intros item Hitem. apply Hi. set_solver.
  - (* dispatched *)
    destruct Hf as [Hp Hn Hv Hi]. unfold held in *. rewrite Heqo0 in *.
    split; cbn in *; try assumption.
    + rewrite Hp. solve_Permutation.
    + intros item Hitem. apply Hi. set_solver.
  - (* a new link is put on the queue *)
    destruct Hf as [Hp Hn Hv Hi]. unfold held in *.
    split; cbn in *.
    + rewrite !fmap_app, Hp. cbn. solve_Permutation.
    + rewrite fmap_app. cbn. apply NoDup_app. split; [assumption|].
      split; [|apply NoDup_singleton].
      intros u Hu ->%list_elem_of_singleton. apply n, Hv, Hu.
    + intros u. rewrite fmap_app, elem_of_union, elem_of_app, Hv. cbn.
      rewrite elem_of_singleton, list_elem_of_singleton. tauto.
    + intros item Hitem. rewrite elem_of_app.
      rewrite app_assoc, elem_of_app in Hitem.
      destruct Hitem as [H|H]; [left; apply Hi, H|right; exact H].
Qed.

(** *** The tasks *)

Lemma tasks_frame s s' :
  active_processing_tasks s' = active_processing_tasks s ->
  dispatched s' = dispatched s ->
  (forall item, item ∈ enqueued s -> item ∈ enqueued s') ->
  page_fetches s' = page_fetches s ->
  html_contents (result s') = html_contents (result s) ->
  tasks_ok s -> tasks_ok s'.
Proof.
  intros Ha Hd He Hf Hh [Hn Hdi Hfn Hfe Hht].
  split; unfold task_urls in *; rewrite ?Ha, ?Hd, ?Hf, ?Hh; try assumption.
  intros t Ht. destruct (Hdi t Ht). auto.
Qed.

(** The running task [t] leaves, or goes on as [t'], which is past
    its fetch. *)
Lemma tasks_replace s s' t rest after :
  tasks_ok s ->
  active_processing_tasks s ≡ₚ t :: rest ->
  active_processing_tasks s' ≡ₚ after ++ rest ->
  (forall t', t' ∈ after ->
     after = [t'] /\ task_url t' = task_url t /\
     task_depth t' = task_depth t /\ forall u d, t' <> Fetching u d) ->
  dispatched s' = dispatched s ->
  (forall item, item ∈ enqueued s -> item ∈ enqueued s') ->
  page_fetches s' = page_fetches s ->
  html_contents (result s') = html_contents (result s) ->
  tasks_ok s'.
Proof.
  intros [Hn Hdi Hfn Hfe Hht] Hs Hs' Hafter Hd He Hf Hh.
  unfold task_urls in *.
  assert (Hin : forall x, x ∈ active_processing_tasks s' ->
            (x ∈ after) \/ x ∈ rest).
  { intros x Hx. rewrite Hs' in Hx. set_solver. }
  assert (Hrest : forall x, x ∈ rest -> x ∈ active_processing_tasks s).
  { intros x Hx. rewrite Hs. set_solver. }
  assert (Ht : t ∈ active_processing_tasks s).
  { rewrite Hs. set_solver. }
  split; unfold task_urls; rewrite ?Hd, ?Hf, ?Hh; try assumption.
  - rewrite Hs', fmap_app. rewrite Hs in Hn. cbn in Hn.
    apply NoDup_cons in Hn as [Hnt Hnr].
    apply NoDup_app. split; [|split; [|exact Hnr]].
    + destruct after as [|t' after']; [constructor|].
      destruct (Hafter t' ltac:(set_solver)) as ([= ->] & _).
      apply NoDup_singleton.
    + intros u Hu Hu'. apply list_elem_of_fmap in Hu as (t' & -> & Ht').
      destruct (Hafter t' Ht') as (_ & Hurl & _). rewrite Hurl in Hu'.
      contradiction.
  - intros x Hx. destruct (Hin x Hx) as [Hx'|Hx'].
    + destruct (Hafter x Hx') as (_ & -> & -> & _).
      destruct (Hdi t Ht). auto.
    + destruct (Hdi x (Hrest x Hx')). auto.
  - intros u Hu. destruct (Hfe u Hu) as [Hud Hnf]. split; [exact Hud|].
    intros d Hx. destruct (Hin _ Hx) as [Hx'|Hx'].
    + destruct (Hafter _ Hx') as (_ & _ & _ & Hnot). eapply Hnot; eauto.
    + apply (Hnf d), Hrest, Hx'.
Qed.

(** The task fetches [u]: it was a [Fetching u d], [u] is logged,
    and the page is stored only if the task goes on. *)
Lemma tasks_fetch s s' u d rest after :
  tasks_ok s ->
  active_processing_tasks s ≡ₚ Fetching u d :: rest ->
  active_processing_tasks s' ≡ₚ after ++ rest ->
  (forall t', t' ∈ after ->
     after = [t'] /\ task_url t' = u /\
     task_depth t' = d /\ forall u d, t' <> Fetching u d) ->
  dispatched s' = dispatched s ->
  enqueued s' = enqueued s ->
  page_fetches s' = page_fetches s ++ [u] ->
  (forall v, v ∈ dom (html_contents (result s')) ->
     v = u \/ v ∈ dom (html_contents (result s))) ->
  tasks_ok s'.
Proof.
  intros [Hn Hdi Hfn Hfe Hht] Hs Hs' Hafter Hd He Hf Hh.
  unfold task_urls in *.
  assert (Hin : forall x, x ∈ active_processing_tasks s' ->
            (x ∈ after) \/ x ∈ rest).
  { intros x Hx. rewrite Hs' in Hx. set_solver. }
  assert (Hrest : forall x, x ∈ rest -> x ∈ active_processing_tasks s).
  { intros x Hx. rewrite Hs. set_solver. }
  assert (Ht : Fetching u d ∈ active_processing_tasks s).
  { rewrite Hs. set_solver. }
  rewrite Hs in Hn. cbn in Hn. apply NoDup_cons in Hn as [Hnt Hnr].
  split; unfold task_urls; rewrite ?Hd, ?He, ?Hf; try assumption.
  - rewrite Hs', fmap_app.
    apply NoDup_app. split; [|split; [|exact Hnr]].
    + destruct after as [|t' after']; [constructor|].
      destruct (Hafter t' ltac:(set_solver)) as ([= ->] & _).
      apply NoDup_singleton.
    + intros v Hv Hv'. apply list_elem_of_fmap in Hv as (t' & -> & Ht').
      destruct (Hafter t' Ht') as (_ & Hurl & _). rewrite Hurl in Hv'.
      contradiction.
  - intros x Hx. destruct (Hin x Hx) as [Hx'|Hx'].
    + destruct (Hafter x Hx') as (_ & -> & -> & _).
      destruct (Hdi _ Ht). auto.
    + destruct (Hdi x (Hrest x Hx')). auto.
  - apply NoDup_app. split; [exact Hfn|]. split; [|apply NoDup_singleton].
    intros v Hv ->%list_elem_of_singleton.
    destruct (Hfe _ Hv) as [_ Hnf]. apply (Hnf d), Ht.
  - intros v Hv. apply elem_of_app in Hv as [Hv| ->%list_elem_of_singleton].
    + destruct (Hfe v Hv) as [Hvd Hnf]. split; [exact Hvd|].
      intros d' Hx. destruct (Hin _ Hx) as [Hx'|Hx'].
      * destruct (Hafter _ Hx') as (_ & _ & _ & Hnot). eapply Hnot; eauto.
      * apply (Hnf d'), Hrest, Hx'.
    + split; [apply (Hdi _ Ht)|].
      intros d' Hx. destruct (Hin _ Hx) as [Hx'|Hx'].
      * destruct (Hafter _ Hx') as (_ & _ & _ & Hnot). eapply Hnot; eauto.
      * apply Hnt. apply list_elem_of_fmap. exists (Fetching u d'). auto.
  - intros v Hv. rewrite elem_of_app, list_elem_of_singleton.
    destruct (Hh v Hv) as [->|Hv']; [right; reflexivity|left; auto].
Qed.

Lemma held_not_dispatched s u d :
  frontier_ok s -> holding s = Some (u, d) ->
  (u ∉ dispatched s) /\ (u ∉ skipped s) /\ (u, d) ∈ enqueued s.
Proof.
  intros [Hp Hn Hv Hi] Hh. unfold held in *. rewrite Hh in *.
  rewrite Hp in Hn. cbn in Hn.
  apply NoDup_app in Hn as (_ & Hd & Hn).
  apply NoDup_app in Hn as (_ & Hk & _).
  split; [|split].
  - intros Hu. apply (Hd u Hu). set_solver.
  - intros Hu. apply (Hk u Hu). set_solver.
  - apply Hi. set_solver.
Qed.

Lemma tasks_dispatch s s' u d :
  frontier_ok s -> tasks_ok s -> holding s = Some (u, d) ->
  active_processing_tasks s' = active_processing_tasks s ++ [Fetching u d] ->
  dispatched s' = dispatched s ++ [u] ->
  enqueued s' = enqueued s ->
  page_fetches s' = page_fetches s ->
  html_contents (result s') = html_contents (result s) ->
  tasks_ok s'.
Proof.
  intros Hfr [Hn Hdi Hfn Hfe Hht] Hh Ha Hd He Hf Hhtml.
  destruct (held_not_dispatched s u d Hfr Hh) as (Hnd & _ & Henq).
  split; unfold task_urls in *; rewrite ?Ha, ?Hd, ?He, ?Hf, ?Hhtml;
    try assumption.
  - rewrite fmap_app. apply NoDup_app. split; [exact Hn|].
    split; [|apply NoDup_singleton].
    intros v Hv ->%list_elem_of_singleton. apply Hnd.
    apply list_elem_of_fmap in Hv as (t & Heq & Ht). cbn in Heq.
    rewrite Heq. apply (Hdi t Ht).
  - intros t [Ht| ->%list_elem_of_singleton]%elem_of_app.
    + destruct (Hdi t Ht). split; [set_solver|assumption].
    + cbn. split; [set_solver|assumption].
  - intros v Hv. destruct (Hfe v Hv) as [Hvd Hnf]. split; [set_solver|].
    intros d' [Hx|Hx%list_elem_of_singleton]%elem_of_app.
    + apply (Hnf d' Hx).
    + injection Hx as -> ->. contradiction.
Qed.

Ltac task_at :=
  match goal with
  | H : active_processing_tasks ?s !! ?i = Some ?t |- _ =>
      destruct (tasks_split _ _ _ H) as [?Hsplit ?Hins]
  end.

Ltac after_side :=
  first
    [ intros ? ?Hin; apply elem_of_nil in Hin; contradiction
    | intros ? ->%list_elem_of_singleton;
      repeat split; intros; discriminate ].

Lemma tasks_step c s s' :
  frontier_ok s -> tasks_ok s -> step c s = Some s' -> tasks_ok s'.
Proof.
  intros Hfr Ht Hstep. split_step Hstep.
  all: try (apply (tasks_frame s); [reflexivity|reflexivity|auto|
                                    reflexivity|reflexivity|assumption]).
  all: try (eapply (tasks_dispatch s); [eassumption|eassumption|eassumption|
                                        reflexivity..]).
  all: task_at.
  all: try (eapply (tasks_replace s _ _ _ []);
            [exact Ht|eassumption|cbn; reflexivity|after_side|
             reflexivity|auto|reflexivity|reflexivity]).
  all: try (eapply (tasks_replace s _ _ _ [_]);
            [exact Ht|eassumption|cbn; apply Hins|after_side|
             reflexivity|cbn; try set_solver; auto|reflexivity|reflexivity]).
  all: try (eapply (tasks_fetch s _ _ _ _ []);
            [exact Ht|eassumption|cbn; reflexivity|after_side|
             reflexivity|reflexivity|
             unfold page_fetches; cbn; rewrite omap_app; reflexivity|
             cbn; auto]).
  eapply (tasks_fetch s _ _ _ _ [_]);
    [exact Ht|eassumption|cbn; apply Hins|after_side|
     reflexivity|reflexivity|
     unfold page_fetches; cbn; rewrite omap_app; reflexivity|].
  cbn. intros v. rewrite dom_insert_L. set_solver.
Qed.

(** *** The checks *)

Lemma policy_step c s s' :
  policy_inv s -> step c s = Some s' -> policy_inv s'.
Proof.
  intros [Ha He] Hstep. split_step Hstep.
  all: try (split; assumption).
  split; cbn; intros u [Hu| ->%list_elem_of_singleton]%elem_of_app; eauto.
Qed.

(** *** The entries of [errors] *)

Lemma origin_mono s s' u msg :
  origin s u msg ->
  (forall v, v ∈ skipped s -> v ∈ skipped s') ->
  (forall v, v ∈ dispatched s -> v ∈ dispatched s') ->
  (forall v, v ∈ dispatched s -> v ∈ task_urls s' -> v ∈ task_urls s) ->
  (forall v, v ∈ dom (html_contents (result s')) -> v ∉ task_urls s ->
             v ∈ dom (html_contents (result s))) ->
  origin s' u msg.
Proof.
  intros [H|[(Hb & Hk & Hp)|(Hd & Ht & Hh)]] Hsk Hdi Hts Hht.
  - left. exact H.
  - right. left. auto.
  - right. right. split; [auto|]. split; [intros Hu; apply Ht; auto|].
    intros Hu. apply Hh, Hht; assumption.
Qed.

Lemma errors_keep s s' :
  errors_inv s ->
  errors (result s') = errors (result s) ->
  (forall v, v ∈ skipped s -> v ∈ skipped s') ->
  (forall v, v ∈ dispatched s -> v ∈ dispatched s') ->
  (forall v, v ∈ dispatched s -> v ∈ task_urls s' -> v ∈ task_urls s) ->
  (forall v, v ∈ dom (html_contents (result s')) -> v ∉ task_urls s ->
             v ∈ dom (html_contents (result s))) ->
  errors_inv s'.
Proof.
  intros He Heq Hsk Hdi Hts Hht u msg Hu. rewrite Heq in Hu.
  eapply origin_mono; eauto.
Qed.

Lemma errors_record s s' v m :
  errors_inv s ->
  errors (result s') = <[v:=m]> (errors (result s)) ->
  origin s' v m ->
  (forall v, v ∈ skipped s -> v ∈ skipped s') ->
  (forall v, v ∈ dispatched s -> v ∈ dispatched s') ->
  (forall v, v ∈ dispatched s -> v ∈ task_urls s' -> v ∈ task_urls s) ->
  (forall v, v ∈ dom (html_contents (result s')) -> v ∉ task_urls s ->
             v ∈ dom (html_contents (result s))) ->
  errors_inv s'.
Proof.
  intros He Heq Hnew Hsk Hdi Hts Hht u msg Hu. rewrite Heq in Hu.
  destruct (decide (v = u)) as [->|Hne].
  - rewrite lookup_insert_eq in Hu. injection Hu as <-. exact Hnew.
  - rewrite lookup_insert_ne in Hu by exact Hne.
    eapply origin_mono; eauto.
Qed.

Lemma running_task s i t :
  tasks_ok s -> active_processing_tasks s !! i = Some t ->
  task_url t ∈ dispatched s /\
  task_url t ∈ task_urls s /\
  task_url t ∉ task_url <$> delete i (active_processing_tasks s).
Proof.
  intros [Hn Hdi _ _ _] H.
  assert (Ht : t ∈ active_processing_tasks s)
    by (eapply list_elem_of_lookup_2, H).
  split; [apply (Hdi t Ht)|]. split.
  - apply list_elem_of_fmap_2, Ht.
  - apply task_urls_finished; assumption.
Qed.

Lemma fetching_not_stored s i u d :
  tasks_ok s -> active_processing_tasks s !! i = Some (Fetching u d) ->
  u ∉ dom (html_contents (result s)).
Proof.
  intros [_ _ _ Hfe Hht] H Hu.
  destruct (Hfe u (Hht u Hu)) as [_ Hnf].
  apply (Hnf d). eapply list_elem_of_lookup_2, H.
Qed.

Ltac tasks_cond :=
  unfold task_urls; cbn;
  let v := fresh "v" in let Hd := fresh "Hd" in let Hv := fresh "Hv" in
  intros v Hd Hv;
  first
    [ exact Hv
    | eapply task_urls_delete; exact Hv
    | match goal with
      | H : active_processing_tasks _ !! _ = Some _ |- _ =>
          rewrite (task_urls_insert _ _ _ _ H) in Hv by reflexivity
      end; exact Hv ].

Ltac keep_errors s :=
  apply (errors_keep s);
  [assumption|reflexivity|solve [cbn; auto]|solve [cbn; auto]|
   solve [tasks_cond]|solve [cbn; auto]].

Ltac record_error s :=
  eapply (errors_record s);
  [eassumption|reflexivity| |solve [cbn; intros; set_solver]|
   solve [cbn; auto]|solve [tasks_cond]|solve [cbn; auto]].

Lemma errors_step c s s' :
  frontier_ok s -> tasks_ok s -> policy_inv s -> errors_inv s ->
  step c s = Some s' -> errors_inv s'.
Proof.
  intros Hfr Htk Hpo He Hstep. split_step Hstep.
  all: try (keep_errors s).
  - (* skipped by robots.txt *)
    record_error s. left. split; [assumption|left; reflexivity].
  - (* skipped by extension *)
    record_error s. right. left. split; [assumption|].
    split; [cbn; set_solver|]. eauto.
  - (* dispatched: the new task is not one of a dispatched URL *)
    apply (errors_keep s);
      [assumption|reflexivity|cbn; auto|cbn; intros; set_solver| |cbn; auto].
    destruct (held_not_dispatched s _ _ Hfr Heqo0) as (Hnd & _).
    unfold task_urls. cbn. intros v Hd. rewrite fmap_app, elem_of_app.
    intros [Hv|Hv%list_elem_of_singleton]; [exact Hv|].
    cbn in Hv. subst v. contradiction.
  - (* the fetch gave no HTML *)
    destruct (running_task s _ _ Htk Heqo0) as (Hd & _ & Hfin).
    record_error s. right. right. split; [exact Hd|]. split; [exact Hfin|].
    cbn. intros Hu. destruct (fetching_not_stored s _ _ _ Htk Heqo0 Hu).
  - (* the page is stored *)
    destruct (running_task s _ _ Htk Heqo0) as (Hd & Hin & _).
    apply (errors_keep s);
      [assumption|reflexivity|cbn; auto|cbn; auto|tasks_cond|].
    cbn. intros v. rewrite dom_insert_L, elem_of_union, elem_of_singleton.
    intros [->|Hv] Hnot; [contradiction|exact Hv].
  - (* the fetch gave an HTTP error status *)
    destruct (running_task s _ _ Htk Heqo0) as (Hd & _ & Hfin).
    record_error s. right. right. split; [exact Hd|]. split; [exact Hfin|].
    cbn. intros Hu. destruct (fetching_not_stored s _ _ _ Htk Heqo0 Hu).
  - (* the soup raised *)
    destruct (running_task s _ _ Htk Heqo0) as (Hd & _ & Hfin).
    unfold processing_error. record_error s.
    right. right. split; [exact Hd|]. split; [exact Hfin|].
    intros _. eexists. reflexivity.
  - (* a link raised *)
    destruct (running_task s _ _ Htk Heqo0) as (Hd & _ & Hfin).
    unfold processing_error. record_error s.
    right. right. split; [exact Hd|]. split; [exact Hfin|].
    intros _. eexists. reflexivity.
  - (* a link is disallowed *)
    record_error s. left. split; [assumption|right; reflexivity].
Qed.

(** *** Shapes and depths *)

Lemma examine_link_candidate u href l :
  examine_link w base_netloc u href = LCandidate l ->
  link_shaped w base_netloc l.
Proof.
  unfold examine_link. intros H.
  repeat match type of H with
  | context [match ?x with _ => _ end] => destruct x eqn:?
  end; try discriminate.
  injection H as <-.
  apply andb_prop in Heqb1 as [Hn Hs]. apply String.eqb_eq in Hn.
  eexists _, _. split; [eassumption|]. auto.
Qed.

Lemma shape_update s s' extra :
  shape_inv s ->
  enqueued s' = enqueued s ++ extra ->
  (forall u d, (u, d) ∈ extra ->
     link_shaped w base_netloc u /\ 0 < d <= max_depth cfg) ->
  (forall u, u ∈ dom (errors (result s')) ->
     u ∈ dom (errors (result s)) \/ u ∈ (enqueued s).*1 \/
     (link_shaped w base_netloc u /\ 0 < max_depth cfg)) ->
  (forall u d hrefs, Expanding u d hrefs ∈ active_processing_tasks s' ->
     (exists hrefs', Expanding u d hrefs' ∈ active_processing_tasks s) \/
     d < max_depth cfg) ->
  shape_inv s'.
Proof.
  intros [[rest Hr] Hq He Hx] Henq Hextra Herr Hexp.
  split.
  - rewrite Henq, Hr. eexists. reflexivity.
  - intros u d. rewrite Henq, elem_of_app. intros [H|H]; auto.
  - intros u Hu. rewrite Henq, fmap_app, elem_of_app.
    destruct (Herr u Hu) as [H|[H|H]]; auto.
    destruct (He u H) as [H'|H']; auto.
  - intros u d hrefs H. destruct (Hexp u d hrefs H) as [[hrefs' H']|H'].
    + eapply Hx, H'.
    + exact H'.
Qed.

Lemma task_depth_bounds s t :
  tasks_ok s -> shape_inv s -> t ∈ active_processing_tasks s ->
  0 <= task_depth t /\ task_url t ∈ (enqueued s).*1.
Proof.
  intros [_ Hdi _ _ _] [_ Hq _ _] Ht. destruct (Hdi t Ht) as [_ Hin].
  split.
  - destruct (Hq _ _ Hin) as [[_ ->]|[_ ?]]; lia.
  - apply list_elem_of_fmap. exists (task_url t, task_depth t). auto.
Qed.

Ltac expanding_cond :=
  cbn;
  let u := fresh "u" in let d := fresh "d" in
  let hs := fresh "hs" in let H := fresh "H" in
  intros u d hs H;
  first
    [ left; eexists; exact H
    | left; eexists; eapply list_elem_of_delete_inv; exact H
    | apply elem_of_insert_inv in H as [H|H];
      [injection H as -> -> ->|]; left; eexists;
      first [exact H | eapply list_elem_of_lookup_2; eassumption]
    | apply elem_of_insert_inv in H as [H|H];
      [discriminate|]; left; eexists; exact H ].

Ltac errors_cond :=
  cbn; intros ?u; rewrite ?dom_insert_L; try set_solver.

Lemma shape_step c s s' :
  frontier_ok s -> tasks_ok s -> shape_inv s ->
  step c s = Some s' -> shape_inv s'.
Proof.
  intros Hfr Htk Hsh Hstep. split_step Hstep.
  all: try (apply (shape_update s _ []);
            [assumption|cbn; rewrite ?app_nil_r; reflexivity|
             solve [intros ? ? []%elem_of_nil]|solve [errors_cond; auto]|
             solve [expanding_cond]]).
  - (* skipped by robots.txt *)
    destruct (held_not_dispatched s _ _ Hfr Heqo0) as (_ & _ & Hin).
    apply (list_elem_of_fmap_2 fst) in Hin.
    apply (shape_update s _ []);
      [assumption|cbn; rewrite ?app_nil_r; reflexivity|
       intros ? ? []%elem_of_nil|errors_cond|expanding_cond].
  - (* skipped by extension *)
    destruct (held_not_dispatched s _ _ Hfr Heqo0) as (_ & _ & Hin).
    apply (list_elem_of_fmap_2 fst) in Hin.
    apply (shape_update s _ []);
      [assumption|cbn; rewrite ?app_nil_r; reflexivity|
       intros ? ? []%elem_of_nil|errors_cond|expanding_cond].
  - (* dispatched *)
    apply (shape_update s _ []);
      [assumption|cbn; rewrite ?app_nil_r; reflexivity|
       intros ? ? []%elem_of_nil|errors_cond; auto|].
    cbn. intros u d hs [H|H%list_elem_of_singleton]%elem_of_app;
      [left; eauto|discriminate].
  - (* the fetch gave no HTML *)
    destruct (task_depth_bounds s _ Htk Hsh
                (list_elem_of_lookup_2 _ _ _ Heqo0)) as [_ Hin].
    apply (shape_update s _ []);
      [assumption|cbn; rewrite ?app_nil_r; reflexivity|
       intros ? ? []%elem_of_nil|errors_cond|expanding_cond].
  - (* the fetch gave an HTTP error status *)
    destruct (task_depth_bounds s _ Htk Hsh
                (list_elem_of_lookup_2 _ _ _ Heqo0)) as [_ Hin].
    apply (shape_update s _ []);
      [assumption|cbn; rewrite ?app_nil_r; reflexivity|
       intros ? ? []%elem_of_nil|errors_cond|expanding_cond].
  - (* the soup raised *)
    destruct (task_depth_bounds s _ Htk Hsh
                (list_elem_of_lookup_2 _ _ _ Heqo0)) as [_ Hin].
    apply (shape_update s _ []);
      [assumption|cbn; rewrite ?app_nil_r; reflexivity|
       intros ? ? []%elem_of_nil|errors_cond|expanding_cond].
  - (* the links of the page are listed *)
    apply (shape_update s _ []);
      [assumption|cbn; rewrite ?app_nil_r; reflexivity|
       intros ? ? []%elem_of_nil|errors_cond; auto|].
    cbn. intros u d hs [H|H]%elem_of_insert_inv.
    + injection H as -> -> ->. right. lia.
    + left. eauto.
  - (* a link raised *)
    destruct (task_depth_bounds s _ Htk Hsh
                (list_elem_of_lookup_2 _ _ _ Heqo0)) as [_ Hin].
    apply (shape_update s _ []);
      [assumption|cbn; rewrite ?app_nil_r; reflexivity|
       intros ? ? []%elem_of_nil|errors_cond|expanding_cond].
  - (* a link is disallowed *)
    pose proof (list_elem_of_lookup_2 _ _ _ Heqo0) as Ht.
    destruct (task_depth_bounds s _ Htk Hsh Ht) as [Hd0 _].
    pose proof (sh_expanding _ _ _ _ Hsh _ _ _ Ht) as Hlt.
    match goal with H : examine_link _ _ _ _ = LCandidate _ |- _ =>
      pose proof (examine_link_candidate _ _ _ H) as Hlink end.
    cbn in Hd0.
    apply (shape_update s _ []);
      [assumption|cbn; rewrite ?app_nil_r; reflexivity|
       intros ? ? []%elem_of_nil| |expanding_cond].
    cbn. intros u. rewrite dom_insert_L, elem_of_union, elem_of_singleton.
    intros [->|H]; [right; right; split; [assumption|lia]|auto].
  - (* a new link is put on the queue *)
    pose proof (list_elem_of_lookup_2 _ _ _ Heqo0) as Ht.
    destruct (task_depth_bounds s _ Htk Hsh Ht) as [Hd0 _].
    pose proof (sh_expanding _ _ _ _ Hsh _ _ _ Ht) as Hlt.
    match goal with H : examine_link _ _ _ _ = LCandidate _ |- _ =>
      pose proof (examine_link_candidate _ _ _ H) as Hlink end.
    cbn in Hd0.
    apply (shape_update s _ [(normalized_link, depth + 1)]);
      [assumption|reflexivity| |errors_cond; auto|expanding_cond].
    intros u d [= -> ->]%list_elem_of_singleton. split; [assumption|lia].
Qed.

(** *** The invariant *)

Lemma invariant_step c s s' :
  invariant s -> step c s = Some s' -> invariant s'.
Proof.
  intros [Hfr Htk Hpo He Hsh] Hstep. split.
  - eapply frontier_step; eauto.
  - eapply tasks_step; eauto.
  - eapply policy_step; eauto.
  - eapply errors_step; eauto.
  - eapply shape_step; eauto.
Qed.

Lemma invariant_run sched s s' :
  invariant s -> run w cfg base_netloc robots_parser sched s = Some s' ->
  invariant s'.
Proof.
  revert s. induction sched as [|c sched IH]; intros s Hinv Hrun.
  - injection Hrun as <-. exact Hinv.
  - cbn in Hrun.
    destruct (step c s) as [s1|] eqn:Hstep; [|discriminate].
    eapply IH; [|exact Hrun]. eapply invariant_step; eauto.
Qed.

(** *** From the start of [crawl] *)

Lemma load_robots_frame p s :
  let s1 := snd (load_robots w cfg p s) in
  queue s1 = queue s /\ crawled_urls s1 = crawled_urls s /\
  result s1 = result s /\ holding s1 = holding s /\
  active_processing_tasks s1 = active_processing_tasks s /\
  raised s1 = raised s /\ enqueued s1 = enqueued s /\
  dispatched s1 = dispatched s /\ skipped s1 = skipped s /\
  page_fetches s1 = page_fetches s.
Proof.
  unfold load_robots.
  destruct (respect_robots_txt cfg); [|cbn; repeat split].
  destruct (fetch_url_content _ _ _ _ _) as [[st body] hd].
  destruct ((st =? 200) && negb (String.eqb body ""));
    cbn; repeat split; unfold page_fetches; cbn;
    rewrite omap_app, app_nil_r; reflexivity.
Qed.

Lemma start_running s0 :
  crawl_start w cfg = StartRunning base_netloc robots_parser s0 ->
  exists p s1,
    parse w (root_url cfg) = inr p /\
    netloc p = base_netloc /\ scheme p <> "" /\ base_netloc <> "" /\
    (robots_parser, s1) = load_robots w cfg p (initial_state w) /\
    s0 = visit_and_put (root_url cfg) 0 s1.
Proof.
  unfold crawl_start. destruct (parse w (root_url cfg)) as [e|p]; [discriminate|].
  destruct (String.eqb (scheme p) "") eqn:Hs; [discriminate|].
  destruct (String.eqb (netloc p) "") eqn:Hn; [discriminate|]. cbn.
  destruct (load_robots w cfg p (initial_state w)) as [rp s1] eqn:Hl.
  intros [= <- <- <-]. exists p, s1.
  apply String.eqb_neq in Hs, Hn. repeat split; auto.
Qed.

Lemma start_invariant s0 :
  crawl_start w cfg = StartRunning base_netloc robots_parser s0 ->
  invariant s0.
Proof.
  intros (p & s1 & Hp & Hn & Hs & Hb & Hl & ->)%start_running.
  pose proof (load_robots_frame p (initial_state w)) as Hf.
  rewrite <- Hl in Hf. cbn in Hf.
  destruct Hf as (Hq & Hc & Hr & Hh & Ha & Hra & He & Hd & Hk & Hpf).
  unfold page_fetches in Hpf. cbn in Hpf.
  split; [split|split|split|intros u msg|split];
    unfold held, task_urls, page_fetches; cbn;
    rewrite ?Hq, ?Hc, ?Hr, ?Hh, ?Ha, ?He, ?Hd, ?Hk, ?Hpf; cbn.
  - reflexivity.
  - apply NoDup_singleton.
  - intros u. set_solver.
  - auto.
  - constructor.
  - intros t []%elem_of_nil.
  - constructor.
  - intros u []%elem_of_nil.
  - intros u. rewrite dom_empty_L. intros []%not_elem_of_empty.
  - intros u []%elem_of_nil.
  - intros u []%elem_of_nil.
  - rewrite lookup_empty. discriminate.
  - eexists. reflexivity.
  - intros u d [= -> ->]%list_elem_of_singleton. auto.
  - intros u. rewrite dom_empty_L. intros []%not_elem_of_empty.
  - intros u d hs []%elem_of_nil.
Qed.

Lemma passes_invariant s :
  passes w cfg base_netloc robots_parser s -> invariant s.
Proof.
  intros (s0 & sched & Hstart & Hrun).
  eapply invariant_run; [|exact Hrun]. apply start_invariant, Hstart.
Qed.

End Preservation.
(** *** Completed crawls *)

Lemma crawl_returns w cfg sched s :
  crawl w cfg sched = Some (Returned s) ->
  crawl_start w cfg = StartInvalid s \/
  exists base_netloc robots_parser s1,
    passes w cfg base_netloc robots_parser s1 /\
    finished s1 = true /\ raised s1 = None /\
    s = stamp_end (time_at_end w) s1.
Proof.
  unfold crawl. destruct (crawl_start w cfg) as [e|s0|bn rp s0] eqn:Hstart.
  - discriminate.
  - intros [= ->]. left. reflexivity.
  - destruct (run w cfg bn rp sched s0) as [s1|] eqn:Hrun; [|discriminate].
    destruct (raised s1) eqn:Hr; [discriminate|].
    destruct (finished s1) eqn:Hf; [|discriminate].
    intros [= <-]. right. exists bn, rp, s1.
    split; [exists s0, sched; auto|auto].
Qed.

Lemma start_invalid w cfg s :
  crawl_start w cfg = StartInvalid s ->
  html_contents (result s) = ∅ /\
  errors (result s) =
    {[ root_url cfg := "Invalid root_url: Must be absolute." ]} /\
  fetch_log s = [] /\ dispatched s = [] /\ enqueued s = [] /\
  start_time (result s) = time_at_start w /\
  end_time (result s) = time_at_end w /\
  crawled_urls s = ∅.
Proof.
  unfold crawl_start. destruct (parse w (root_url cfg)) as [e|p]; [discriminate|].
  destruct (String.eqb (scheme p) "" || String.eqb (netloc p) "");
    [|destruct (load_robots w cfg p (initial_state w)); discriminate].
  intros [= <-]. cbn. repeat split; reflexivity.
Qed.

(** C1, as the code has it.  In the result of a completed crawl a URL
    is a key of both [html_contents] and [errors] only when its page
    was stored and the expansion of its links then raised: the entry
    in [errors] is then the message of the [except Exception] clause,
    "Processing Error: ...".  Apart from such URLs the two sets of keys
    are disjoint. *)
Theorem html_and_errors_share_only_processing_errors
    (w : World) (cfg : Config) (sched : list Choice) (s : State) :
  crawl w cfg sched = Some (Returned s) ->
  forall u msg,
    u ∈ dom (html_contents (result s)) ->
    errors (result s) !! u = Some msg ->
    processing_message msg.
Proof.
  intros [Hinv|(bn & rp & s1 & Hp & _ & _ & ->)]%crawl_returns u msg.
  - apply start_invalid in Hinv as (-> & _). rewrite dom_empty_L.
    intros []%not_elem_of_empty.
  - cbn. intros Hu Hmsg.
    destruct (passes_invariant _ _ _ _ _ Hp) as [Hfr Htk Hpo He _].
    destruct Htk as [_ _ _ Hfe Hht]. destruct (Hfe u (Hht u Hu)) as [Hd _].
    destruct (He u msg Hmsg) as [[Hb _]|[(_ & Hk & _)|(_ & _ & Hm)]].
    + rewrite (po_allowed _ _ _ _ Hpo u Hd) in Hb. discriminate.
    + destruct Hfr as [Hperm Hn _ _]. rewrite Hperm in Hn.
      apply NoDup_app in Hn as (_ & Hn & _). destruct (Hn u Hd). set_solver.
    + auto.
Qed.

Lemma html_and_errors_share_only_processing_errors_witness :
  let s := Lab.returned_state Lab.bad_config Lab.bad_schedule in
  crawl Lab.world Lab.bad_config Lab.bad_schedule = Some (Returned s) /\
  forall u msg,
    u ∈ dom (html_contents (result s)) ->
    errors (result s) !! u = Some msg ->
    processing_message msg.
Proof.
  intros s.
  refine ((fun H => conj H
             (html_and_errors_share_only_processing_errors _ _ _ _ H)) _).
  vm_compute. reflexivity.
Defined.

Lemma lab_bad_page :
  let s := Lab.returned_state Lab.bad_config Lab.bad_schedule in
  crawl Lab.world Lab.bad_config Lab.bad_schedule = Some (Returned s) /\
  "http://a.com/bad" ∈ dom (html_contents (result s)) /\
  "http://a.com/bad" ∈ dom (errors (result s)).
Proof.
  split; [vm_compute; reflexivity|].
  split; apply elem_of_dom; vm_compute; eauto.
Qed.

(** C1 as stated fails: the lab page [/bad] is stored, then
    [urljoin] raises on its link, and the page is a key of both
    dictionaries. *)
Lemma html_and_errors_not_disjoint :
  ~ (forall w cfg sched s,
       crawl w cfg sched = Some (Returned s) ->
       dom (html_contents (result s)) ## dom (errors (result s))).
Proof.
  intros H. destruct lab_bad_page as (Hs & Hh & He).
  exact (H _ _ _ _ Hs _ Hh He).
Qed.

(** C4.  When [urlparse(root_url)] has no scheme or no host, [crawl]
    returns under every schedule, before any fetch, task or queue
    entry: [errors] is the single entry keyed by [root_url] as given,
    [html_contents] is empty, and, the clock being monotonic,
    [elapsed_ms] is not negative. *)
Theorem invalid_root_returns_at_once
    (w : World) (cfg : Config) (p : ParseResult) (sched : list Choice) :
  parse w (root_url cfg) = inr p ->
  scheme p = "" \/ netloc p = "" ->
  (time_at_start w <= time_at_end w)%Q ->
  exists s,
    crawl w cfg sched = Some (Returned s) /\
    errors (result s) =
      {[ root_url cfg := "Invalid root_url: Must be absolute." ]} /\
    html_contents (result s) = ∅ /\
    fetch_log s = [] /\ dispatched s = [] /\ enqueued s = [] /\
    (0 <= elapsed_ms (result s))%Q.
Proof.
  intros Hp Hbad Hclock.
  assert (Hcond : String.eqb (scheme p) "" || String.eqb (netloc p) "" = true).
  { destruct Hbad as [-> | ->]; [reflexivity|apply orb_true_r]. }
  destruct (crawl_start w cfg) as [e|s|bn rp s0] eqn:Hstart.
  - unfold crawl_start in Hstart. rewrite Hp, Hcond in Hstart. discriminate.
  - exists s. unfold crawl. rewrite Hstart.
    destruct (start_invalid _ _ _ Hstart) as (Hh & He & Hf & Hd & Hq & Hs & Ht & _).
    repeat split; try assumption.
    unfold elapsed_ms. rewrite Hs, Ht.
    destruct (truthy (time_at_start w) && truthy (time_at_end w)); lra.
  - unfold crawl_start in Hstart. rewrite Hp, Hcond in Hstart. discriminate.
Qed.

Lemma invalid_root_returns_at_once_witness :
  exists s,
    crawl Lab.world (Lab.config "a.com/page" 1) [Dequeue; Decide]
      = Some (Returned s) /\
    errors (result s) =
      {[ "a.com/page" := "Invalid root_url: Must be absolute." ]} /\
    html_contents (result s) = ∅ /\
    fetch_log s = [] /\ dispatched s = [] /\ enqueued s = [] /\
    (0 <= elapsed_ms (result s))%Q.
Proof.
  apply (invalid_root_returns_at_once Lab.world (Lab.config "a.com/page" 1)
           (mkParse "" "" "a.com/page" "" "" "")).
  - vm_compute. reflexivity.
  - left. reflexivity.
  - vm_compute. discriminate.
Defined.


(** [Lab.state_after cfg sched] is a state of the lab crawl. *)
Ltac lab_passes :=
  match goal with
  | |- passes _ ?cfg _ _ (Lab.state_after _ ?sched) =>
      exists (Lab.start_state cfg), sched; split; vm_compute; reflexivity
  end.


(** C6.  With [max_depth] not negative, in every state of a crawl the
    root was put first, at depth 0, every item ever put on the queue
    (so every item waiting or held and every task) has a depth from 0
    to [max_depth], and only a task below [max_depth] walks the links
    of its page.  With [max_depth = 0] nothing but the root is ever
    put, and the root is the only possible key of [html_contents] and
    of [errors], in every state and in the result returned. *)
Theorem depth_is_bounded
    (w : World) (cfg : Config) (base_netloc : string)
    (robots_parser : option string) (s : State) :
  0 <= max_depth cfg ->
  passes w cfg base_netloc robots_parser s ->
  (exists rest, enqueued s = (root_url cfg, 0) :: rest) /\
  (forall u d, (u, d) ∈ enqueued s -> 0 <= d <= max_depth cfg) /\
  (forall item, item ∈ held s ++ queue s -> item ∈ enqueued s) /\
  (forall t, t ∈ active_processing_tasks s ->
     (task_url t, task_depth t) ∈ enqueued s) /\
  (forall u d hrefs, Expanding u d hrefs ∈ active_processing_tasks s ->
     d < max_depth cfg) /\
  (max_depth cfg = 0 ->
     (forall item, item ∈ enqueued s -> item = (root_url cfg, 0)) /\
     dom (html_contents (result s)) ⊆ {[ root_url cfg ]} /\
     dom (errors (result s)) ⊆ {[ root_url cfg ]} /\
     forall sched s',
       crawl w cfg sched = Some (Returned s') ->
       dom (html_contents (result s')) ⊆ {[ root_url cfg ]} /\
       dom (errors (result s')) ⊆ {[ root_url cfg ]}).
Proof.
  intros Hmax Hp.
  assert (Hzero : forall bn rp s1, passes w cfg bn rp s1 ->
            max_depth cfg = 0 ->
            (forall item, item ∈ enqueued s1 -> item = (root_url cfg, 0)) /\
            dom (html_contents (result s1)) ⊆ {[ root_url cfg ]} /\
            dom (errors (result s1)) ⊆ {[ root_url cfg ]}).
  { intros bn rp s1 Hp1 H0.
    destruct (passes_invariant _ _ _ _ _ Hp1) as [Hfr Htk _ _ Hsh].
    destruct Hsh as [_ Hq He _]. destruct Hfr as [Hperm _ _ _].
    destruct Htk as [_ _ _ Hfe Hht].
    assert (Hall : forall item, item ∈ enqueued s1 -> item = (root_url cfg, 0)).
    { intros [u d] Hin. destruct (Hq u d Hin) as [[-> ->]|[_ ?]];
        [reflexivity|lia]. }
    assert (Hurl : forall u, u ∈ (enqueued s1).*1 -> u = root_url cfg).
    { intros u (item & -> & Hin)%list_elem_of_fmap.
      rewrite (Hall item Hin). reflexivity. }
    split; [exact Hall|]. split.
    - intros u Hu. apply elem_of_singleton, Hurl. rewrite Hperm.
      destruct (Hfe u (Hht u Hu)) as [Hd _]. set_solver.
    - intros u Hu. apply elem_of_singleton.
      destruct (He u Hu) as [Hin|[_ ?]]; [apply Hurl, Hin|lia]. }
  destruct (passes_invariant _ _ _ _ _ Hp) as [Hfr Htk _ _ Hsh].
  destruct Hsh as [Hroot Hq He Hx]. destruct Hfr as [_ _ _ Hitems].
  destruct Htk as [_ Hdi _ _ _].
  split; [exact Hroot|]. split.
  { intros u d Hin. destruct (Hq u d Hin) as [[_ ->]|[_ ?]]; lia. }
  split; [exact Hitems|]. split; [intros t Ht; apply (Hdi t Ht)|].
  split; [exact Hx|]. intros H0.
  destruct (Hzero _ _ _ Hp H0) as (Hall & Hh & Herr).
  split; [exact Hall|]. split; [exact Hh|]. split; [exact Herr|].
  intros sched s' [Hinv|(bn & rp & s1 & Hp1 & _ & _ & ->)]%crawl_returns.
  - apply start_invalid in Hinv as (-> & -> & _).
    rewrite dom_empty_L, dom_singleton_L. set_solver.
  - cbn. destruct (Hzero _ _ _ Hp1 H0) as (_ & ? & ?). auto.
Qed.

Lemma depth_is_bounded_witness :
  let s := Lab.state_after Lab.home_config Lab.home_schedule in
  0 <= max_depth Lab.home_config /\
  passes Lab.world Lab.home_config "a.com" (Some Lab.robots_txt) s /\
  (forall u d, (u, d) ∈ enqueued s -> 0 <= d <= max_depth Lab.home_config).
Proof.
  intros s.
  refine ((fun H0 Hp => conj H0 (conj Hp
             (proj1 (proj2 (depth_is_bounded _ _ _ _ _ H0 Hp))))) _ _).
  - vm_compute. discriminate.
  - subst s. lab_passes.
Defined.

(** *** Runs *)

Lemma run_app w cfg bn rp sched1 sched2 s s1 s2 :
  run w cfg bn rp sched1 s = Some s1 ->
  run w cfg bn rp sched2 s1 = Some s2 ->
  run w cfg bn rp (sched1 ++ sched2) s = Some s2.
Proof.
  revert s. induction sched1 as [|c sched1 IH]; intros s H1 H2.
  - injection H1 as ->. exact H2.
  - cbn in *. destruct (step w cfg bn rp c s) as [s'|]; [|discriminate].
    eapply IH; eauto.
Qed.

Lemma passes_run w cfg bn rp sched s s' :
  passes w cfg bn rp s -> run w cfg bn rp sched s = Some s' ->
  passes w cfg bn rp s'.
Proof.
  intros (s0 & sched0 & Hstart & Hrun) H.
  exists s0, (sched0 ++ sched). split; [exact Hstart|].
  eapply run_app; eauto.
Qed.

Lemma passes_step w cfg bn rp c s s' :
  passes w cfg bn rp s -> step w cfg bn rp c s = Some s' ->
  passes w cfg bn rp s'.
Proof.
  intros Hp Hstep. apply (passes_run _ _ _ _ [c] s); [exact Hp|].
  cbn. rewrite Hstep. reflexivity.
Qed.

Lemma errors_dom_step w cfg bn rp c s s' :
  step w cfg bn rp c s = Some s' ->
  dom (errors (result s)) ⊆ dom (errors (result s')).
Proof.
  intros Hstep. split_step Hstep; cbn; rewrite ?dom_insert_L; set_solver.
Qed.

Lemma errors_dom_run w cfg bn rp sched s s' :
  run w cfg bn rp sched s = Some s' ->
  dom (errors (result s)) ⊆ dom (errors (result s')).
Proof.
  revert s. induction sched as [|c sched IH]; intros s H.
  - injection H as ->. reflexivity.
  - cbn in H. destruct (step w cfg bn rp c s) as [s1|] eqn:Hs; [|discriminate].
    etrans; [eapply errors_dom_step, Hs|apply IH, H].
Qed.

(** *** Extensions and robots.txt *)

Lemma png_is_non_html p :
  endswith ".png" p = true -> has_non_html_extension p = true.
Proof.
  intros H. unfold has_non_html_extension. apply existsb_exists.
  exists ".png". split; [|exact H]. unfold NON_HTML_EXTENSIONS. cbn. tauto.
Qed.

Lemma blocked_never_fetched w cfg bn rp s u :
  passes w cfg bn rp s -> blocked w cfg rp u = true ->
  (u ∉ dispatched s) /\ (u ∉ page_fetches s) /\
  (u ∉ dom (html_contents (result s))) /\
  forall msg, errors (result s) !! u = Some msg -> robots_message msg.
Proof.
  intros Hp Hb. destruct (passes_invariant _ _ _ _ _ Hp) as [_ Htk Hpo He _].
  destruct Htk as [_ _ _ Hfe Hht].
  assert (Hnd : u ∉ dispatched s).
  { intros Hd. rewrite (po_allowed _ _ _ _ Hpo u Hd) in Hb. discriminate. }
  assert (Hnf : u ∉ page_fetches s) by (intros Hf; apply Hnd, (Hfe u Hf)).
  split; [exact Hnd|]. split; [exact Hnf|]. split; [intros Hh; auto|].
  intros msg Hmsg.
  destruct (He u msg Hmsg) as [[_ Hm]|[(Hb' & _)|(Hd & _)]];
    [exact Hm|congruence|contradiction].
Qed.




Lemma lab_home_discovers href :
  href ∈ Lab.hrefs_of Lab.html_home ->
  discovered Lab.world Lab.home_config
    (Lab.returned_state Lab.home_config Lab.home_schedule)
    "http://a.com/" href.
Proof.
  intros H. exists 0, Lab.html_home, (Lab.hrefs_of Lab.html_home).
  split; [vm_compute; repeat constructor|].
  split; [vm_compute; reflexivity|].
  split; [vm_compute; reflexivity|]. split; [reflexivity|exact H].
Qed.

Lemma lab_home_returns :
  crawl_start Lab.world Lab.home_config =
    StartRunning "a.com" (Some Lab.robots_txt)
      (Lab.start_state Lab.home_config) /\
  crawl Lab.world Lab.home_config Lab.home_schedule =
    Some (Returned (Lab.returned_state Lab.home_config Lab.home_schedule)).
Proof. split; vm_compute; reflexivity. Qed.





(** *** After the fetch *)

Lemma running_task_has_no_entry w cfg bn rp s t :
  passes w cfg bn rp s -> t ∈ active_processing_tasks s ->
  errors (result s) !! task_url t = None.
Proof.
  intros Hp Ht. destruct (passes_invariant _ _ _ _ _ Hp) as [Hfr Htk Hpo He _].
  destruct (tk_dispatched _ Htk t Ht) as [Hd _].
  destruct (errors (result s) !! task_url t) as [msg|] eqn:Hmsg; [|reflexivity].
  exfalso. destruct (He _ _ Hmsg) as [[Hb _]|[(_ & Hk & _)|(_ & Hn & _)]].
  - rewrite (po_allowed _ _ _ _ Hpo _ Hd) in Hb. discriminate.
  - destruct Hfr as [Hperm Hn _ _]. rewrite Hperm in Hn.
    apply NoDup_app in Hn as (_ & Hn & _).
    apply (Hn _ Hd). set_solver.
  - apply Hn. unfold task_urls. apply list_elem_of_fmap_2, Ht.
Qed.

(** C10.  When the fetch of a task ends in failure, the headers
    [fetch_url_content] returns are empty, so [process_single_url]
    records the URL in [errors] as "Skipped: Not HTML (Content-Type: )"
    and stores no page.  The task records an "HTTP Error: ..." message
    only when the Content-Type of the response contains [text/html]
    and its status is not 200. *)
Theorem failed_fetch_is_recorded_as_not_html
    (w : World) (cfg : Config) (base_netloc : string)
    (robots_parser : option string) (s s1 : State)
    (i : nat) (u : string) (d : Z) :
  passes w cfg base_netloc robots_parser s ->
  active_processing_tasks s !! i = Some (Fetching u d) ->
  step w cfg base_netloc robots_parser (RunTask i) s = Some s1 ->
  let '(status, body, headers) :=
    fetch_url_content (net w) u (user_agent cfg) (retry_limit cfg)
      (backoff_base_ms cfg) in
  let content_type := lower (default "" (headers !! "Content-Type")) in
  (fetch_failed (net w) u (user_agent cfg) (retry_limit cfg)
     (backoff_base_ms cfg) = true ->
   headers = ∅ /\
   errors (result s1) !! u = Some "Skipped: Not HTML (Content-Type: )" /\
   (u ∉ dom (html_contents (result s1)))) /\
  (forall msg,
     errors (result s1) !! u = Some msg ->
     startswith "HTTP Error: " msg = true ->
     contains "text/html" content_type = true /\ status <> 200 /\
     msg = http_error_message status body).
Proof.
  intros Hp Hi Hstep.
  pose proof (running_task_has_no_entry _ _ _ _ _ _ Hp
                (list_elem_of_lookup_2 _ _ _ Hi)) as Hnone.
  destruct (passes_invariant _ _ _ _ _ Hp) as [_ Htk _ _ _].
  pose proof (fetching_not_stored _ _ _ _ Htk Hi) as Hnot.
  pose proof (FetcherFacts.failed_fetch_has_no_headers (net w) u
                (user_agent cfg) (retry_limit cfg) (backoff_base_ms cfg))
    as Hfail.
  unfold step in Hstep. destruct (raised s); [discriminate|].
  unfold process_single_url in Hstep. rewrite Hi in Hstep.
  unfold step_fetch in Hstep.
  destruct (fetch_url_content (net w) u (user_agent cfg) (retry_limit cfg)
              (backoff_base_ms cfg)) as [[status body] headers].
  cbn in Hfail, Hnone.
  destruct (contains "text/html"
              (lower (default "" (headers !! "Content-Type")))) eqn:Hct;
    cbn in Hstep.
  - split.
    + intros Hf. rewrite (Hfail Hf) in Hct. discriminate.
    + destruct (status =? 200) eqn:H200; injection Hstep as <-; cbn.
      * intros msg Hmsg. rewrite Hnone in Hmsg. discriminate.
      * intros msg Hmsg _. rewrite lookup_insert_eq in Hmsg.
        injection Hmsg as <-. split; [exact Hct|]. split; [lia|reflexivity].
  - injection Hstep as <-. cbn. split.
    + intros Hf. rewrite (Hfail Hf). split; [reflexivity|].
      rewrite lookup_insert_eq. split; [reflexivity|exact Hnot].
    + intros msg Hmsg Hpre. rewrite lookup_insert_eq in Hmsg.
      injection Hmsg as <-. discriminate.
Qed.

Lemma failed_fetch_is_recorded_as_not_html_witness :
  let s := Lab.state_after Lab.down_config Lab.down_schedule in
  let s1 := Lab.state_after Lab.down_config
              (Lab.down_schedule ++ [RunTask 0]) in
  passes Lab.world Lab.down_config "a.com" (Some Lab.robots_txt) s /\
  active_processing_tasks s !! 0%nat
    = Some (Fetching "http://a.com/down" 0) /\
  step Lab.world Lab.down_config "a.com" (Some Lab.robots_txt)
    (RunTask 0) s = Some s1 /\
  errors (result s1) !! "http://a.com/down"
    = Some "Skipped: Not HTML (Content-Type: )".
Proof.
  intros s s1.
  refine ((fun Hp Hi Hstep => conj Hp (conj Hi (conj Hstep _))) _ _ _).
  - pose proof (failed_fetch_is_recorded_as_not_html _ _ _ _ _ _ _ _ _
                  Hp Hi Hstep) as H.
    destruct (fetch_url_content (net Lab.world) "http://a.com/down"
                (user_agent Lab.down_config) (retry_limit Lab.down_config)
                (backoff_base_ms Lab.down_config)) as [[status body] headers].
    apply H. vm_compute. reflexivity.
  - subst s. lab_passes.
  - vm_compute. reflexivity.
  - vm_compute. reflexivity.
Defined.

(** *** Keys *)

Lemma link_shaped_normalized w bn u :
  bn <> "" -> link_shaped w bn u ->
  normalized_absolute (netloc_check w) u = true.
Proof.
  intros Hbn (a & p & Hp & <- & Hs & ->).
  eapply UrlFacts.normalized_link; eauto.
Qed.

(** C9, as the code has it.  In the result of a completed crawl every
    key of [html_contents] and of [errors] is the root URL as the
    caller gave it, or a normalized link: a URL that parses with a
    scheme, a host and an empty fragment.  The same holds of every URL
    ever put on the queue or in the visited set: the loop over the
    links strips the fragment before the membership test and the put. *)
Theorem keys_are_root_or_normalized
    (w : World) (cfg : Config) (sched : list Choice) (s : State) :
  crawl w cfg sched = Some (Returned s) ->
  forall u,
    u ∈ dom (html_contents (result s)) \/ u ∈ dom (errors (result s)) \/
    u ∈ (enqueued s).*1 \/ u ∈ crawled_urls s ->
    u = root_url cfg \/ normalized_absolute (netloc_check w) u = true.
Proof.
  intros [Hinv|(bn & rp & s1 & Hp & _ & _ & ->)]%crawl_returns u.
  - apply start_invalid in Hinv as (-> & -> & _ & _ & -> & _ & _ & ->).
    rewrite dom_empty_L, dom_singleton_L. cbn.
    intros [H|[H|[H|H]]]; set_solver.
  - cbn. destruct (passes_invariant _ _ _ _ _ Hp) as [Hfr Htk _ _ Hsh].
    destruct Hp as (s0 & sched0 & Hstart & _).
    apply start_running in Hstart as (_ & _ & _ & _ & _ & Hbn & _).
    destruct Hfr as [Hperm _ Hv _]. destruct Htk as [_ _ _ Hfe Hht].
    destruct Hsh as [_ Hq He _].
    assert (Henq : forall v, v ∈ (enqueued s1).*1 ->
              v = root_url cfg \/ normalized_absolute (netloc_check w) v = true).
    { intros v ([v' d] & -> & Hin)%list_elem_of_fmap. cbn.
      destruct (Hq _ _ Hin) as [[-> _]|[Hl _]]; [left; reflexivity|].
      right. eapply link_shaped_normalized; eauto. }
    intros [H|[H|[H|H]]].
    + apply Henq. rewrite Hperm. destruct (Hfe u (Hht u H)) as [Hd _].
      apply elem_of_app. left. exact Hd.
    + destruct (He u H) as [Hin|[Hl _]]; [apply Henq, Hin|].
      right. eapply link_shaped_normalized; eauto.
    + apply Henq, H.
    + apply Henq, Hv, H.
Qed.

Lemma keys_are_root_or_normalized_witness :
  let s := Lab.returned_state Lab.home_config Lab.home_schedule in
  crawl Lab.world Lab.home_config Lab.home_schedule = Some (Returned s) /\
  forall u,
    u ∈ dom (html_contents (result s)) \/ u ∈ dom (errors (result s)) \/
    u ∈ (enqueued s).*1 \/ u ∈ crawled_urls s ->
    u = "http://a.com/" \/
    normalized_absolute (netloc_check Lab.world) u = true.
Proof.
  intros s.
  refine ((fun H => conj H (keys_are_root_or_normalized _ _ _ _ H)) _).
  vm_compute. reflexivity.
Defined.

Lemma lab_top_page :
  let s := Lab.returned_state Lab.top_config Lab.top_schedule in
  crawl Lab.world Lab.top_config Lab.top_schedule = Some (Returned s) /\
  "http://a.com/#top" ∈ dom (html_contents (result s)) /\
  normalized_absolute (netloc_check Lab.world) "http://a.com/#top" = false.
Proof.
  split; [vm_compute; reflexivity|].
  split; [apply elem_of_dom; vm_compute; eauto|vm_compute; reflexivity].
Qed.

(** C9 as stated fails: the root URL is put on the queue as given, so
    the lab crawl of [http://a.com/#top] stores the page under a key
    that has a fragment. *)
Lemma root_key_keeps_its_fragment :
  ~ (forall w cfg sched s u,
       crawl w cfg sched = Some (Returned s) ->
       u ∈ dom (html_contents (result s)) \/ u ∈ dom (errors (result s)) ->
       normalized_absolute (netloc_check w) u = true).
Proof.
  intros H. destruct lab_top_page as (Hs & Hin & Hn).
  rewrite (H _ _ _ _ _ Hs (or_introl Hin)) in Hn. discriminate.
Qed.

End CrawlerFacts.
(** ** The crawler: bounds, the result, robots.txt and the clock *)

Module LedgerFacts.
Import PyStr UrlLib Fetcher Crawler Terms Invariants Ledger CrawlerFacts.
#[local] Set Warnings "-clear-no-such-hyp".

Section Steps.
Variable w : World.
Variable cfg : Config.
Variable base_netloc : string.
Variable robots_parser : option string.

Local Abbreviation step := (step w cfg base_netloc robots_parser).
Local Abbreviation passes := (passes w cfg base_netloc robots_parser).

(** The state the loop starts in. *)
Lemma start_fields s0 :
  crawl_start w cfg = StartRunning base_netloc robots_parser s0 ->
  queue s0 = [(root_url cfg, 0)] /\ holding s0 = None /\
  active_processing_tasks s0 = [] /\ raised s0 = None /\
  html_contents (result s0) = ∅ /\ errors (result s0) = ∅ /\
  total_bytes (result s0) = 0 /\
  start_time (result s0) = time_at_start w /\
  dispatched s0 = [] /\ skipped s0 = [] /\
  enqueued s0 = [(root_url cfg, 0)].
Proof.
  intros (p & s1 & Hp & Hn & Hs & Hb & Hl & ->)%start_running.
  pose proof (load_robots_frame w cfg p (initial_state w)) as Hf.
  rewrite <- Hl in Hf. cbn in Hf.
  destruct Hf as (Hq & Hc & Hr & Hh & Ha & Hra & He & Hd & Hk & Hpf).
  cbn. rewrite Hq, Hh, Ha, Hra, Hr, Hd, Hk, He. cbn. repeat split.
Qed.

(** Induction over the states of a crawl. *)
Lemma passes_induction (P : State -> Prop) :
  (forall s0, crawl_start w cfg = StartRunning base_netloc robots_parser s0 ->
              P s0) ->
  (forall c s s', passes s -> P s -> step c s = Some s' -> P s') ->
  forall s, passes s -> P s.
Proof.
  intros Hstart Hstep s (s0 & sched & Hs0 & Hrun).
  assert (Hp0 : passes s0) by (exists s0, []; split; [exact Hs0|reflexivity]).
  specialize (Hstart s0 Hs0). clear Hs0.
  revert s0 Hp0 Hstart Hrun.
  induction sched as [|c sched IH]; intros s0 Hp0 H0 Hrun.
  - injection Hrun as <-. exact H0.
  - cbn in Hrun. destruct (step c s0) as [s1|] eqn:Hs; [|discriminate].
    apply (IH s1); [eapply passes_step; eauto|eapply Hstep; eauto|exact Hrun].
Qed.

(** *** The number of tasks *)

Lemma in_flight_step c s s' :
  step c s = Some s' ->
  Z.of_nat (in_flight s) <= Z.max 0 (max_concurrent_tasks cfg) ->
  Z.of_nat (in_flight s') <= Z.max 0 (max_concurrent_tasks cfg).
Proof.
  intros Hstep Hb. split_step Hstep.
  all: unfold in_flight, held, finish, suspend, processing_error in *; cbn in *.
  all: rewrite ?Heqo0 in *; cbn in *.
  all: rewrite ?length_app, ?length_insert in *; cbn in *.
  all: try lia.
  all: rewrite length_delete by (eexists; eassumption); lia.
Qed.

Lemma in_flight_bounded s :
  passes s -> Z.of_nat (in_flight s) <= Z.max 0 (max_concurrent_tasks cfg).
Proof.
  revert s. apply passes_induction.
  - intros s0 (Hq & Hh & Ha & _)%start_fields.
    unfold in_flight, held. rewrite Hh, Ha. cbn. lia.
  - intros c s s' _ Hb Hstep. eapply in_flight_step; eauto.
Qed.

(** With no task slot no step is enabled at the start. *)
Lemma no_slot_no_step s0 c :
  max_concurrent_tasks cfg <= 0 ->
  crawl_start w cfg = StartRunning base_netloc robots_parser s0 ->
  step c s0 = None.
Proof.
  intros Hmax (Hq & Hh & Ha & Hr & _)%start_fields.
  unfold Crawler.step, step_dequeue, step_decide, process_single_url.
  rewrite Hr, Hh, Hq, Ha. destruct c; cbn; [|reflexivity..].
  destruct (Z.ltb_spec (Z.of_nat 0) (max_concurrent_tasks cfg));
    [lia|reflexivity].
Qed.

(** *** Every URL of the frontier parses, on the host of the root *)

Lemma link_on_host u :
  base_netloc <> "" -> link_shaped w base_netloc u ->
  exists p, parse w u = inr p /\ netloc p = base_netloc /\
            in_list (scheme p) ["http"; "https"] = true.
Proof.
  intros Hbn (a & p & Ha & Hn & Hs & ->).
  destruct (UrlFacts.normalized_link_parses _ a p Ha) as (r & Hr & Hsr & Hnr & _).
  - rewrite Hn. exact Hbn.
  - exact Hs.
  - exists r. split; [exact Hr|]. split; [congruence|]. rewrite Hsr. exact Hs.
Qed.

Lemma enqueued_on_host s u d :
  passes s -> (u, d) ∈ enqueued s ->
  exists p, parse w u = inr p /\ netloc p = base_netloc /\ scheme p <> "".
Proof.
  intros Hp Hin. pose proof Hp as (s0 & sched & Hstart & _).
  apply start_running in Hstart
    as (p0 & s1 & Hp0 & Hn0 & Hs0 & Hbn & _).
  destruct (passes_invariant _ _ _ _ _ Hp) as [_ _ _ _ [_ Hq _ _]].
  destruct (Hq u d Hin) as [[-> _]|[Hl _]].
  - exists p0. auto.
  - destruct (link_on_host u Hbn Hl) as (r & Hr & Hnr & Hsr).
    exists r. split; [exact Hr|]. split; [exact Hnr|].
    destruct (UrlFacts.in_http_https _ Hsr) as [-> | ->]; discriminate.
Qed.

Lemma raised_step c s s' :
  passes s -> step c s = Some s' -> raised s' = None.
Proof.
  intros Hp Hstep.
  destruct (passes_invariant _ _ _ _ _ Hp) as [[_ _ _ Hi] _ _ _ _].
  pose proof (fun u d => enqueued_on_host s u d Hp) as Hparse.
  split_step Hstep; cbn; try assumption.
  (* [urlparse(current_url)] raises: it cannot *)
  exfalso.
  match goal with
  | Hh : holding s = Some (?u, ?d), Hf : parse w ?u = inl _ |- _ =>
      destruct (Hparse u d) as (pu & Hpu & _);
        [apply Hi; unfold held; rewrite Hh; set_solver|congruence]
  end.
Qed.

Lemma never_raised s : passes s -> raised s = None.
Proof.
  revert s. apply passes_induction.
  - intros s0 (_ & _ & _ & Hr & _)%start_fields. exact Hr.
  - intros c s s' Hp _ Hstep. eapply raised_step; eauto.
Qed.

(** *** The pages stored *)

Lemma stored_bytes_insert (m : gmap string string) u body :
  m !! u = None ->
  stored_bytes (<[u:=body]> m) =
    stored_bytes m + Z.of_nat (String.length body).
Proof.
  intros H. unfold stored_bytes.
  rewrite map_fold_insert_L; [reflexivity| |exact H].
  intros. lia.
Qed.

Lemma bytes_step c s s' :
  tasks_ok s -> step c s = Some s' ->
  total_bytes (result s) = stored_bytes (html_contents (result s)) ->
  total_bytes (result s') = stored_bytes (html_contents (result s')).
Proof.
  intros Htk Hstep Hb. split_step Hstep; cbn; try assumption.
  rewrite stored_bytes_insert, Hb; [reflexivity|].
  apply not_elem_of_dom. eapply fetching_not_stored; eauto.
Qed.

Lemma bytes_counted s :
  passes s ->
  total_bytes (result s) = stored_bytes (html_contents (result s)).
Proof.
  revert s. apply passes_induction.
  - intros s0 (_ & _ & _ & _ & Hh & _ & Hb & _)%start_fields.
    rewrite Hh, Hb. reflexivity.
  - intros c s s' Hp Hb Hstep. eapply bytes_step; eauto.
    apply (passes_invariant _ _ _ _ _ Hp).
Qed.

Lemma html_step c s s' :
  tasks_ok s -> step c s = Some s' ->
  html_contents (result s) ⊆ html_contents (result s').
Proof.
  intros Htk Hstep. split_step Hstep; cbn; try reflexivity.
  apply insert_subseteq, not_elem_of_dom.
  eapply fetching_not_stored; eauto.
Qed.

Lemma html_run sched s s' :
  passes s -> run w cfg base_netloc robots_parser sched s = Some s' ->
  html_contents (result s) ⊆ html_contents (result s').
Proof.
  revert s. induction sched as [|c sched IH]; intros s Hp Hrun.
  - injection Hrun as <-. reflexivity.
  - cbn in Hrun. destruct (step c s) as [s1|] eqn:Hs; [|discriminate].
    etrans; [eapply html_step; [apply (passes_invariant _ _ _ _ _ Hp)|exact Hs]|].
    apply IH; [eapply passes_step; eauto|exact Hrun].
Qed.

Lemma stored_step c s s' :
  stored_ok w cfg s -> step c s = Some s' -> stored_ok w cfg s'.
Proof.
  intros Hs Hstep. split_step Hstep; cbn; try assumption.
  intros u body. cbn. rewrite lookup_insert_Some.
  intros [[<- <-]|[_ H]]; [|apply Hs, H].
  unfold html_response.
  match goal with
  | Hf : fetch_url_content _ _ _ _ _ = _ |- _ => rewrite Hf
  end.
  split; [apply Z.eqb_eq; assumption|]. split; [reflexivity|].
  match goal with
  | Hc : negb (contains _ _) = false |- _ =>
      apply negb_false_iff in Hc; exact Hc
  end.
Qed.

Lemma stored_pages s : passes s -> stored_ok w cfg s.
Proof.
  revert s. apply passes_induction.
  - intros s0 (_ & _ & _ & _ & Hh & _)%start_fields u body.
    rewrite Hh, lookup_empty. discriminate.
  - intros c s s' _ Hs Hstep. eapply stored_step; eauto.
Qed.

(** *** The messages recorded *)

Lemma messages_step c s s' :
  messages_ok s -> step c s = Some s' -> messages_ok s'.
Proof.
  intros Hm Hstep. split_step Hstep; cbn; try assumption.
  all: unfold processing_error; intros v msg; cbn;
    rewrite lookup_insert_Some; intros [[_ <-]|[_ H]]; [|eapply Hm, H].
  all: unfold known_message, robots_message, processing_message.
  all: eauto 10.
Qed.

Lemma messages_known s : passes s -> messages_ok s.
Proof.
  revert s. apply passes_induction.
  - intros s0 (_ & _ & _ & _ & _ & He & _)%start_fields u msg.
    rewrite He, lookup_empty. discriminate.
  - intros c s s' _ Hs Hstep. eapply messages_step; eauto.
Qed.

(** *** robots.txt *)

Lemma fetch_log_step c s s' pre :
  step c s = Some s' ->
  fetch_log s = pre ++ (PageFetch <$> page_fetches s) ->
  fetch_log s' = pre ++ (PageFetch <$> page_fetches s').
Proof.
  intros Hstep Hl. unfold page_fetches in *.
  split_step Hstep; cbn; try assumption.
  all: rewrite omap_app, fmap_app, app_assoc, <- Hl; reflexivity.
Qed.

Lemma fetch_log_start s0 p :
  crawl_start w cfg = StartRunning base_netloc robots_parser s0 ->
  parse w (root_url cfg) = inr p ->
  fetch_log s0 = robots_calls cfg p ++ (PageFetch <$> page_fetches s0) /\
  (respect_robots_txt cfg = false -> robots_parser = None).
Proof.
  intros (p0 & s1 & Hp0 & _ & _ & _ & Hl & ->)%start_running Hp.
  assert (p0 = p) as -> by congruence.
  unfold load_robots in Hl. unfold robots_calls, page_fetches.
  destruct (respect_robots_txt cfg).
  - destruct (fetch_url_content _ _ _ _ _) as [[st body] hd].
    destruct ((st =? 200) && negb (String.eqb body ""));
      injection Hl as -> ->; cbn; split; [reflexivity|discriminate
                                         |reflexivity|discriminate].
  - injection Hl as -> ->. cbn. split; [reflexivity|reflexivity].
Qed.

Lemma fetch_log_ordered s p :
  passes s -> parse w (root_url cfg) = inr p ->
  fetch_log s = robots_calls cfg p ++ (PageFetch <$> page_fetches s).
Proof.
  intros Hp Hparse. revert s Hp. apply passes_induction.
  - intros s0 Hs0. apply (fetch_log_start s0 p Hs0 Hparse).
  - intros c s s' _ Hl Hstep. eapply fetch_log_step; eauto.
Qed.

Lemma robots_entries_step c s s' :
  robots_entries_ok w cfg robots_parser s -> step c s = Some s' ->
  robots_entries_ok w cfg robots_parser s'.
Proof.
  intros Hr Hstep. split_step Hstep; cbn; try assumption.
  all: unfold processing_error; intros v msg; cbn;
    rewrite lookup_insert_Some; intros [[<- <-]|[_ H]]; [|eapply Hr, H].
  all: try assumption.
  all: intros [Hm|Hm]; try assumption; vm_compute in Hm; discriminate Hm.
Qed.

Lemma robots_entries s : passes s -> robots_entries_ok w cfg robots_parser s.
Proof.
  revert s. apply passes_induction.
  - intros s0 (_ & _ & _ & _ & _ & He & _)%start_fields u msg.
    rewrite He, lookup_empty. discriminate.
  - intros c s s' _ Hs Hstep. eapply robots_entries_step; eauto.
Qed.

(** *** The clock *)

Lemma start_time_step c s s' :
  step c s = Some s' -> start_time (result s') = start_time (result s).
Proof. intros Hstep. split_step Hstep; reflexivity. Qed.

Lemma start_time_kept s :
  passes s -> start_time (result s) = time_at_start w.
Proof.
  revert s. apply passes_induction.
  - intros s0 (_ & _ & _ & _ & _ & _ & _ & Ht & _)%start_fields. exact Ht.
  - intros c s s' _ Ht Hstep. rewrite <- Ht. eapply start_time_step; eauto.
Qed.

Lemma truthy_spec t :
  (truthy t = true /\ ~ (t == 0)%Q) \/ (truthy t = false /\ (t == 0)%Q).
Proof.
  unfold truthy. destruct (Qeq_bool t 0) eqn:E; [right|left]; cbn.
  - split; [reflexivity|apply Qeq_bool_iff, E].
  - split; [reflexivity|apply Qeq_bool_neq, E].
Qed.

(** *** Progress *)

Lemma step_enabled s :
  raised s = None -> 1 <= max_concurrent_tasks cfg ->
  finished s = false -> exists c s', step c s = Some s'.
Proof.
  intros Hr Hmax Hfin. unfold finished in Hfin.
  destruct (active_processing_tasks s) as [|t ts] eqn:Ha.
  - destruct (holding s) as [[u d]|] eqn:Hh.
    + exists Decide. unfold Crawler.step, step_decide. rewrite Hr, Hh.
      destruct (blocked w cfg robots_parser u); [eauto|].
      destruct (parse w u); [eauto|].
      destruct (has_non_html_extension (lower (path p))); eauto.
    + destruct (queue s) as [|item q] eqn:Hq; [discriminate|].
      exists Dequeue. unfold Crawler.step, step_dequeue.
      rewrite Hr, Hh, Hq, Ha.
      destruct (Z.ltb_spec (Z.of_nat (length (@nil Task)))
                  (max_concurrent_tasks cfg)) as [|Hge]; [eauto|].
      cbn in Hge. lia.
  - exists (RunTask 0). unfold Crawler.step, process_single_url.
    rewrite Hr, Ha. cbn. destruct t as [u d|u d html|u d [|href rest]]; eauto.
Qed.

(** *** Every URL taken from the queue is accounted for *)

Lemma accounted_task s s' i t :
  accounted s -> active_processing_tasks s !! i = Some t ->
  skipped s' = skipped s -> dispatched s' = dispatched s ->
  dom (html_contents (result s)) ⊆ dom (html_contents (result s')) ->
  dom (errors (result s)) ⊆ dom (errors (result s')) ->
  (active_processing_tasks s' = delete i (active_processing_tasks s) /\
   (task_url t ∈ dom (html_contents (result s')) \/
    task_url t ∈ dom (errors (result s')))) \/
  (exists t', active_processing_tasks s' =
                <[i:=t']> (active_processing_tasks s) /\
     task_url t' = task_url t /\
     ((exists d, t' = Fetching (task_url t') d) \/
      task_url t' ∈ dom (html_contents (result s')))) ->
  accounted s'.
Proof.
  intros [Hk Hd Hst] Hi Hsk Hdi Hh He Hcase.
  assert (Hold : forall t0, t0 ∈ active_processing_tasks s ->
            (exists d, t0 = Fetching (task_url t0) d) \/
            task_url t0 ∈ dom (html_contents (result s'))).
  { intros t0 Ht0. destruct (Hst t0 Ht0) as [?|?]; [left|right]; auto. }
  split.
  - intros u. rewrite Hsk. intros Hu. apply He, Hk, Hu.
  - intros u. rewrite Hdi. intros Hu. unfold task_urls in *.
    destruct (Hd u Hu) as [Ht|[Ht|Ht]]; [|right; left; auto|right; right; auto].
    destruct Hcase as [[-> Hfin]|(t' & -> & Hurl & _)].
    + rewrite (delete_Permutation _ _ _ Hi) in Ht. cbn in Ht.
      apply elem_of_cons in Ht as [->|Ht]; [right; exact Hfin|left; exact Ht].
    + left. rewrite (task_urls_insert _ _ _ _ Hi Hurl). exact Ht.
  - intros t0 Ht0. destruct Hcase as [[Ha _]|(t' & Ha & _ & Ht')];
      rewrite Ha in Ht0.
    + apply Hold. eapply list_elem_of_delete_inv, Ht0.
    + apply elem_of_insert_inv in Ht0 as [->|Ht0]; [exact Ht'|auto].
Qed.

Lemma accounted_step c s s' :
  accounted s -> step c s = Some s' -> accounted s'.
Proof.
  intros Hac Hstep.
  assert (Hin : forall i t, active_processing_tasks s !! i = Some t ->
            (exists d, t = Fetching (task_url t) d) \/
            task_url t ∈ dom (html_contents (result s))).
  { intros i t Ht. apply (ac_stored _ Hac). eapply list_elem_of_lookup_2, Ht. }
  split_step Hstep.
  all: try match goal with
       | Ht : active_processing_tasks ?s1 !! _ = Some ?t |- _ =>
           pose proof (Hin _ _ Ht) as Hpage; cbn in Hpage;
           apply (accounted_task s1 _ _ _ Hac Ht);
             [reflexivity|reflexivity
             |cbn; rewrite ?dom_insert_L; set_solver
             |cbn; rewrite ?dom_insert_L; set_solver
             |]
       end.
  all: unfold processing_error, finish, suspend; cbn.
  all: rewrite ?dom_insert_L.
  all: try solve [left; split; [reflexivity|set_solver]].
  all: try solve [right; eexists; split; [reflexivity|];
                  split; [reflexivity|]; cbn; set_solver].
  all: try solve [destruct Hpage as [[? [=]]|Hpage];
                  first [ left; split; [reflexivity|set_solver]
                        | right; eexists; split; [reflexivity|];
                          split; [reflexivity|]; cbn; set_solver ]].
  all: destruct Hac as [Hk Hd Hst]; split; unfold task_urls in *; cbn;
    rewrite ?dom_insert_L; try assumption.
  - (* skipped by robots.txt *)
    intros u [Hu|Hu%list_elem_of_singleton]%elem_of_app;
      [specialize (Hk u Hu)|]; set_solver.
  - intros u Hu. specialize (Hd u Hu). set_solver.
  - (* skipped by extension *)
    intros u [Hu|Hu%list_elem_of_singleton]%elem_of_app;
      [specialize (Hk u Hu)|]; set_solver.
  - intros u Hu. specialize (Hd u Hu). set_solver.
  - (* dispatched *)
    intros u [Hu|Hu%list_elem_of_singleton]%elem_of_app.
    + rewrite fmap_app, elem_of_app. specialize (Hd u Hu). tauto.
    + left. rewrite fmap_app, elem_of_app. right. subst u. cbn. set_solver.
  - intros t [Ht|Ht%list_elem_of_singleton]%elem_of_app; [auto|].
    subst t. left. eexists. reflexivity.
Qed.

Lemma all_accounted s : passes s -> accounted s.
Proof.
  revert s. apply passes_induction.
  - intros s0 (_ & _ & Ha & _ & _ & _ & _ & _ & Hd & Hk & _)%start_fields.
    split; rewrite ?Ha, ?Hd, ?Hk; intros ? []%elem_of_nil.
  - intros c s s' _ Hs Hstep. eapply accounted_step; eauto.
Qed.

End Steps.
(** *** Concurrency *)

(** X1.  With [max_concurrent_tasks] not negative, at every moment of
    a crawl the tasks running, together with the item the coordinator
    has taken from the queue and not yet decided on, are at most
    [max_concurrent_tasks]. *)
Theorem tasks_in_flight_bounded
    (w : World) (cfg : Config) (base_netloc : string)
    (robots_parser : option string) (s : State) :
  0 <= max_concurrent_tasks cfg ->
  passes w cfg base_netloc robots_parser s ->
  Z.of_nat (length (active_processing_tasks s) + length (held s))
    <= max_concurrent_tasks cfg.
Proof.
  intros Hmax Hp. pose proof (in_flight_bounded _ _ _ _ s Hp) as Hb.
  unfold in_flight in Hb. lia.
Qed.

Lemma tasks_in_flight_bounded_witness :
  let s := Lab.state_after Lab.home_config Trials.pair_schedule in
  0 <= max_concurrent_tasks Lab.home_config /\
  passes Lab.world Lab.home_config "a.com" (Some Lab.robots_txt) s /\
  Z.of_nat (length (active_processing_tasks s) + length (held s))
    <= max_concurrent_tasks Lab.home_config.
Proof.
  intros s.
  refine ((fun H0 Hp => conj H0 (conj Hp
             (tasks_in_flight_bounded _ _ _ _ _ H0 Hp))) _ _).
  - vm_compute. discriminate.
  - subst s. lab_passes.
Defined.

(** X2.  With [max_concurrent_tasks = 0] and an absolute root URL,
    [crawl] never returns: the root stays on the queue, no task is
    ever created, and under no schedule does the loop reach its
    [break]. *)
Theorem crawl_without_task_slot_never_returns
    (w : World) (cfg : Config) (base_netloc : string)
    (robots_parser : option string) (s0 : State) (sched : list Choice) :
  max_concurrent_tasks cfg = 0 ->
  crawl_start w cfg = StartRunning base_netloc robots_parser s0 ->
  crawl w cfg sched = None /\
  forall s, passes w cfg base_netloc robots_parser s ->
    s = s0 /\ queue s = [(root_url cfg, 0)] /\
    active_processing_tasks s = [] /\ finished s = false.
Proof.
  intros Hmax Hstart.
  pose proof (start_fields _ _ _ _ _ Hstart)
    as (Hq & Hh & Ha & Hr & _).
  assert (Hfin : finished s0 = false)
    by (unfold finished; rewrite Hh, Hq; reflexivity).
  assert (Hrun : forall sched1 s,
            run w cfg base_netloc robots_parser sched1 s0 = Some s -> s = s0).
  { intros [|c sched1] s; cbn; [congruence|].
    rewrite (no_slot_no_step _ _ _ _ s0 c) by (lia || assumption).
    discriminate. }
  split.
  - unfold crawl. rewrite Hstart.
    destruct (run w cfg base_netloc robots_parser sched s0) as [s|] eqn:Hs;
      [|reflexivity].
    rewrite (Hrun _ _ Hs), Hr, Hfin. reflexivity.
  - intros s (s0' & sched1 & Hstart' & Hs).
    rewrite Hstart in Hstart'. injection Hstart' as <-.
    rewrite (Hrun _ _ Hs). auto.
Qed.

Lemma crawl_without_task_slot_never_returns_witness :
  max_concurrent_tasks Trials.idle_config = 0 /\
  crawl_start Lab.world Trials.idle_config =
    StartRunning "a.com" (Some Lab.robots_txt)
      (Lab.start_state Trials.idle_config) /\
  crawl Lab.world Trials.idle_config (Lab.visit 8) = None.
Proof.
  refine ((fun H0 Hs => conj H0 (conj Hs
             (proj1 (crawl_without_task_slot_never_returns
                       _ _ _ _ _ _ H0 Hs)))) _ _).
  - reflexivity.
  - vm_compute. reflexivity.
Defined.



(** *** The host *)

(** X4.  A crawl never leaves the host of its root.  Every URL it puts
    on the queue, gives a task, fetches as a page, stores or records
    in [errors] parses, and its host is the host of the root URL;
    every such URL other than the root has the scheme http or https. *)
Theorem crawl_stays_on_root_host
    (w : World) (cfg : Config) (base_netloc : string)
    (robots_parser : option string) (s : State) :
  passes w cfg base_netloc robots_parser s ->
  (exists p0, parse w (root_url cfg) = inr p0 /\ netloc p0 = base_netloc) /\
  forall u,
    u ∈ (enqueued s).*1 \/ u ∈ dispatched s \/ u ∈ page_fetches s \/
    u ∈ dom (html_contents (result s)) \/ u ∈ dom (errors (result s)) ->
    exists p, parse w u = inr p /\ netloc p = base_netloc /\
      (u = root_url cfg \/ in_list (scheme p) ["http"; "https"] = true).
Proof.
  intros Hp. pose proof Hp as (s0 & sched & Hstart & _).
  apply start_running in Hstart as (p0 & s1 & Hp0 & Hn0 & Hs0 & Hbn & _).
  split; [eauto|].
  destruct (passes_invariant _ _ _ _ _ Hp) as [Hfr Htk _ _ Hsh].
  destruct Hfr as [Hperm _ _ _]. destruct Htk as [_ _ _ Hfe Hht].
  destruct Hsh as [_ Hq He _].
  assert (Hen : forall u, u ∈ (enqueued s).*1 ->
            exists p, parse w u = inr p /\ netloc p = base_netloc /\
              (u = root_url cfg \/ in_list (scheme p) ["http"; "https"] = true)).
  { intros u ([u' d] & -> & Hin)%list_elem_of_fmap. cbn.
    destruct (Hq u' d Hin) as [[-> _]|[Hl _]].
    - exists p0. auto.
    - destruct (link_on_host w base_netloc u' Hbn Hl) as (r & ? & ? & ?).
      exists r. auto. }
  assert (Hdi : forall u, u ∈ dispatched s -> u ∈ (enqueued s).*1).
  { intros u Hu. rewrite Hperm. set_solver. }
  intros u [Hu|[Hu|[Hu|[Hu|Hu]]]].
  - auto.
  - auto.
  - apply Hen, Hdi, (Hfe u Hu).
  - apply Hen, Hdi, (Hfe u (Hht u Hu)).
  - destruct (He u Hu) as [Hin|[Hl _]]; [auto|].
    destruct (link_on_host w base_netloc u Hbn Hl) as (r & ? & ? & ?).
    exists r. auto.
Qed.

Lemma crawl_stays_on_root_host_witness :
  let s := Lab.state_after Lab.home_config Lab.home_schedule in
  passes Lab.world Lab.home_config "a.com" (Some Lab.robots_txt) s /\
  exists p0, parse Lab.world (root_url Lab.home_config) = inr p0 /\
             netloc p0 = "a.com".
Proof.
  intros s.
  refine ((fun Hp => conj Hp
             (proj1 (crawl_stays_on_root_host _ _ _ _ _ Hp))) _).
  subst s. lab_passes.
Defined.

(** *** The result of a completed crawl *)

(** X5.  In the result of a completed crawl [total_bytes] is the sum
    of the lengths in bytes of the pages in [html_contents]: each page
    is counted when it is stored, and no key is stored twice. *)
Theorem total_bytes_is_sum_of_stored_pages
    (w : World) (cfg : Config) (sched : list Choice) (s : State) :
  crawl w cfg sched = Some (Returned s) ->
  total_bytes (result s) = stored_bytes (html_contents (result s)).
Proof.
  intros [Hinv|(bn & rp & s1 & Hp & _ & _ & ->)]%crawl_returns.
  - unfold crawl_start in Hinv.
    destruct (parse w (root_url cfg)) as [e|p]; [discriminate|].
    destruct (String.eqb (scheme p) "" || String.eqb (netloc p) "");
      [|destruct (load_robots w cfg p (initial_state w)); discriminate].
    injection Hinv as <-. reflexivity.
  - cbn. apply (bytes_counted _ _ _ _ _ Hp).
Qed.

Lemma total_bytes_is_sum_of_stored_pages_witness :
  let s := Lab.returned_state Lab.home_config Lab.home_schedule in
  crawl Lab.world Lab.home_config Lab.home_schedule = Some (Returned s) /\
  total_bytes (result s) = stored_bytes (html_contents (result s)).
Proof.
  intros s.
  refine ((fun H => conj H
             (total_bytes_is_sum_of_stored_pages _ _ _ _ H)) _).
  vm_compute. reflexivity.
Defined.

(** X6.  Every page in [html_contents] of a completed crawl is the
    body that [fetch_url_content] returns for its URL, and that
    response has status 200 and a Content-Type that contains
    [text/html], whatever its case. *)
Theorem stored_pages_are_html_responses
    (w : World) (cfg : Config) (sched : list Choice) (s : State)
    (u body : string) :
  crawl w cfg sched = Some (Returned s) ->
  html_contents (result s) !! u = Some body ->
  exists headers,
    fetch_url_content (net w) u (user_agent cfg) (retry_limit cfg)
      (backoff_base_ms cfg) = (200, body, headers) /\
    contains "text/html" (lower (default "" (headers !! "Content-Type")))
      = true.
Proof.
  intros [Hinv|(bn & rp & s1 & Hp & _ & _ & ->)]%crawl_returns.
  - apply start_invalid in Hinv as (-> & _). rewrite lookup_empty.
    discriminate.
  - cbn. intros Hu. pose proof (stored_pages _ _ _ _ _ Hp u body Hu) as H.
    unfold html_response in H.
    destruct (fetch_url_content _ _ _ _ _) as [[st b] hd].
    destruct H as (-> & -> & Hct). eauto.
Qed.

Lemma stored_pages_are_html_responses_witness :
  let s := Lab.returned_state Lab.home_config Lab.home_schedule in
  crawl Lab.world Lab.home_config Lab.home_schedule = Some (Returned s) /\
  html_contents (result s) !! "http://a.com/b" = Some Lab.html_b /\
  exists headers,
    fetch_url_content Lab.net "http://a.com/b" "DevBridgeBot/0.1" 2 500
      = (200, Lab.html_b, headers) /\
    contains "text/html" (lower (default "" (headers !! "Content-Type")))
      = true.
Proof.
  intros s.
  refine ((fun H Hu => conj H (conj Hu
             (stored_pages_are_html_responses Lab.world Lab.home_config
                _ _ _ _ H Hu))) _ _).
  - vm_compute. reflexivity.
  - vm_compute. reflexivity.
Defined.

Lemma accounted_in_result w cfg sched s :
  crawl w cfg sched = Some (Returned s) ->
  (root_url cfg ∈ dom (html_contents (result s)) \/
   root_url cfg ∈ dom (errors (result s))) /\
  forall u, u ∈ (enqueued s).*1 ->
    u ∈ dom (html_contents (result s)) \/ u ∈ dom (errors (result s)).
Proof.
  intros [Hinv|(bn & rp & s1 & Hp & Hfin & _ & ->)]%crawl_returns.
  - apply start_invalid in Hinv as (_ & -> & _ & _ & -> & _).
    split; [right; set_solver|]. intros u []%elem_of_nil.
  - cbn.
    destruct (passes_invariant _ _ _ _ _ Hp) as [[Hperm _ _ _] _ _ _ Hsh].
    destruct (all_accounted _ _ _ _ _ Hp) as [Hk Hd _].
    unfold finished in Hfin. unfold held, task_urls in *.
    destruct (holding s1); [discriminate|].
    destruct (queue s1); [|discriminate].
    destruct (active_processing_tasks s1); [|discriminate].
    cbn in Hperm. rewrite !app_nil_r in Hperm.
    assert (Hall : forall u, u ∈ (enqueued s1).*1 ->
              u ∈ dom (html_contents (result s1)) \/
              u ∈ dom (errors (result s1))).
    { intros u. rewrite Hperm. intros [Hu|Hu]%elem_of_app.
      - destruct (Hd u Hu) as [[]%elem_of_nil|?]. assumption.
      - right. apply Hk, Hu. }
    split; [|exact Hall].
    apply Hall. destruct (sh_root _ _ _ _ Hsh) as (rest & ->). set_solver.
Qed.

(** X7.  A completed crawl accounts for every URL it took up: the
    root URL and every URL ever put on the queue is a key of
    [html_contents] or of [errors] in the result.  So the result of
    a crawl never has both dictionaries empty. *)
Theorem every_queued_url_is_accounted_for
    (w : World) (cfg : Config) (sched : list Choice) (s : State) :
  crawl w cfg sched = Some (Returned s) ->
  (root_url cfg ∈ dom (html_contents (result s)) \/
   root_url cfg ∈ dom (errors (result s))) /\
  (forall u, u ∈ (enqueued s).*1 ->
     u ∈ dom (html_contents (result s)) \/ u ∈ dom (errors (result s))) /\
  ~ (html_contents (result s) = ∅ /\ errors (result s) = ∅).
Proof.
  intros Hc. destruct (accounted_in_result _ _ _ _ Hc) as [Hroot Hall].
  split; [exact Hroot|]. split; [exact Hall|].
  intros [Hh He]. rewrite Hh, He, !dom_empty_L in Hroot. set_solver.
Qed.

Lemma every_queued_url_is_accounted_for_witness :
  let s := Lab.returned_state Lab.home_config Lab.home_schedule in
  crawl Lab.world Lab.home_config Lab.home_schedule = Some (Returned s) /\
  forall u, u ∈ (enqueued s).*1 ->
    u ∈ dom (html_contents (result s)) \/ u ∈ dom (errors (result s)).
Proof.
  intros s.
  refine ((fun H => conj H
             (proj1 (proj2 (every_queued_url_is_accounted_for _ _ _ _ H))))
            _).
  vm_compute. reflexivity.
Defined.

(** X8.  Every value of [errors] in the result of a completed crawl
    is one of the crawler's own messages: the invalid root message,
    one of the two robots messages, "Skipped due to file extension:
    <path>", "Skipped: Not HTML (Content-Type: <type>)", "HTTP Error:
    <status> - <body>" or "Processing Error: <class> - <text>". *)
Theorem errors_hold_only_crawler_messages
    (w : World) (cfg : Config) (sched : list Choice) (s : State)
    (u msg : string) :
  crawl w cfg sched = Some (Returned s) ->
  errors (result s) !! u = Some msg ->
  known_message msg.
Proof.
  intros [Hinv|(bn & rp & s1 & Hp & _ & _ & ->)]%crawl_returns.
  - apply start_invalid in Hinv as (_ & -> & _).
    intros [_ <-]%lookup_singleton_Some. left. reflexivity.
  - cbn. apply (messages_known _ _ _ _ _ Hp).
Qed.

Lemma errors_hold_only_crawler_messages_witness :
  let s := Lab.returned_state Lab.bad_config Lab.bad_schedule in
  let msg := "Processing Error: ValueError - Invalid IPv6 URL" in
  crawl Lab.world Lab.bad_config Lab.bad_schedule = Some (Returned s) /\
  errors (result s) !! "http://a.com/bad" = Some msg /\
  known_message msg.
Proof.
  intros s msg.
  refine ((fun H Hu => conj H (conj Hu
             (errors_hold_only_crawler_messages _ _ _ _ _ _ H Hu))) _ _).
  - vm_compute. reflexivity.
  - vm_compute. reflexivity.
Defined.

(** *** robots.txt *)

(** X9.  A message "Skipped by robots.txt" is recorded only for a URL
    that the robots.txt in force disallows.  When
    [respect_robots_txt] is off, or the robots.txt could not be
    fetched with status 200 and a body, no URL is blocked and no such
    message is ever recorded. *)
Theorem robots_messages_only_for_disallowed_urls
    (w : World) (cfg : Config) (base_netloc : string)
    (robots_parser : option string) (s : State) :
  passes w cfg base_netloc robots_parser s ->
  (forall u msg, errors (result s) !! u = Some msg -> robots_message msg ->
     blocked w cfg robots_parser u = true) /\
  (respect_robots_txt cfg = false -> robots_parser = None) /\
  (robots_parser = None ->
   forall u msg, errors (result s) !! u = Some msg -> ~ robots_message msg).
Proof.
  intros Hp. pose proof (robots_entries _ _ _ _ _ Hp) as Hr.
  split; [exact Hr|]. split.
  - intros Hoff. destruct Hp as (s0 & sched & Hstart & _).
    pose proof Hstart as (p & _ & Hparse & _)%start_running.
    apply (fetch_log_start _ _ _ _ _ _ Hstart Hparse), Hoff.
  - intros -> u msg Hu Hm. specialize (Hr u msg Hu Hm). discriminate.
Qed.

Lemma robots_messages_only_for_disallowed_urls_witness :
  passes Lab.world Trials.open_config "a.com" None Trials.open_state /\
  forall u msg, errors (result Trials.open_state) !! u = Some msg ->
                ~ robots_message msg.
Proof.
  refine ((fun Hp => conj Hp
             (proj2 (proj2 (robots_messages_only_for_disallowed_urls
                              _ _ _ _ _ Hp)) eq_refl)) _).
  exists (Lab.start_state Trials.open_config), Trials.open_schedule.
  split; vm_compute; reflexivity.
Defined.

(** X10.  The Fetcher is called for robots.txt at most once in a
    crawl, before any page: once, for [/robots.txt] on the scheme and
    host of the root, when [respect_robots_txt] is set; never when it
    is off.  Every later call is the fetch of a page by a task. *)
Theorem robots_txt_is_fetched_first_and_once
    (w : World) (cfg : Config) (base_netloc : string)
    (robots_parser : option string) (s : State) (p : ParseResult) :
  passes w cfg base_netloc robots_parser s ->
  parse w (root_url cfg) = inr p ->
  fetch_log s =
    (if respect_robots_txt cfg
     then [RobotsFetch
             (urlunparse (mkParse (scheme p) (netloc p) "/robots.txt"
                            (params p) "" ""))]
     else []) ++ (PageFetch <$> page_fetches s).
Proof.
  intros Hp Hparse.
  rewrite (fetch_log_ordered _ _ _ _ s p Hp Hparse).
  unfold robots_calls, robots_url. destruct p. reflexivity.
Qed.

Lemma robots_txt_is_fetched_first_and_once_witness :
  let s := Lab.state_after Lab.home_config Lab.home_schedule in
  let p := mkParse "http" "a.com" "/" "" "" "" in
  passes Lab.world Lab.home_config "a.com" (Some Lab.robots_txt) s /\
  parse Lab.world (root_url Lab.home_config) = inr p /\
  fetch_log s =
    [RobotsFetch "http://a.com/robots.txt"] ++
    (PageFetch <$> page_fetches s).
Proof.
  intros s p.
  refine ((fun Hp Hparse => conj Hp (conj Hparse
             (robots_txt_is_fetched_first_and_once _ _ _ _ s p Hp Hparse)))
            _ _).
  - subst s. lab_passes.
  - vm_compute. reflexivity.
Defined.

(** *** What a crawl keeps *)

(** X11.  From one state of a crawl to any later one, a page in
    [html_contents] is neither replaced nor removed, and no key of
    [errors] is removed. *)
Theorem stored_pages_and_error_keys_are_kept
    (w : World) (cfg : Config) (base_netloc : string)
    (robots_parser : option string) (sched : list Choice) (s s' : State) :
  passes w cfg base_netloc robots_parser s ->
  run w cfg base_netloc robots_parser sched s = Some s' ->
  (forall u body, html_contents (result s) !! u = Some body ->
                  html_contents (result s') !! u = Some body) /\
  dom (errors (result s)) ⊆ dom (errors (result s')).
Proof.
  intros Hp Hrun. split.
  - apply map_subseteq_spec. eapply html_run; eauto.
  - eapply errors_dom_run; eauto.
Qed.

Lemma stored_pages_and_error_keys_are_kept_witness :
  let s := Lab.state_after Lab.home_config (Lab.visit 8) in
  let s' := Lab.state_after Lab.home_config Lab.home_schedule in
  passes Lab.world Lab.home_config "a.com" (Some Lab.robots_txt) s /\
  run Lab.world Lab.home_config "a.com" (Some Lab.robots_txt)
    (Lab.visit 2) s = Some s' /\
  dom (errors (result s)) ⊆ dom (errors (result s')).
Proof.
  intros s s'.
  refine ((fun Hp Hrun => conj Hp (conj Hrun
             (proj2 (stored_pages_and_error_keys_are_kept
                       _ _ _ _ _ _ _ Hp Hrun)))) _ _).
  - subst s. lab_passes.
  - vm_compute. reflexivity.
Defined.

(** X12.  The result of a completed crawl carries the two readings
    of the clock, so with a monotonic clock [elapsed_ms] is never
    negative; it is their difference in milliseconds unless one of
    the readings is exactly 0, and then it is 0. *)
Theorem elapsed_ms_of_a_completed_crawl
    (w : World) (cfg : Config) (sched : list Choice) (s : State) :
  crawl w cfg sched = Some (Returned s) ->
  start_time (result s) = time_at_start w /\
  end_time (result s) = time_at_end w /\
  ((time_at_start w <= time_at_end w)%Q -> (0 <= elapsed_ms (result s))%Q) /\
  (~ (time_at_start w == 0)%Q -> ~ (time_at_end w == 0)%Q ->
   elapsed_ms (result s) = ((time_at_end w - time_at_start w) * 1000)%Q) /\
  ((time_at_start w == 0)%Q \/ (time_at_end w == 0)%Q ->
   elapsed_ms (result s) = 0%Q).
Proof.
  intros Hc.
  assert (Ht : start_time (result s) = time_at_start w /\
               end_time (result s) = time_at_end w).
  { apply crawl_returns in Hc
      as [Hinv|(bn & rp & s1 & Hp & _ & _ & ->)].
    - apply start_invalid in Hinv as (_ & _ & _ & _ & _ & ? & ? & _). auto.
    - cbn. split; [apply (start_time_kept _ _ _ _ _ Hp)|reflexivity]. }
  destruct Ht as [Hs He]. split; [exact Hs|]. split; [exact He|].
  unfold elapsed_ms. rewrite Hs, He.
  destruct (truthy_spec (time_at_start w)) as [[E1 N1]|[E1 Z1]];
    destruct (truthy_spec (time_at_end w)) as [[E2 N2]|[E2 Z2]];
    rewrite E1, E2; cbn.
  - split; [intros Hle; nra|]. split; [reflexivity|].
    intros [H|H]; contradiction.
  - split; [intros _; apply Qle_refl|]. split; [contradiction|reflexivity].
  - split; [intros _; apply Qle_refl|].
    split; [intros H; contradiction|reflexivity].
  - split; [intros _; apply Qle_refl|].
    split; [intros H; contradiction|reflexivity].
Qed.

Lemma elapsed_ms_of_a_completed_crawl_witness :
  let s := Lab.returned_state Lab.home_config Lab.home_schedule in
  crawl Lab.world Lab.home_config Lab.home_schedule = Some (Returned s) /\
  start_time (result s) = time_at_start Lab.world /\
  end_time (result s) = time_at_end Lab.world.
Proof.
  intros s.
  refine ((fun H => conj H
             (conj (proj1 (elapsed_ms_of_a_completed_crawl _ _ _ _ H))
                (proj1 (proj2 (elapsed_ms_of_a_completed_crawl _ _ _ _ H)))))
            _).
  vm_compute. reflexivity.
Defined.

(** *** A negative [retry_limit] *)

(** X16.  With a negative [retry_limit], [fetch_url_content] makes no
    request: it returns status 500, the body "Unknown fetch error (for
    <url>)" and no headers.  A crawl with a negative [retry_limit]
    therefore stores no page, and every URL it puts on the queue ends
    as a key of [errors]. *)
Theorem negative_retry_limit_fetches_nothing
    (w : World) (cfg : Config) (sched : list Choice) (s : State) :
  retry_limit cfg < 0 ->
  (forall u,
     fetch_run (net w) u (user_agent cfg) (retry_limit cfg)
       (backoff_base_ms cfg) =
     mkRun (500, "Unknown fetch error" +:+ " (for " +:+ u +:+ ")", ∅)
       0 []) /\
  (crawl w cfg sched = Some (Returned s) ->
   html_contents (result s) = ∅ /\
   forall u, u ∈ (enqueued s).*1 -> u ∈ dom (errors (result s))).
Proof.
  intros Hneg.
  assert (Hrun : forall u,
            fetch_run (net w) u (user_agent cfg) (retry_limit cfg)
              (backoff_base_ms cfg) =
            mkRun (500, "Unknown fetch error" +:+ " (for " +:+ u +:+ ")", ∅)
              0 []).
  { intros u. unfold fetch_run.
    replace (Z.to_nat (retry_limit cfg + 1)) with 0%nat by lia.
    reflexivity. }
  split; [exact Hrun|]. intros Hc.
  assert (Hempty : html_contents (result s) = ∅).
  { apply map_empty. intros u.
    destruct (html_contents (result s) !! u) as [body|] eqn:Hu; [|reflexivity].
    exfalso. revert Hu.
    destruct (crawl_returns _ _ _ _ Hc)
      as [Hinv|(bn & rp & s1 & Hp & _ & _ & ->)].
    - apply start_invalid in Hinv as (-> & _). rewrite lookup_empty.
      discriminate.
    - cbn. intros Hu. pose proof (stored_pages _ _ _ _ _ Hp u body Hu) as H.
      unfold html_response, fetch_url_content in H. rewrite Hrun in H.
      cbn in H. destruct H as [H _]. discriminate H. }
  split; [exact Hempty|]. intros u Hu.
  destruct (accounted_in_result _ _ _ _ Hc) as [_ Hall].
  destruct (Hall u Hu) as [Hh|He]; [|exact He].
  rewrite Hempty, dom_empty_L in Hh. set_solver.
Qed.

Lemma negative_retry_limit_fetches_nothing_witness :
  let s := Lab.returned_state Trials.hasty_config (Lab.visit 1) in
  retry_limit Trials.hasty_config < 0 /\
  crawl Lab.world Trials.hasty_config (Lab.visit 1) = Some (Returned s) /\
  html_contents (result s) = ∅.
Proof.
  intros s.
  refine ((fun Hn Hc => conj Hn (conj Hc
             (proj1 (proj2 (negative_retry_limit_fetches_nothing
                              _ _ _ _ Hn) Hc)))) _ _).
  - reflexivity.
  - vm_compute. reflexivity.
Defined.

End LedgerFacts.
(** ** The crawler: termination *)

Module TerminationFacts.
Import PyStr UrlLib Fetcher Crawler Terms Invariants Ledger CrawlerFacts
  LedgerFacts.
#[local] Set Warnings "-clear-no-such-hyp".

Lemma sum_lookup {A} (f : A -> nat) (l : list A) i x :
  l !! i = Some x ->
  sum_list_with f l = (f x + sum_list_with f (delete i l))%nat.
Proof.
  intros H. rewrite (delete_Permutation _ _ _ H) at 1. reflexivity.
Qed.

Lemma sum_insert {A} (f : A -> nat) (l : list A) i x y :
  l !! i = Some x ->
  sum_list_with f (<[i:=y]> l) = (f y + sum_list_with f (delete i l))%nat.
Proof.
  intros H. rewrite (insert_Permutation _ _ _ _ H). reflexivity.
Qed.

Section Work.
Variable w : World.
Variable cfg : Config.
Variable base_netloc : string.
Variable robots_parser : option string.

Local Abbreviation step := (step w cfg base_netloc robots_parser).
Local Abbreviation passes := (passes w cfg base_netloc robots_parser).
Local Abbreviation work := (work w cfg base_netloc).
Local Abbreviation work_url := (work_url w cfg base_netloc).
Local Abbreviation work_task := (work_task w cfg base_netloc).

Lemma levels_succ d : levels cfg (d + 1) = pred (levels cfg d).
Proof. unfold levels. lia. Qed.

Lemma levels_below d :
  (d <? max_depth cfg) = true -> levels cfg d = S (pred (levels cfg d)).
Proof. intros H%Z.ltb_lt. unfold levels. lia. Qed.

Lemma work_url_least r u : (5 <= work_url r u)%nat.
Proof. destruct r; cbn; lia. Qed.

Lemma work_url_unfold r u :
  work_url r u =
    (5 + match r with
         | O => 0
         | S r' =>
             match fetched_page w cfg u with
             | Some html =>
                 work_hrefs w base_netloc (work_url r') u (hrefs_of_page w html)
             | None => 0
             end
         end)%nat.
Proof. destruct r; reflexivity. Qed.

Lemma fetched_page_stored u status html headers :
  fetch_url_content (net w) u (user_agent cfg) (retry_limit cfg)
    (backoff_base_ms cfg) = (status, html, headers) ->
  negb (contains "text/html" (lower (default "" (headers !! "Content-Type"))))
    = false ->
  (status =? 200) = true ->
  fetched_page w cfg u = Some html.
Proof.
  intros Hf Hc%negb_false_iff Hs. unfold fetched_page.
  rewrite Hf, Hc, Hs. reflexivity.
Qed.

Lemma work_step c s s' :
  step c s = Some s' -> raised s' = None -> (work s' < work s)%nat.
Proof.
  intros Hstep Hr. split_step Hstep.
  all: unfold Ledger.work, processing_error, finish, suspend; cbn.
  all: repeat match goal with
       | H : holding _ = _ |- _ => rewrite H
       | H : queue _ = _ |- _ => rewrite H
       end; cbn.
  all: try match goal with
       | H : active_processing_tasks ?s !! ?i = Some ?t |- _ =>
           rewrite ?(sum_insert work_task _ _ _ _ H);
           rewrite (sum_lookup work_task _ _ _ H)
       end.
  all: rewrite ?sum_list_with_app; cbn.
  all: unfold work_item; cbn.
  all: try match goal with
       | |- context [Ledger.work_url ?w ?c ?b (levels ?c ?d) ?u] =>
           pose proof (work_url_least (levels c d) u)
       end.
  all: try lia.
  all: try (cbn in Hr; discriminate Hr).
  all: unfold work_hrefs, candidate, hrefs_of_page; cbn.
  all: repeat match goal with
       | H : examine_link _ _ _ _ = _ |- _ => rewrite H
       | H : soup_hrefs _ _ = _ |- _ => rewrite H
       end; cbn.
  all: rewrite ?levels_succ.
  all: try lia.
  - (* the page is stored *)
    rewrite (work_url_unfold (levels cfg depth) url).
    erewrite fetched_page_stored by eassumption.
    unfold work_hrefs, candidate, hrefs_of_page.
    destruct (levels cfg depth); cbn; lia.
  - (* the links of the page are taken up *)
    rewrite (levels_below depth) by assumption. cbn. lia.
Qed.

(** Every run is at most as long as the work left at its start. *)
Lemma work_run sched s s' :
  passes s -> run w cfg base_netloc robots_parser sched s = Some s' ->
  (length sched + work s' <= work s)%nat.
Proof.
  revert s. induction sched as [|c sched IH]; intros s Hp Hrun.
  - injection Hrun as <-. cbn. lia.
  - cbn in Hrun. destruct (step c s) as [s1|] eqn:Hs; [|discriminate].
    pose proof (passes_step _ _ _ _ _ _ _ Hp Hs) as Hp1.
    pose proof (work_step _ _ _ Hs (never_raised _ _ _ _ _ Hp1)).
    specialize (IH s1 Hp1 Hrun). cbn. lia.
Qed.

(** With a task slot, a crawl can always be run to its end. *)
Lemma can_finish n s :
  1 <= max_concurrent_tasks cfg -> passes s -> (work s <= n)%nat ->
  exists sched s',
    run w cfg base_netloc robots_parser sched s = Some s' /\
    finished s' = true.
Proof.
  intros Hmax. revert s. induction n as [|n IH]; intros s Hp Hn.
  all: destruct (finished s) eqn:Hfin;
    [exists [], s; split; [reflexivity|exact Hfin]|].
  all: destruct (step_enabled w cfg base_netloc robots_parser s
                   (never_raised _ _ _ _ _ Hp) Hmax Hfin) as (c & s1 & Hs).
  all: pose proof (passes_step _ _ _ _ _ _ _ Hp Hs) as Hp1.
  all: pose proof (work_step _ _ _ Hs (never_raised _ _ _ _ _ Hp1)) as Hlt.
  - lia.
  - destruct (IH s1 Hp1 ltac:(lia)) as (sched & s' & Hrun & Hf).
    exists (c :: sched), s'. split; [|exact Hf]. cbn. rewrite Hs. exact Hrun.
Qed.
End Work.



End TerminationFacts.
(** ** The Fetcher: backoff *)

Module BackoffFacts.
Import Fetcher Terms Ledger FetcherFacts.

Lemma total_app l1 l2 : (total (l1 ++ l2) == total l1 + total l2)%Q.
Proof.
  unfold total. induction l1 as [|x l1 IH]; cbn [app fold_right].
  - ring.
  - rewrite IH. ring.
Qed.

(** The sleeps before the first [k] retries add up to
    [backoff_base_ms * (2^k - 1)] milliseconds. *)
Lemma total_backoff backoff_base_ms k :
  (total (map (sleep_duration backoff_base_ms) (seq 0 k)) * 1000 ==
   inject_Z (backoff_base_ms * (2 ^ Z.of_nat k - 1)))%Q.
Proof.
  induction k as [|k IH].
  - cbn. ring_simplify. rewrite Z.mul_0_r. reflexivity.
  - rewrite seq_S, map_app, total_app. cbn [map total fold_right Nat.add].
    rewrite Qmult_plus_distr_l, IH, Qplus_0_r, sleep_duration_ms.
    rewrite <- inject_Z_plus. apply inject_Z_injective.
    rewrite Nat2Z.inj_succ, Z.pow_succ_r by lia. ring.
Qed.




End BackoffFacts.
(** ** Deepwiki URLs: what [construct_deepwiki_url] returns *)

Module DeepwikiFacts.
Import PyStr UrlLib Crawler Invariants DeepwikiHelpers UrlFacts.

Lemma filter_chars_app q a b :
  filter_chars q (a +:+ b) = filter_chars q a +:+ filter_chars q b.
Proof.
  induction a as [|x a IH]; [reflexivity|].
  rewrite app_cons. cbn. destruct (q x); rewrite IH; reflexivity.
Qed.

(** *** [rstrip] and [strip] *)

Lemma rstrip_cons p c s :
  rstrip p (String c s) =
    match rstrip p s with
    | EmptyString => if p c then EmptyString else String c EmptyString
    | rest => String c rest
    end.
Proof. reflexivity. Qed.

Lemma rstrip_no_trailing_slash s : endswith "/" (rstrip is_slash s) = false.
Proof.
  induction s as [|c s IH]; [reflexivity|]. rewrite rstrip_cons.
  destruct (rstrip is_slash s) as [|d r] eqn:E.
  - destruct (is_slash c) eqn:Hc; [reflexivity|].
    unfold is_slash in Hc. cbn. rewrite Hc. reflexivity.
  - change (endswith "/" (String c (String d r)))
      with (String.eqb (String c (String d r)) "/" ||
            endswith "/" (String d r)).
    rewrite IH. cbn [String.eqb].
    destruct (Ascii.eqb c "/"); reflexivity.
Qed.

Lemma lstrip_no_leading_slash s : startswith "/" (lstrip is_slash s) = false.
Proof.
  induction s as [|c s IH]; [reflexivity|]. cbn [lstrip].
  destruct (is_slash c) eqn:Hc; [exact IH|].
  unfold startswith. cbn [String.prefix].
  destruct (ascii_dec "/" c) as [<-|]; [discriminate|reflexivity].
Qed.

Lemma rstrip_keeps_head s :
  startswith "/" s = false -> startswith "/" (rstrip is_slash s) = false.
Proof.
  destruct s as [|c s]; [reflexivity|]. rewrite rstrip_cons.
  unfold startswith. cbn [String.prefix]. intros H.
  destruct (ascii_dec "/" c) as [<-|Hne].
  { destruct s; discriminate H. }
  destruct (rstrip is_slash s); [destruct (is_slash c)|]; cbn [String.prefix];
    try reflexivity.
  all: destruct (ascii_dec "/" c); [contradiction|reflexivity].
Qed.

(** What [rstrip] removes is slashes only. *)
Lemma rstrip_removed s :
  exists t, s = rstrip is_slash s +:+ t /\ all_chars is_slash t = true.
Proof.
  induction s as [|c s (t & Hs & Ht)]; [exists ""; auto|].
  rewrite rstrip_cons. destruct (rstrip is_slash s) as [|d r] eqn:E.
  - destruct (is_slash c) eqn:Hc.
    + exists (String c t). split; [rewrite Hs at 1; reflexivity|].
      cbn. rewrite Hc, Ht. reflexivity.
    + exists t. split; [rewrite Hs at 1; reflexivity|exact Ht].
  - exists t. split; [rewrite Hs at 1; reflexivity|exact Ht].
Qed.

Lemma lstrip_removed s :
  exists t, s = t +:+ lstrip is_slash s /\ all_chars is_slash t = true.
Proof.
  induction s as [|c s (t & Hs & Ht)]; [exists ""; auto|]. cbn [lstrip].
  destruct (is_slash c) eqn:Hc.
  - exists (String c t). split; [rewrite Hs at 1; reflexivity|].
    cbn. rewrite Hc, Ht. reflexivity.
  - exists "". auto.
Qed.

Section Parsed.
Variable check : string -> option string.

(** An http(s) URL with a host and a path parses, whatever follows the
    slash after the host. *)
Lemma urlparse_on_host sch nl x :
  sch = "http" \/ sch = "https" ->
  all_chars hostly nl = true ->
  brackets_balanced nl = true -> check nl = None ->
  exists r,
    urlparse check (sch +:+ ":" +:+ "//" +:+ nl +:+ "/" +:+ x) = inr r /\
    scheme r = sch /\ netloc r = nl.
Proof.
  intros Hsch Hnl Hbr Hck.
  assert (Hsafe : all_chars (fun c => negb (is_unsafe c)) nl = true).
  { apply (all_chars_weaken hostly); [|exact Hnl].
    intros c [H _]%andb_prop. exact H. }
  assert (Hnd : all_chars (fun c => negb (is_netloc_delim c)) nl = true).
  { apply (all_chars_weaken hostly); [|exact Hnl].
    intros c [_ H]%andb_prop. exact H. }
  assert (Hhead : forall y,
            split_scheme
              (filter_chars (fun c => negb (is_unsafe c))
                 (lstrip is_c0_or_space (sch +:+ ":" +:+ "//" +:+ y)))
            = (sch, "//" +:+ filter_chars (fun c => negb (is_unsafe c)) y)).
  { intros y. destruct Hsch as [-> | ->]; reflexivity. }
  unfold urlparse, urlsplit. rewrite Hhead, filter_chars_app.
  rewrite (filter_chars_id _ _ Hsafe).
  change (filter_chars (fun c => negb (is_unsafe c)) ("/" +:+ x))
    with ("/" +:+ filter_chars (fun c => negb (is_unsafe c)) x).
  set (tail := "/" +:+ filter_chars (fun c => negb (is_unsafe c)) x).
  change (splitnetloc ("//" +:+ nl +:+ tail))
    with (break_on is_netloc_delim (nl +:+ tail)).
  rewrite (break_on_app _ _ _ Hnd) by reflexivity.
  rewrite Hbr, Hck. cbn [negb].
  destruct (split_opt "#" tail) as [u1 frag].
  destruct (split_opt "?" u1) as [pa q]. cbn [scheme path].
  destruct (in_list sch uses_params && has_char ";" pa).
  - destruct (splitparams pa) as [u pr]. eexists. split; [reflexivity|].
    cbn. auto.
  - eexists. split; [reflexivity|]. cbn. auto.
Qed.

(** A URL with a scheme and a host that contains [deepwiki] passes
    through [construct_deepwiki_url] unchanged. *)
Lemma construct_full_url url p base :
  urlparse check url = inr p -> scheme p <> "" -> netloc p <> "" ->
  contains "deepwiki" (lower (netloc p)) = true -> base <> "" ->
  construct_deepwiki_url check url base = inr (Some url).
Proof.
  intros Hp Hs Hn Hd Hb. unfold construct_deepwiki_url.
  assert (Hu : url <> "").
  { intros ->. cbv in Hp. destruct (check ""); [discriminate|].
    injection Hp as <-. apply Hs. reflexivity. }
  apply String.eqb_neq in Hu, Hb, Hs, Hn.
  rewrite Hu, Hb, Hp, Hs, Hn, Hd. reflexivity.
Qed.

(** What [construct_deepwiki_url] returns with the default base
    parses, with a scheme and a host that contains [deepwiki]. *)
Lemma constructed_parses repo_identifier url :
  check "deepwiki.com" = None ->
  construct_deepwiki_url check repo_identifier default_base
    = inr (Some url) ->
  exists p, urlparse check url = inr p /\
    scheme p <> "" /\ netloc p <> "" /\
    contains "deepwiki" (lower (netloc p)) = true.
Proof.
  intros Hck. unfold construct_deepwiki_url.
  destruct (String.eqb repo_identifier ""); [discriminate|].
  cbn [String.eqb default_base].
  destruct (urlparse check repo_identifier) as [e|p] eqn:Hp; [discriminate|].
  destruct (negb (String.eqb (scheme p) "") &&
            negb (String.eqb (netloc p) "")) eqn:Hfull.
  - destruct (contains "deepwiki" (lower (netloc p))) eqn:Hd; [|discriminate].
    intros [= <-]. exists p.
    apply andb_prop in Hfull as [Hs%negb_true_iff Hn%negb_true_iff].
    apply String.eqb_neq in Hs, Hn. auto.
  - intros [= <-].
    destruct (urlparse_on_host "https" "deepwiki.com"
                (strip is_slash repo_identifier))
      as (r & Hr & Hs & Hn); [auto|reflexivity|reflexivity|exact Hck|].
    exists r. split; [exact Hr|]. rewrite Hs, Hn.
    split; [discriminate|]. split; [discriminate|reflexivity].
Qed.
End Parsed.

(** X17.  The URL that [construct_deepwiki_url] builds with its
    default base is a root that [crawl] accepts: it parses, with a
    scheme and a host whose name contains [deepwiki], so the crawl
    does not end with "Invalid root_url" and its loop starts on that
    host.  Passed to [construct_deepwiki_url] again, with any base,
    the URL comes back unchanged. *)
Theorem constructed_url_is_a_valid_root
    (w : World) (cfg : Config) (repo_identifier url : string) :
  netloc_check w "deepwiki.com" = None ->
  construct_deepwiki_url (netloc_check w) repo_identifier default_base
    = inr (Some url) ->
  root_url cfg = url ->
  (exists base_netloc robots_parser s0,
     crawl_start w cfg = StartRunning base_netloc robots_parser s0 /\
     contains "deepwiki" (lower base_netloc) = true) /\
  (forall base, base <> "" ->
     construct_deepwiki_url (netloc_check w) url base = inr (Some url)).
Proof.
  intros Hck Hc Hroot.
  destruct (constructed_parses _ _ _ Hck Hc) as (p & Hp & Hs & Hn & Hd).
  split.
  - unfold crawl_start, parse. rewrite Hroot, Hp.
    apply String.eqb_neq in Hs, Hn. rewrite Hs, Hn. cbn [orb].
    destruct (load_robots w cfg p (initial_state w)) as [rp s1].
    eauto.
  - intros base Hb. eapply construct_full_url; eauto.
Qed.

Lemma constructed_url_is_a_valid_root_witness :
  let cfg := Lab.config "https://deepwiki.com/psf/requests" 1 in
  netloc_check Lab.world "deepwiki.com" = None /\
  construct_deepwiki_url (netloc_check Lab.world) "/psf/requests/"
    default_base = inr (Some "https://deepwiki.com/psf/requests") /\
  exists base_netloc robots_parser s0,
    crawl_start Lab.world cfg = StartRunning base_netloc robots_parser s0 /\
    contains "deepwiki" (lower base_netloc) = true.
Proof.
  intros cfg.
  refine ((fun Hk Hc => conj Hk (conj Hc
             (proj1 (constructed_url_is_a_valid_root Lab.world cfg
                       "/psf/requests/" _ Hk Hc eq_refl)))) _ _).
  - reflexivity.
  - vm_compute. reflexivity.
Defined.

(** X18.  [construct_deepwiki_url] returns [None] for an empty
    identifier or an empty base, and for a URL with a scheme and a
    host that does not contain [deepwiki].  Whenever it returns a
    URL, either the identifier was such a URL on a Deepwiki host and
    is returned as it is, or the URL is the base without its
    trailing slashes, one slash, and the identifier without its
    leading and trailing slashes; nothing but slashes is removed. *)
Theorem construct_deepwiki_url_joins_with_one_slash
    (check : string -> option string)
    (repo_identifier base_deepwiki_url : string) :
  (repo_identifier = "" \/ base_deepwiki_url = "" ->
   construct_deepwiki_url check repo_identifier base_deepwiki_url
     = inr None) /\
  (forall p, urlparse check repo_identifier = inr p ->
     scheme p <> "" -> netloc p <> "" ->
     contains "deepwiki" (lower (netloc p)) = false ->
     construct_deepwiki_url check repo_identifier base_deepwiki_url
       = inr None) /\
  (forall url,
     construct_deepwiki_url check repo_identifier base_deepwiki_url
       = inr (Some url) ->
     (url = repo_identifier /\
      exists p, urlparse check repo_identifier = inr p /\
        scheme p <> "" /\ netloc p <> "" /\
        contains "deepwiki" (lower (netloc p)) = true) \/
     (exists b path_part l r t,
        url = b +:+ "/" +:+ path_part /\
        base_deepwiki_url = b +:+ t /\
        repo_identifier = l +:+ path_part +:+ r /\
        all_chars is_slash t = true /\ all_chars is_slash l = true /\
        all_chars is_slash r = true /\
        endswith "/" b = false /\
        startswith "/" path_part = false /\
        endswith "/" path_part = false)).
Proof.
  unfold construct_deepwiki_url. split; [|split].
  - intros [-> | ->]; [reflexivity|].
    destruct (String.eqb repo_identifier ""); reflexivity.
  - intros p Hp Hs Hn Hd. apply String.eqb_neq in Hs, Hn.
    rewrite Hp, Hs, Hn, Hd.
    destruct (String.eqb repo_identifier "");
      [|destruct (String.eqb base_deepwiki_url "")]; reflexivity.
  - intros url.
    destruct (String.eqb repo_identifier ""); [discriminate|].
    destruct (String.eqb base_deepwiki_url ""); [discriminate|].
    destruct (urlparse check repo_identifier) as [e|p] eqn:Hp; [discriminate|].
    destruct (negb (String.eqb (scheme p) "") &&
              negb (String.eqb (netloc p) "")) eqn:Hfull.
    + destruct (contains "deepwiki" (lower (netloc p))) eqn:Hd;
        [|discriminate].
      intros [= <-]. left. split; [reflexivity|]. exists p.
      apply andb_prop in Hfull as [Hs%negb_true_iff Hn%negb_true_iff].
      apply String.eqb_neq in Hs, Hn. auto.
    + intros [= <-]. right.
      destruct (rstrip_removed base_deepwiki_url) as (t & Hb & Ht).
      destruct (lstrip_removed repo_identifier) as (l & Hl & Hlt).
      destruct (rstrip_removed (lstrip is_slash repo_identifier))
        as (r & Hr & Hrt).
      exists (rstrip is_slash base_deepwiki_url),
        (strip is_slash repo_identifier), l, r, t.
      split; [reflexivity|]. split; [exact Hb|]. split.
      { unfold strip. rewrite <- Hr. exact Hl. }
      split; [exact Ht|]. split; [exact Hlt|]. split; [exact Hrt|].
      split; [apply rstrip_no_trailing_slash|]. split.
      * apply rstrip_keeps_head, lstrip_no_leading_slash.
      * apply rstrip_no_trailing_slash.
Qed.

End DeepwikiFacts.
(** ** The crawler: where the queue entries come from *)

Module ProvenanceFacts.
Import PyStr UrlLib Fetcher Crawler Terms Invariants Ledger CrawlerFacts
  LedgerFacts.
#[local] Set Warnings "-clear-no-such-hyp".

Section Steps.
Variable w : World.
Variable cfg : Config.
Variable base_netloc : string.
Variable robots_parser : option string.

Local Abbreviation step := (step w cfg base_netloc robots_parser).
Local Abbreviation passes := (passes w cfg base_netloc robots_parser).
Local Abbreviation provenance := (provenance w cfg base_netloc).
Local Abbreviation found_on := (found_on w cfg base_netloc).

(** What a step puts on the queue. *)
Lemma enqueued_step c s s' :
  step c s = Some s' ->
  enqueued s' = enqueued s \/
  exists i u d href rest l,
    active_processing_tasks s !! i = Some (Expanding u d (href :: rest)) /\
    candidate w base_netloc u href = Some l /\
    enqueued s' = enqueued s ++ [(l, d + 1)].
Proof.
  intros Hstep. split_step Hstep; try (left; reflexivity).
  right. unfold candidate. eexists _, _, _, _, _, _.
  split; [eassumption|]. split; [|reflexivity].
  match goal with H : examine_link _ _ _ _ = _ |- _ => rewrite H end.
  reflexivity.
Qed.

(** What a step does to the tasks. *)
Lemma tasks_step_shape c s s' :
  step c s = Some s' ->
  active_processing_tasks s' = active_processing_tasks s \/
  (exists u d, active_processing_tasks s' =
                 active_processing_tasks s ++ [Fetching u d]) \/
  exists i t,
    active_processing_tasks s !! i = Some t /\
    (active_processing_tasks s' = delete i (active_processing_tasks s) \/
     exists t',
       active_processing_tasks s' = <[i:=t']> (active_processing_tasks s) /\
       ((exists u d html,
           t = Fetching u d /\ t' = Stored u d html /\
           html_contents (result s') !! u = Some html) \/
        (exists u d html hrefs,
           t = Stored u d html /\ t' = Expanding u d hrefs /\
           soup_hrefs w html = inr hrefs) \/
        (exists u d href rest,
           t = Expanding u d (href :: rest) /\ t' = Expanding u d rest))).
Proof.
  intros Hstep. split_step Hstep.
  all: try (left; reflexivity).
  all: try (right; left; eexists _, _; reflexivity).
  all: right; right; eexists _, _; (split; [eassumption|]).
  all: try (left; reflexivity).
  all: right; eexists; (split; [reflexivity|]).
  - left. eexists _, _, _. split; [reflexivity|]. split; [reflexivity|].
    cbn. apply lookup_insert_eq.
  - right. left. eexists _, _, _, _. eauto.
  - right. right. eexists _, _, _, _. eauto.
  - right. right. eexists _, _, _, _. eauto.
  - right. right. eexists _, _, _, _. eauto.
  - right. right. eexists _, _, _, _. eauto.
  - right. right. eexists _, _, _, _. eauto.
  - right. right. eexists _, _, _, _. eauto.
Qed.

Lemma found_on_mono s s' l d u :
  (forall x, x ∈ enqueued s -> x ∈ enqueued s') ->
  html_contents (result s) ⊆ html_contents (result s') ->
  found_on s l d u -> found_on s' l d u.
Proof.
  intros He Hh (html & hrefs & href & Hin & Hd & Hu & Hs & Hr & Hc).
  exists html, hrefs, href. split; [apply He, Hin|]. split; [exact Hd|].
  split; [eapply lookup_weaken; eauto|]. auto.
Qed.

Lemma provenance_step c s s' :
  passes s -> provenance s -> step c s = Some s' -> provenance s'.
Proof.
  intros Hp [Hq Hst Hex] Hstep.
  destruct (passes_invariant _ _ _ _ _ Hp) as [_ Htk _ _ Hsh].
  pose proof (html_step _ _ _ _ c s s' Htk Hstep) as Hsub.
  assert (Hen : forall x, x ∈ enqueued s -> x ∈ enqueued s').
  { intros x Hx.
    destruct (enqueued_step _ _ _ Hstep) as [->|(? & ? & ? & ? & ? & ? & _ & _ & ->)];
      [exact Hx|apply elem_of_app; left; exact Hx]. }
  assert (Hst1 : forall u d html,
            Stored u d html ∈ active_processing_tasks s ->
            html_contents (result s') !! u = Some html).
  { intros u d html Ht. eapply lookup_weaken; [eapply Hst, Ht|exact Hsub]. }
  assert (Hex1 : forall u d hrefs,
            Expanding u d hrefs ∈ active_processing_tasks s ->
            exists html done,
              html_contents (result s') !! u = Some html /\
              soup_hrefs w html = inr (done ++ hrefs)).
  { intros u d hrefs Ht. destruct (Hex u d hrefs Ht) as (html & done & Hu & Hs).
    exists html, done. split; [eapply lookup_weaken; eauto|exact Hs]. }
  split.
  - intros l d Hin.
    destruct (enqueued_step _ _ _ Hstep)
      as [Heq|(i & u & d0 & href & rest & l0 & Hi & Hc & Heq)];
      rewrite Heq in Hin.
    + destruct (Hq l d Hin) as [?|[u Hf]]; [left; assumption|].
      right. exists u. eapply found_on_mono; eauto.
    + apply elem_of_app in Hin as [Hin|Hin%list_elem_of_singleton].
      * destruct (Hq l d Hin) as [?|[u' Hf]]; [left; assumption|].
        right. exists u'. eapply found_on_mono; eauto.
      * injection Hin as -> ->. right. exists u.
        replace (d0 + 1 - 1) with d0 by lia.
        pose proof (list_elem_of_lookup_2 _ _ _ Hi) as Ht.
        destruct (Hex1 _ _ _ Ht) as (html & done & Hu & Hs).
        destruct (tk_dispatched _ Htk _ Ht) as [_ Hin].
        exists html, (done ++ href :: rest), href.
        split; [apply Hen, Hin|].
        split; [apply (sh_expanding _ _ _ _ Hsh _ _ _ Ht)|].
        split; [exact Hu|]. split; [exact Hs|]. split; [set_solver|exact Hc].
  - intros u d html Ht.
    destruct (tasks_step_shape _ _ _ Hstep)
      as [Heq|[(u0 & d0 & Heq)|(i & t & Hi & [Heq|(t' & Heq & Hnext)])]];
      rewrite Heq in Ht.
    + eauto.
    + apply elem_of_app in Ht as [Ht|Ht%list_elem_of_singleton];
        [eauto|discriminate].
    + apply list_elem_of_delete_inv in Ht. eauto.
    + apply elem_of_insert_inv in Ht as [Ht|Ht]; [|eauto].
      destruct Hnext as [(? & ? & ? & _ & -> & Hu)|
                         [(? & ? & ? & ? & _ & -> & _)|
                          (? & ? & ? & ? & _ & ->)]];
        try discriminate.
      injection Ht as -> -> ->. exact Hu.
  - intros u d hrefs Ht.
    destruct (tasks_step_shape _ _ _ Hstep)
      as [Heq|[(u0 & d0 & Heq)|(i & t & Hi & [Heq|(t' & Heq & Hnext)])]];
      rewrite Heq in Ht.
    + eauto.
    + apply elem_of_app in Ht as [Ht|Ht%list_elem_of_singleton];
        [eauto|discriminate].
    + apply list_elem_of_delete_inv in Ht. eauto.
    + apply elem_of_insert_inv in Ht as [Ht|Ht]; [|eauto].
      pose proof (list_elem_of_lookup_2 _ _ _ Hi) as Hold.
      destruct Hnext as [(? & ? & ? & _ & -> & Hu)|
                         [(u1 & d1 & html & hs & -> & -> & Hs)|
                          (u1 & d1 & href & rest & -> & ->)]];
        try discriminate.
      * injection Ht as -> -> ->. exists html, [].
        split; [eapply Hst1, Hold|exact Hs].
      * injection Ht as -> -> ->.
        destruct (Hex1 _ _ _ Hold) as (html & done & Hu & Hs).
        exists html, (done ++ [href]). split; [exact Hu|].
        rewrite <- app_assoc. exact Hs.
Qed.

Lemma provenance_kept s : passes s -> provenance s.
Proof.
  revert s. apply passes_induction.
  - intros s0 (_ & _ & Ha & _ & _ & _ & _ & _ & _ & _ & He)%start_fields.
    split; rewrite ?Ha, ?He.
    + intros l d ->%list_elem_of_singleton. left. reflexivity.
    + intros ? ? ? []%elem_of_nil.
    + intros ? ? ? []%elem_of_nil.
  - intros c s s' Hp Hpv Hstep. eapply provenance_step; eauto.
Qed.
End Steps.

(** X19.  Nothing gets on the queue but the root and links found on
    stored pages: every URL ever put on the queue at a depth [d]
    other than the root at depth 0 is the normalized link of an
    [href] of a page in [html_contents], put on the queue itself at
    depth [d - 1], below [max_depth]; the link is on the host of the
    root, http or https, and its path has none of the skipped
    extensions. *)
Theorem queued_urls_come_from_stored_pages
    (w : World) (cfg : Config) (base_netloc : string)
    (robots_parser : option string) (s : State) (l : string) (d : Z) :
  passes w cfg base_netloc robots_parser s ->
  (l, d) ∈ enqueued s ->
  (l, d) = (root_url cfg, 0) \/
  exists u html hrefs href absolute_link parsed_link,
    (u, d - 1) ∈ enqueued s /\ d - 1 < max_depth cfg /\
    html_contents (result s) !! u = Some html /\
    soup_hrefs w html = inr hrefs /\ href ∈ hrefs /\
    urljoin w u href = inr absolute_link /\
    parse w absolute_link = inr parsed_link /\
    has_non_html_extension (lower (path parsed_link)) = false /\
    netloc parsed_link = base_netloc /\
    in_list (scheme parsed_link) ["http"; "https"] = true /\
    l = urlunparse (replace_fragment "" parsed_link).
Proof.
  intros Hp Hin.
  destruct (pv_enqueued _ _ _ _ (provenance_kept _ _ _ _ _ Hp) l d Hin)
    as [?|(u & html & hrefs & href & Hu & Hd & Hh & Hs & Hr & Hc)];
    [left; assumption|].
  right. exists u, html, hrefs, href.
  unfold candidate, examine_link in Hc.
  destruct (String.eqb href "" || startswith "mailto:" href ||
            startswith "tel:" href || startswith "javascript:" href);
    [discriminate|].
  destruct (urljoin w u href) as [e|a]; [discriminate|].
  destruct (parse w a) as [e|p] eqn:Hpa; [discriminate|].
  destruct (has_non_html_extension (lower (path p))) eqn:Hx; [discriminate|].
  destruct (String.eqb (netloc p) base_netloc &&
            in_list (scheme p) ["http"; "https"]) eqn:Hh2; [|discriminate].
  injection Hc as <-. apply andb_prop in Hh2 as [Hn%String.eqb_eq Hsch].
  exists a, p. repeat split; auto.
Qed.

Lemma queued_urls_come_from_stored_pages_witness :
  let s := Lab.state_after Lab.home_config Lab.home_schedule in
  passes Lab.world Lab.home_config "a.com" (Some Lab.robots_txt) s /\
  ("http://a.com/b", 1) ∈ enqueued s /\
  (("http://a.com/b", 1) = (root_url Lab.home_config, 0) \/
   exists u html hrefs href absolute_link parsed_link,
     (u, 1 - 1) ∈ enqueued s /\ 1 - 1 < max_depth Lab.home_config /\
     html_contents (result s) !! u = Some html /\
     soup_hrefs Lab.world html = inr hrefs /\ href ∈ hrefs /\
     urljoin Lab.world u href = inr absolute_link /\
     parse Lab.world absolute_link = inr parsed_link /\
     has_non_html_extension (lower (path parsed_link)) = false /\
     netloc parsed_link = "a.com" /\
     in_list (scheme parsed_link) ["http"; "https"] = true /\
     "http://a.com/b" = urlunparse (replace_fragment "" parsed_link)).
Proof.
  intros s.
  refine ((fun Hp Hin => conj Hp (conj Hin
             (queued_urls_come_from_stored_pages _ _ _ _ _ _ _ Hp Hin)))
            _ _).
  - subst s. lab_passes.
  - vm_compute. repeat constructor.
Defined.

End ProvenanceFacts.
(** ** The crawler: progress events *)

Module ProgressFacts.
Import PyStr UrlLib Fetcher Crawler Terms Invariants Ledger CrawlerFacts
  LedgerFacts.
#[local] Set Warnings "-clear-no-such-hyp".

Section Steps.
Variable w : World.
Variable cfg : Config.
Variable base_netloc : string.
Variable robots_parser : option string.

Local Abbreviation step := (step w cfg base_netloc robots_parser).
Local Abbreviation passes := (passes w cfg base_netloc robots_parser).

Lemma progress_frame s s' evs :
  events s' = events s ++ evs -> omap progress_of evs = [] ->
  html_contents (result s') = html_contents (result s) ->
  progress_ok s -> progress_ok s'.
Proof.
  intros He Hn Hh [Hl Hev].
  split; unfold progress_events in *;
    rewrite He, omap_app, Hn, app_nil_r, Hh; assumption.
Qed.

Lemma progress_step c s s' :
  emit_progress cfg = true -> tasks_ok s ->
  progress_ok s -> step c s = Some s' -> progress_ok s'.
Proof.
  intros Hemit Htk Hpg Hstep. split_step Hstep.
  all: unfold processing_error, emit; rewrite ?Hemit.
  all: try (eapply (progress_frame s _ []);
            [cbn; rewrite ?app_nil_r; reflexivity|reflexivity|reflexivity
            |assumption]).
  all: try (eapply (progress_frame s _ [_]);
            [cbn; reflexivity|reflexivity|reflexivity|assumption]).
  - eapply (progress_frame s _ [_; _]);
      [cbn; rewrite <- app_assoc; reflexivity|reflexivity|reflexivity
      |assumption].
  - (* the page is stored *)
    pose proof (fetching_not_stored s _ _ _ Htk Heqo0) as Hnew.
    apply not_elem_of_dom in Hnew.
    match goal with H : (_ =? 200) = true |- _ => apply Z.eqb_eq in H end.
    subst. destruct Hpg as [Hl Hev].
    split; unfold progress_events in *; cbn;
      rewrite !omap_app; cbn; rewrite app_nil_r.
    + rewrite length_app, Hl, map_size_insert_None by exact Hnew.
      cbn. lia.
    + intros k u bytes status n Hk.
      apply lookup_app_Some in Hk as [Hk|[Hge Hk]].
      * destruct (Hev _ _ _ _ _ Hk) as (? & ? & body & Hu & ?).
        split; [assumption|]. split; [assumption|]. exists body.
        split; [|assumption]. rewrite lookup_insert_ne; [exact Hu|].
        intros <-. congruence.
      * apply list_lookup_singleton_Some in Hk as [Hk0 Heq].
        injection Heq as <- <- <- <-.
        split; [reflexivity|]. split.
        -- rewrite map_size_insert_None by exact Hnew. f_equal. lia.
        -- eexists. rewrite lookup_insert_eq. split; reflexivity.
  - eapply (progress_frame s _ [_; _]);
      [cbn; rewrite <- app_assoc; reflexivity|reflexivity|reflexivity
      |assumption].
Qed.

Lemma progress_kept s :
  emit_progress cfg = true -> passes s -> progress_ok s.
Proof.
  intros Hemit. revert s. apply passes_induction.
  - intros s0 Hstart.
    pose proof (start_fields _ _ _ _ _ Hstart)
      as (_ & _ & _ & _ & Hh & _).
    apply start_running in Hstart as (p & s1 & _ & _ & _ & _ & Hl & ->).
    assert (Hev : progress_events s1 = []).
    { unfold load_robots, emit, progress_events in *.
      destruct (respect_robots_txt cfg); [|injection Hl as _ ->; reflexivity].
      destruct (fetch_url_content _ _ _ _ _) as [[st body] hd].
      destruct ((st =? 200) && negb (String.eqb body ""));
        injection Hl as _ ->; cbn; destruct (emit_progress cfg); reflexivity. }
    split; unfold progress_events in *; cbn in *; rewrite Hev.
    + rewrite Hh, map_size_empty. reflexivity.
    + intros k u b st n Hk. rewrite lookup_nil in Hk. discriminate.
  - intros c s s' Hp Hpg Hstep. eapply progress_step; eauto.
    apply (passes_invariant _ _ _ _ _ Hp).
Qed.
End Steps.

(** X20.  With an observer, a crawl emits exactly one progress event
    per page it stores, in the order of storing: the events are as
    many as the keys of [html_contents], and event number [k],
    counted from 0, carries the URL of a stored page, the length in
    bytes of that page, the status 200 and the fetched count
    [k + 1]. *)
Theorem one_progress_event_per_stored_page
    (w : World) (cfg : Config) (base_netloc : string)
    (robots_parser : option string) (s : State) :
  emit_progress cfg = true ->
  passes w cfg base_netloc robots_parser s ->
  length (progress_events s) = size (html_contents (result s)) /\
  forall k u bytes status fetched_count,
    progress_events s !! k = Some (u, bytes, status, fetched_count) ->
    status = 200 /\ fetched_count = Z.of_nat (S k) /\
    exists body, html_contents (result s) !! u = Some body /\
                 bytes = Z.of_nat (String.length body).
Proof.
  intros Hemit Hp.
  destruct (progress_kept _ _ _ _ s Hemit Hp) as [Hl Hev]. auto.
Qed.

Lemma one_progress_event_per_stored_page_witness :
  let s := Lab.state_after Lab.home_config Lab.home_schedule in
  emit_progress Lab.home_config = true /\
  passes Lab.world Lab.home_config "a.com" (Some Lab.robots_txt) s /\
  length (progress_events s) = size (html_contents (result s)).
Proof.
  intros s.
  refine ((fun He Hp => conj He (conj Hp
             (proj1 (one_progress_event_per_stored_page _ _ _ _ _ He Hp))))
            _ _).
  - reflexivity.
  - subst s. lab_passes.
Defined.

End ProgressFacts.
(** ** urllib.parse: the round trip of a normalized link *)

Module RoundTripFacts.
Import PyStr UrlLib Invariants Ledger UrlFacts.

(** *** Characters of a string *)

Lemma has_char_app c a b :
  has_char c (a +:+ b) = has_char c a || has_char c b.
Proof.
  induction a as [|x a IH]; [reflexivity|].
  rewrite app_cons. cbn. rewrite IH, orb_assoc. reflexivity.
Qed.

Lemma has_char_none c s :
  has_char c s = false <->
  all_chars (fun d => negb (Ascii.eqb c d)) s = true.
Proof.
  induction s as [|x s IH]; [tauto|]. cbn.
  rewrite (Ascii.eqb_sym x c), orb_false_iff, andb_true_iff, negb_true_iff, IH.
  tauto.
Qed.

Lemma app_empty_r (a : string) : a +:+ "" = a.
Proof.
  induction a as [|x a IH]; [reflexivity|]. rewrite app_cons, IH. reflexivity.
Qed.

Lemma starts_with_prefix q a b :
  a <> "" -> starts_with q (a +:+ b) -> starts_with q a.
Proof. destruct a as [|x a]; [contradiction|]. intros _ H. exact H. Qed.

(** *** [split1], [split_opt] *)

Lemma split1_spec c s :
  match split1 c s with
  | Some (a, b) => s = a +:+ String c b /\ has_char c a = false
  | None => has_char c s = false
  end.
Proof.
  unfold split1. destruct (break_on_spec (Ascii.eqb c) s) as (Hs & Ha & Hb).
  destruct (break_on (Ascii.eqb c) s) as [a [|x b]]; cbn in *.
  - rewrite app_empty_r in Hs. subst a. apply has_char_none, Ha.
  - apply Ascii.eqb_eq in Hb. subst x. split; [exact Hs|].
    apply has_char_none, Ha.
Qed.

Lemma split1_none c s : has_char c s = false -> split1 c s = None.
Proof.
  intros H. pose proof (split1_spec c s) as Hs.
  destruct (split1 c s) as [[a b]|]; [|reflexivity].
  destruct Hs as [-> _]. rewrite has_char_app in H. cbn in H.
  rewrite Ascii.eqb_refl, orb_true_r in H. discriminate.
Qed.

Lemma split1_app c a b :
  has_char c a = false -> split1 c (a +:+ String c b) = Some (a, b).
Proof.
  intros H. unfold split1.
  rewrite (break_on_app (Ascii.eqb c) a (String c b)).
  - reflexivity.
  - apply has_char_none, H.
  - cbn. apply Ascii.eqb_refl.
Qed.

(** The part before the separator starts as the string does. *)
Lemma split_opt_head c q s :
  starts_with q s ->
  starts_with (fun x => q x && negb (Ascii.eqb c x)) (fst (split_opt c s)).
Proof.
  intros H. unfold split_opt. pose proof (split1_spec c s) as Hs.
  destruct (split1 c s) as [[a b]|]; cbn.
  - destruct Hs as [-> Ha]. destruct a as [|x a]; [exact I|].
    cbn in *. apply orb_false_iff in Ha as [Hx _].
    rewrite H, (Ascii.eqb_sym c x), Hx. reflexivity.
  - destruct s as [|x s]; [exact I|]. cbn in *.
    apply orb_false_iff in Hs as [Hx _].
    rewrite H, (Ascii.eqb_sym c x), Hx. reflexivity.
Qed.

(** *** [last_segment], [splitparams] *)

Lemma last_segment_app x y' :
  has_char "/" y' = false ->
  last_segment (x +:+ String "/" y') = (x, String "/" y').
Proof.
  intros H. induction x as [|c x IH].
  - rewrite app_nil. cbn [last_segment]. rewrite H. reflexivity.
  - rewrite app_cons. cbn [last_segment].
    rewrite has_char_app. cbn [has_char]. rewrite Ascii.eqb_refl.
    cbn [orb]. rewrite orb_true_r, IH. reflexivity.
Qed.

Lemma last_segment_none s :
  has_char "/" s = false -> last_segment s = ("", s).
Proof.
  destruct s as [|c s]; [reflexivity|]. cbn.
  intros [_ H]%orb_false_iff. rewrite H. reflexivity.
Qed.

Lemma last_segment_slash s :
  has_char "/" s = true ->
  exists seg', snd (last_segment s) = String "/" seg' /\
               has_char "/" seg' = false.
Proof.
  induction s as [|c s IH]; [discriminate|]. cbn.
  destruct (has_char "/" s) eqn:Hs.
  - intros _. destruct (IH eq_refl) as (seg' & Hseg & Hno).
    destruct (last_segment s) as [a b]. cbn in *. eauto.
  - rewrite orb_false_r. intros ->%Ascii.eqb_eq. cbn. eauto.
Qed.

Lemma last_segment_shape s :
  (exists seg', snd (last_segment s) = String "/" seg' /\
                has_char "/" seg' = false) \/
  (fst (last_segment s) = "" /\ has_char "/" (snd (last_segment s)) = false).
Proof.
  destruct (has_char "/" s) eqn:Hs.
  - left. apply last_segment_slash, Hs.
  - right. rewrite (last_segment_none s Hs). auto.
Qed.

(** Splitting the parameters off again, after [urlunparse] has put
    them back, gives the same path and parameters. *)
Lemma splitparams_again url :
  let '(pa, pr) := splitparams url in
  let url1 := if negb (String.eqb pr "") then pa +:+ ";" +:+ pr else pa in
  (if has_char ";" url1 then splitparams url1 else (url1, "")) = (pa, pr).
Proof.
  unfold splitparams at 1.
  pose proof (last_segment_spec url) as Hurl.
  pose proof (last_segment_shape url) as Hshape.
  destruct (last_segment url) as [dir seg] eqn:Hl. cbn [fst snd] in *.
  pose proof (split1_spec ";" seg) as Hseg.
  destruct (split1 ";" seg) as [[a b]|] eqn:Hsplit.
  - destruct Hseg as [-> Ha].
    destruct (String.eqb b "") eqn:Hb; cbn [negb].
    + apply String.eqb_eq in Hb. subst b.
      destruct (has_char ";" (dir +:+ a)) eqn:Hsemi; [|reflexivity].
      assert (Hl1 : last_segment (dir +:+ a) = (dir, a)).
      { destruct Hshape as [(seg' & Hs & Hno)|[-> Hno]].
        - destruct a as [|x a]; [discriminate Hs|].
          rewrite app_cons in Hs. injection Hs as -> Hs.
          apply last_segment_app.
          rewrite <- Hs, has_char_app in Hno.
          apply orb_false_iff in Hno as [Hno _]. exact Hno.
        - rewrite app_nil. apply last_segment_none.
          rewrite has_char_app in Hno.
          apply orb_false_iff in Hno as [Hno _]. exact Hno. }
      unfold splitparams. rewrite Hl1, (split1_none _ _ Ha). reflexivity.
    + assert (Heq : (dir +:+ a) +:+ ";" +:+ b = url).
      { rewrite Hurl, app_assoc_s. reflexivity. }
      rewrite Heq.
      assert (Hsemi : has_char ";" url = true).
      { rewrite Hurl, !has_char_app. cbn [has_char].
        rewrite Ascii.eqb_refl. cbn [orb]. rewrite !orb_true_r.
        reflexivity. }
      rewrite Hsemi. unfold splitparams. rewrite Hl, Hsplit. reflexivity.
  - cbn [String.eqb negb].
    destruct (has_char ";" url) eqn:Hsemi; [|reflexivity].
    unfold splitparams. rewrite Hl, Hsplit. reflexivity.
Qed.

Lemma rooted_prefix a b : rooted (a +:+ b) -> a <> "" -> rooted a.
Proof.
  destruct a as [|x a]; [contradiction|]. intros [H|H] _; [discriminate|].
  right. unfold startswith in *. rewrite app_cons in H.
  cbn [String.prefix] in *. destruct (ascii_dec "/" x); [|discriminate].
  destruct a; reflexivity.
Qed.

Lemma starts_with_rooted s :
  starts_with (fun x => is_netloc_delim x && negb (Ascii.eqb "#" x) &&
                        negb (Ascii.eqb "?" x)) s ->
  rooted s.
Proof.
  destruct s as [|x s]; [left; reflexivity|]. cbn [starts_with].
  intros H. right. unfold is_netloc_delim in H.
  rewrite (Ascii.eqb_sym "#" x), (Ascii.eqb_sym "?" x) in H.
  destruct (Ascii.eqb_spec x "/") as [->|_].
  - destruct s; reflexivity.
  - destruct (Ascii.eqb x "?"), (Ascii.eqb x "#"); discriminate.
Qed.

Lemma startswith_slash_app a b :
  startswith "/" a = true -> startswith "/" (a +:+ b) = true.
Proof.
  destruct a as [|x a]; [discriminate|]. unfold startswith.
  rewrite app_cons. cbn [String.prefix].
  destruct (ascii_dec "/" x); [|discriminate]. intros _.
  destruct (a +:+ b); reflexivity.
Qed.

Lemma splitparams_rooted url :
  startswith "/" url = true -> startswith "/" (fst (splitparams url)) = true.
Proof.
  intros H. unfold splitparams.
  pose proof (last_segment_spec url) as Hurl.
  destruct (last_segment url) as [dir seg]. cbn [fst snd] in Hurl.
  pose proof (split1_spec ";" seg) as Hseg.
  destruct (split1 ";" seg) as [[a b]|]; [|exact H]. cbn [fst].
  destruct Hseg as [-> _].
  destruct (rooted_prefix (dir +:+ a) (String ";" b)) as [He|Hr].
  - right. rewrite app_assoc_s, <- Hurl. exact H.
  - intros He. rewrite Hurl, <- app_assoc_s, He in H. discriminate.
  - rewrite Hurl, <- app_assoc_s in H.
    destruct (dir +:+ a); [discriminate H|discriminate He].
  - exact Hr.
Qed.

Section Parsed.
Variable check : string -> option string.

(** The path [urlsplit] returns beside a host is empty or starts with
    a slash, and has no question mark. *)
Lemma urlsplit_path url r :
  urlsplit check url = inr r -> netloc r <> "" ->
  rooted (path r) /\ has_char "?" (path r) = false.
Proof.
  unfold urlsplit.
  destruct (split_scheme _) as [sch url1].
  assert (Hnl : fst (splitnetloc url1) <> "" ->
                starts_with is_netloc_delim (snd (splitnetloc url1))).
  { unfold splitnetloc.
    destruct url1 as [|c1 [|c2 rest]]; try (intros []; reflexivity).
    destruct (Ascii.eqb c1 "/" && Ascii.eqb c2 "/");
      [|intros []; reflexivity].
    intros _. apply break_on_spec. }
  destruct (splitnetloc url1) as [nl url2]. cbn [fst snd] in Hnl.
  destruct (negb (brackets_balanced nl)); [discriminate|].
  destruct (check nl); [discriminate|].
  pose proof (fun H => split_opt_head "#" _ url2 (Hnl H)) as H3.
  destruct (split_opt "#" url2) as [url3 frag]. cbn [fst] in H3.
  pose proof (fun H => split_opt_head "?" _ url3 (H3 H)) as H4.
  pose proof (split1_spec "?" url3) as Hq. unfold split_opt in *.
  destruct (split1 "?" url3) as [[pa q]|]; cbn [fst] in H4;
    intros [= <-]; cbn [netloc path]; intros Hne.
  - split; [apply starts_with_rooted, H4, Hne|apply Hq].
  - split; [apply starts_with_rooted, H4, Hne|exact Hq].
Qed.

(** What [urlparse] returns for an http(s) URL with a host. *)
Lemma urlparse_http url p :
  urlparse check url = inr p ->
  scheme p = "http" \/ scheme p = "https" -> netloc p <> "" ->
  let url1 := if negb (String.eqb (params p) "")
              then path p +:+ ";" +:+ params p else path p in
  rooted url1 /\ has_char "?" url1 = false /\
  (if has_char ";" url1 then splitparams url1 else (url1, ""))
    = (path p, params p).
Proof.
  unfold urlparse.
  destruct (urlsplit check url) as [e|r] eqn:Hr; [discriminate|].
  destruct (urlsplit_parts _ _ _ Hr) as (_ & _ & _ & _ & _ & Hpr).
  assert (Huses : forall sch, sch = "http" \/ sch = "https" ->
                              in_list sch uses_params = true)
    by (intros sch [-> | ->]; reflexivity).
  destruct (in_list (scheme r) uses_params && has_char ";" (path r)) eqn:Hc.
  - apply andb_prop in Hc as [_ Hsemi].
    pose proof (splitparams_again (path r)) as Hagain.
    pose proof (splitparams_rooted (path r)) as Hroot.
    pose proof (splitparams_parts (fun d => negb (Ascii.eqb "?" d)) (path r))
      as Hparts.
    destruct (splitparams (path r)) as [u pa]. intros [= <-].
    cbn [scheme netloc path params fst snd] in *. intros Hs Hn.
    destruct (urlsplit_path _ _ Hr Hn) as [Hrooted Hq].
    assert (Hslash : startswith "/" (path r) = true).
    { destruct Hrooted as [He|H]; [|exact H].
      rewrite He in Hsemi. discriminate. }
    specialize (Hroot Hslash).
    destruct (Hparts (proj1 (has_char_none _ _) Hq)) as [Hu Hpa].
    apply has_char_none in Hu, Hpa.
    split; [|split; [|exact Hagain]].
    + right. destruct (negb (String.eqb pa "")); [|exact Hroot].
      apply startswith_slash_app, Hroot.
    + destruct (negb (String.eqb pa "")); [|exact Hu].
      rewrite !has_char_app, Hu, Hpa. reflexivity.
  - intros [= <-]. intros Hs Hn. rewrite Hpr. cbn [String.eqb negb].
    destruct (urlsplit_path _ _ Hr Hn) as [Hrooted Hq].
    rewrite (Huses _ Hs) in Hc. cbn in Hc. rewrite Hc.
    repeat split; assumption.
Qed.

Lemma urlsplit_rebuilt_full sch nl url1 q :
  sch = "http" \/ sch = "https" ->
  all_chars hostly nl = true ->
  brackets_balanced nl = true -> check nl = None ->
  all_chars clean url1 = true -> has_char "?" url1 = false ->
  rooted url1 -> all_chars clean q = true ->
  urlsplit check
    (sch +:+ ":" +:+ "//" +:+ nl +:+ url1 +:+
     (if negb (String.eqb q "") then "?" +:+ q else ""))
    = inr (mkParse sch nl url1 "" q "").
Proof.
  intros Hsch Hnl Hbr Hck Hurl Hnoq Hroot Hq.
  set (tail := url1 +:+ (if negb (String.eqb q "") then "?" +:+ q else "")).
  assert (Htail : all_chars clean tail = true).
  { subst tail. rewrite all_chars_app, Hurl.
    destruct (negb (String.eqb q "")); [|reflexivity].
    rewrite all_chars_app, Hq. reflexivity. }
  assert (Hstart : starts_with is_netloc_delim tail).
  { subst tail. destruct Hroot as [->|Hr].
    - rewrite app_nil. destruct (negb (String.eqb q "")); exact I || reflexivity.
    - destruct url1 as [|x url1]; [discriminate|]. rewrite app_cons.
      unfold startswith in Hr. cbn [String.prefix] in Hr. cbn.
      destruct (ascii_dec "/" x) as [<-|]; [reflexivity|discriminate]. }
  assert (Hsafe : all_chars (fun c => negb (is_unsafe c)) (nl +:+ tail) = true).
  { rewrite all_chars_app.
    rewrite (all_chars_weaken hostly _ nl), (all_chars_weaken clean _ tail);
      auto; intros c [H _]%andb_prop; exact H. }
  assert (Hnd : all_chars (fun c => negb (is_netloc_delim c)) nl = true).
  { apply (all_chars_weaken hostly); [|exact Hnl].
    intros c [_ H]%andb_prop. exact H. }
  assert (Hnh : all_chars (fun d => negb (Ascii.eqb "#" d)) tail = true).
  { apply (all_chars_weaken clean); [|exact Htail].
    intros c [_ H]%andb_prop. exact H. }
  assert (Hhead : forall x,
            split_scheme
              (filter_chars (fun c => negb (is_unsafe c))
                 (lstrip is_c0_or_space (sch +:+ ":" +:+ "//" +:+ x)))
            = (sch, "//" +:+ filter_chars (fun c => negb (is_unsafe c)) x)).
  { intros x. destruct Hsch as [-> | ->]; reflexivity. }
  unfold urlsplit. fold tail. rewrite Hhead, (filter_chars_id _ _ Hsafe).
  change (splitnetloc ("//" +:+ nl +:+ tail))
    with (break_on is_netloc_delim (nl +:+ tail)).
  rewrite (break_on_app _ _ _ Hnd Hstart), Hbr, Hck. cbn [negb].
  rewrite (split_opt_none _ _ Hnh).
  assert (Hsplit : split_opt "?" tail = (url1, q)).
  { subst tail. unfold split_opt. destruct (String.eqb q "") eqn:E; cbn [negb].
    - apply String.eqb_eq in E. subst q. rewrite app_empty_r.
      rewrite (split1_none _ _ Hnoq). reflexivity.
    - change ("?" +:+ q) with (String "?" q).
      rewrite (split1_app _ _ _ Hnoq). reflexivity. }
  rewrite Hsplit. reflexivity.
Qed.

(** The round trip: the normalized link that [process_single_url]
    builds from a parsed http(s) link with a host parses back to the
    parts it was built from. *)
Lemma normalized_link_round_trip a p :
  urlparse check a = inr p ->
  netloc p <> "" -> in_list (scheme p) ["http"; "https"] = true ->
  urlparse check (urlunparse (replace_fragment "" p))
    = inr (replace_fragment "" p).
Proof.
  intros Hp Hne Hs%in_http_https.
  destruct (urlparse_parts _ _ _ Hp) as (Hn & Hb & Hc & Hpa & Hpr & Hq).
  destruct (urlparse_http _ _ Hp Hs Hne) as (Hroot & Hnoq & Hagain).
  destruct p as [sch nl pa pr q fr].
  cbn [scheme netloc path params query fragment replace_fragment] in *.
  set (url1 := if negb (String.eqb pr "") then pa +:+ ";" +:+ pr else pa) in *.
  assert (Hclean : all_chars clean url1 = true).
  { subst url1. destruct (negb (String.eqb pr "")); [|exact Hpa].
    rewrite !all_chars_app, Hpa, Hpr. reflexivity. }
  assert (Hun : urlunparse (mkParse sch nl pa pr q "") =
                sch +:+ ":" +:+ "//" +:+ nl +:+ url1 +:+
                (if negb (String.eqb q "") then "?" +:+ q else "")).
  { unfold urlunparse, urlunsplit.
    cbn [scheme netloc path params query fragment]. fold url1.
    apply String.eqb_neq in Hne. rewrite Hne. cbn [negb orb].
    assert (Hsn : String.eqb sch "" = false)
      by (destruct Hs as [-> | ->]; reflexivity).
    rewrite Hsn. cbn [negb String.eqb].
    assert (Hkeep : (if negb (String.eqb url1 "") && negb (startswith "/" url1)
                     then "/" +:+ url1 else url1) = url1).
    { destruct Hroot as [Hr|Hr]; rewrite Hr; [reflexivity|].
      rewrite andb_false_r. reflexivity. }
    rewrite Hkeep. destruct (negb (String.eqb q "")).
    - rewrite !app_assoc_s. reflexivity.
    - rewrite app_empty_r. reflexivity. }
  change (replace_fragment "" (mkParse sch nl pa pr q fr))
    with (mkParse sch nl pa pr q "").
  rewrite Hun. unfold urlparse.
  rewrite (urlsplit_rebuilt_full sch nl url1 q Hs Hn Hb Hc Hclean Hnoq Hroot Hq).
  cbn [scheme path netloc query fragment].
  assert (Huses : in_list sch uses_params = true)
    by (destruct Hs as [-> | ->]; reflexivity).
  rewrite Huses. cbn [andb].
  destruct (has_char ";" url1).
  - rewrite Hagain. reflexivity.
  - injection Hagain as -> <-. reflexivity.
Qed.
End Parsed.

End RoundTripFacts.
(** ** The crawler: normalized links and the extension check *)

Module NormalFacts.
Import PyStr UrlLib Fetcher Crawler Terms Invariants Ledger CrawlerFacts
  LedgerFacts ProvenanceFacts.
#[local] Set Warnings "-clear-no-such-hyp".

Section Steps.
Variable w : World.
Variable cfg : Config.
Variable base_netloc : string.
Variable robots_parser : option string.

Local Abbreviation step := (step w cfg base_netloc robots_parser).
Local Abbreviation passes := (passes w cfg base_netloc robots_parser).

Lemma skipped_step c s s' :
  skipped_ok w cfg robots_parser s -> step c s = Some s' ->
  skipped_ok w cfg robots_parser s'.
Proof.
  intros Hk Hstep. split_step Hstep; try assumption.
  all: intros v; cbn;
    intros [Hv|Hv%list_elem_of_singleton]%elem_of_app; [apply Hk, Hv|].
  all: subst v; eauto.
Qed.

Lemma skipped_reasons s : passes s -> skipped_ok w cfg robots_parser s.
Proof.
  revert s. apply passes_induction.
  - intros s0 (_ & _ & _ & _ & _ & _ & _ & _ & _ & Hk & _)%start_fields u.
    rewrite Hk. intros []%elem_of_nil.
  - intros c s s' _ Hs Hstep. eapply skipped_step; eauto.
Qed.

Lemma extension_entries_step c s s' :
  extension_entries_ok w s -> step c s = Some s' ->
  extension_entries_ok w s'.
Proof.
  intros He Hstep. split_step Hstep; try assumption.
  all: unfold processing_error; intros v msg; cbn;
    rewrite lookup_insert_Some; intros [[<- <-]|[_ H]].
  all: try (intros Hpre; destruct (He _ _ H Hpre) as [Hin Hp];
            split; [set_solver|exact Hp]).
  all: try (intros Hpre; vm_compute in Hpre; discriminate Hpre).
  intros _. split; [set_solver|eauto].
Qed.

Lemma extension_entries s : passes s -> extension_entries_ok w s.
Proof.
  revert s. apply passes_induction.
  - intros s0 (_ & _ & _ & _ & _ & He & _)%start_fields u msg.
    rewrite He, lookup_empty. discriminate.
  - intros c s s' _ Hs Hstep. eapply extension_entries_step; eauto.
Qed.

(** A link on the queue parses back to the parts it was built from. *)
Lemma queued_link_parts s l d :
  passes s -> (l, d) ∈ enqueued s -> (l, d) <> (root_url cfg, 0) ->
  exists p,
    parse w l = inr p /\ urlunparse p = l /\ fragment p = "" /\
    netloc p = base_netloc /\
    in_list (scheme p) ["http"; "https"] = true /\
    has_non_html_extension (lower (path p)) = false.
Proof.
  intros Hp Hin Hne. pose proof Hp as (s0 & sched & Hstart & _).
  apply start_running in Hstart as (_ & _ & _ & _ & _ & Hbn & _).
  destruct (pv_enqueued _ _ _ _ (provenance_kept _ _ _ _ _ Hp) l d Hin)
    as [?|(u & html & hrefs & href & _ & _ & _ & _ & _ & Hc)];
    [contradiction|].
  unfold candidate, examine_link in Hc.
  destruct (String.eqb href "" || startswith "mailto:" href ||
            startswith "tel:" href || startswith "javascript:" href);
    [discriminate|].
  destruct (urljoin w u href) as [e|a]; [discriminate|].
  destruct (parse w a) as [e|p] eqn:Hpa; [discriminate|].
  destruct (has_non_html_extension (lower (path p))) eqn:Hx; [discriminate|].
  destruct (String.eqb (netloc p) base_netloc &&
            in_list (scheme p) ["http"; "https"]) eqn:Hh; [|discriminate].
  injection Hc as <-. apply andb_prop in Hh as [Hn%String.eqb_eq Hsch].
  exists (replace_fragment "" p).
  split; [|destruct p; cbn in *; auto].
  apply (RoundTripFacts.normalized_link_round_trip _ a); [exact Hpa| |exact Hsch].
  rewrite Hn. exact Hbn.
Qed.
End Steps.

(** X21.  Normalizing is a round trip.  Every link a crawl puts on
    the queue parses back to the parts it was built from: it has no
    fragment, the host of the root, the scheme http or https and a
    path with none of the skipped extensions, and [urlunparse] of its
    parts is the link itself, so normalizing it again changes
    nothing. *)
Theorem queued_links_are_fixed_points_of_normalization
    (w : World) (cfg : Config) (base_netloc : string)
    (robots_parser : option string) (s : State) (l : string) (d : Z) :
  passes w cfg base_netloc robots_parser s ->
  (l, d) ∈ enqueued s -> 0 < d ->
  exists p,
    parse w l = inr p /\
    urlunparse (replace_fragment "" p) = l /\ fragment p = "" /\
    netloc p = base_netloc /\
    in_list (scheme p) ["http"; "https"] = true /\
    has_non_html_extension (lower (path p)) = false.
Proof.
  intros Hp Hin Hd.
  destruct (queued_link_parts _ _ _ _ s l d Hp Hin)
    as (p & Hparse & Hun & Hf & Hrest).
  { intros [= _ ->]. lia. }
  exists p. split; [exact Hparse|]. split; [|auto].
  transitivity (urlunparse p); [|exact Hun].
  destruct p; cbn in Hf |- *. rewrite Hf. reflexivity.
Qed.

Lemma queued_links_are_fixed_points_of_normalization_witness :
  let s := Lab.state_after Lab.home_config Lab.home_schedule in
  passes Lab.world Lab.home_config "a.com" (Some Lab.robots_txt) s /\
  ("http://a.com/b", 1) ∈ enqueued s /\ 0 < 1 /\
  exists p,
    parse Lab.world "http://a.com/b" = inr p /\
    urlunparse (replace_fragment "" p) = "http://a.com/b" /\
    fragment p = "" /\ netloc p = "a.com" /\
    in_list (scheme p) ["http"; "https"] = true /\
    has_non_html_extension (lower (path p)) = false.
Proof.
  intros s.
  refine ((fun Hp Hin Hd => conj Hp (conj Hin (conj Hd
             (queued_links_are_fixed_points_of_normalization
                _ _ _ _ _ _ _ Hp Hin Hd)))) _ _ _).
  - subst s. lab_passes.
  - vm_compute. repeat constructor.
  - reflexivity.
Defined.

(** X22.  The extension check the coordinator makes when it takes an
    item from the queue can only reject the root URL: the links of a
    page are checked before they are put on the queue, and their
    normalized form has the same path.  So an item rejected at the
    queue is the root or disallowed by robots.txt, and an entry
    "Skipped due to file extension: ..." in [errors] is keyed by the
    root URL. *)
Theorem only_the_root_is_skipped_by_extension
    (w : World) (cfg : Config) (base_netloc : string)
    (robots_parser : option string) (s : State) :
  passes w cfg base_netloc robots_parser s ->
  (forall u, u ∈ skipped s ->
     u = root_url cfg \/ blocked w cfg robots_parser u = true) /\
  (forall u msg, errors (result s) !! u = Some msg ->
     startswith "Skipped due to file extension: " msg = true ->
     u = root_url cfg).
Proof.
  intros Hp.
  destruct (passes_invariant _ _ _ _ _ Hp) as [[Hperm _ _ _] _ _ _ _].
  assert (Hext : forall u p, u ∈ skipped s -> parse w u = inr p ->
            has_non_html_extension (lower (path p)) = true ->
            u = root_url cfg).
  { intros u p Hu Hparse Hx.
    assert (Hin : u ∈ (enqueued s).*1) by (rewrite Hperm; set_solver).
    apply list_elem_of_fmap in Hin as ([u' d] & Heq & Hin).
    cbn [fst] in Heq. subst u'.
    destruct (decide ((u, d) = (root_url cfg, 0))) as [[= -> _]|Hne];
      [reflexivity|].
    destruct (queued_link_parts _ _ _ _ s u d Hp Hin Hne)
      as (p' & Hp' & _ & _ & _ & _ & Hx').
    rewrite Hp' in Hparse. injection Hparse as Heq.
    rewrite Heq, Hx in Hx'. discriminate. }
  split.
  - intros u Hu.
    destruct (skipped_reasons _ _ _ _ s Hp u Hu) as [Hb|(p & Hparse & Hx)];
      [right; exact Hb|left; eauto].
  - intros u msg Hmsg Hpre.
    destruct (extension_entries _ _ _ _ s Hp u msg Hmsg Hpre)
      as (Hu & p & Hparse & Hx).
    eauto.
Qed.

Lemma only_the_root_is_skipped_by_extension_witness :
  let s := Lab.state_after Lab.home_config Lab.home_schedule in
  passes Lab.world Lab.home_config "a.com" (Some Lab.robots_txt) s /\
  forall u msg, errors (result s) !! u = Some msg ->
    startswith "Skipped due to file extension: " msg = true ->
    u = root_url Lab.home_config.
Proof.
  intros s.
  refine ((fun Hp => conj Hp
             (proj2 (only_the_root_is_skipped_by_extension _ _ _ _ _ Hp)))
            _).
  subst s. lab_passes.
Defined.

End NormalFacts.
